(** * scan-in: the heuristic field extraction engine

    A shallow embedding of the invoice field extraction code of
    [main.go] (line normaliser, numeric locale parser, currency
    detection, amount, invoice number, date and vendor resolvers, and the
    aggregator [parseInvoiceTextWithPosition]), followed by the theorems
    that settle the properties stated for it.

    Conventions of the embedding:
    - a Go [string] is its sequence of bytes, [list ascii]; a Rocq string
      literal denotes the UTF-8 bytes of its text, as a Go literal does;
    - a Go [int] is a [Z]; the two multiplications of the zone thresholds
      are wrapped to 64 bits, division truncates towards zero;
    - a [float64] is the rational number it denotes; [ParseFloat] rounds
      to the nearest binary64 value;
    - loops with early [return] are recursive functions over the slice
      they range over, in the order of the source; a local variable that
      the loop assigns is threaded through as an extra argument;
    - the order in which [range] visits the keys of a Go map is not
      fixed by the language: it is an explicit argument, a [schedule]. *)

From Stdlib Require Import Ascii String.
From Stdlib Require Import ZArith QArith Bool Lia Lqa Arith List.
From Stdlib Require Import Permutation Sorted.
Import ListNotations.

#[local] Open Scope string_scope.
#[local] Open Scope list_scope.
#[local] Open Scope Z_scope.

(** ** Go strings *)

Abbreviation gostring := (list ascii).

Coercion list_ascii_of_string : string >-> list.

Definition byte_code (a : ascii) : Z := Z.of_N (N_of_ascii a).

Definition byte_of (z : Z) : ascii := ascii_of_N (Z.to_N z).

Definition in_range (lo hi : Z) (a : ascii) : bool :=
  (lo <=? byte_code a) && (byte_code a <=? hi).

Definition is_digit (a : ascii) : bool := in_range 48 57 a.
Definition is_upper (a : ascii) : bool := in_range 65 90 a.
Definition is_lower (a : ascii) : bool := in_range 97 122 a.
Definition is_letter (a : ascii) : bool := is_upper a || is_lower a.
Definition is_alnum (a : ascii) : bool := is_letter a || is_digit a.

Definition one_of (set : gostring) (a : ascii) : bool :=
  existsb (Ascii.eqb a) set.

Definition ascii_lower (a : ascii) : ascii :=
  if is_upper a then byte_of (byte_code a + 32) else a.

Definition ascii_upper (a : ascii) : ascii :=
  if is_lower a then byte_of (byte_code a - 32) else a.

(** [len(s)]: the number of bytes. *)
Definition len (s : gostring) : Z := Z.of_nat (length s).

Fixpoint streq (s t : gostring) : bool :=
  match s, t with
  | [], [] => true
  | a :: s', b :: t' => Ascii.eqb a b && streq s' t'
  | _, _ => false
  end.

(** Slices [s[:i]] and [s[i:]]; every use in the program has
    [0 <= i <= len(s)]. *)
Definition slice_to (s : gostring) (i : Z) : gostring := firstn (Z.to_nat i) s.
Definition slice_from (s : gostring) (i : Z) : gostring := skipn (Z.to_nat i) s.

(** Wrap-around of the 64-bit [int]. *)
Definition wrap64 (z : Z) : Z := (z + 2 ^ 63) mod 2 ^ 64 - 2 ^ 63.

(** *** UTF-8

    [rune_len s] is the width that [utf8.DecodeRuneInString] reports for
    the first rune of a non-empty [s]: the length of a well-formed
    encoding, and 1 for a byte that starts none. *)

Definition is_cont (a : ascii) : bool := in_range 128 191 a.

Definition rune_len (s : gostring) : nat :=
  match s with
  | [] => 0%nat
  | b0 :: t =>
    let c := byte_code b0 in
    if c <? 194 then 1%nat
    else if c <? 224 then
      match t with
      | b1 :: _ => if is_cont b1 then 2%nat else 1%nat
      | _ => 1%nat
      end
    else if c <? 240 then
      match t with
      | b1 :: b2 :: _ =>
        let lo := if c =? 224 then 160 else 128 in
        let hi := if c =? 237 then 159 else 191 in
        if in_range lo hi b1 && is_cont b2 then 3%nat else 1%nat
      | _ => 1%nat
      end
    else if c <? 245 then
      match t with
      | b1 :: b2 :: b3 :: _ =>
        let lo := if c =? 240 then 144 else 128 in
        let hi := if c =? 244 then 143 else 191 in
        if in_range lo hi b1 && is_cont b2 && is_cont b3 then 4%nat else 1%nat
      | _ => 1%nat
      end
    else 1%nat
  end.

Fixpoint rune_count_fuel (fuel : nat) (s : gostring) : Z :=
  match fuel with
  | O => 0
  | S f =>
    match s with
    | [] => 0
    | _ => 1 + rune_count_fuel f (skipn (rune_len s) s)
    end
  end.

Definition RuneCountInString (s : gostring) : Z := rune_count_fuel (length s) s.

Definition bytes (l : list Z) : gostring := map byte_of l.

(** The two letters outside ASCII that are case variants of ASCII
    letters: U+017F (long s) and U+212A (Kelvin sign), and U+0130 whose
    lower case is [i]. *)
Definition long_s : gostring := bytes [197; 191].
Definition kelvin : gostring := bytes [226; 132; 170].
Definition dotted_I : gostring := bytes [196; 176].

(** ** Package [strings] *)

Module GoStrings.

Fixpoint HasPrefix (s prefix : gostring) {struct prefix} : bool :=
  match prefix, s with
  | [], _ => true
  | p :: ps, a :: t => Ascii.eqb a p && HasPrefix t ps
  | _ :: _, [] => false
  end.

Definition HasSuffix (s suffix : gostring) : bool :=
  HasPrefix (rev s) (rev suffix).

Definition TrimPrefix (s prefix : gostring) : gostring :=
  if HasPrefix s prefix then skipn (length prefix) s else s.

Definition TrimSuffix (s suffix : gostring) : gostring :=
  if HasSuffix s suffix then firstn (length s - length suffix) s else s.

Fixpoint Contains (s substr : gostring) : bool :=
  match s with
  | [] => HasPrefix [] substr
  | _ :: t => HasPrefix s substr || Contains t substr
  end.

Fixpoint count_fuel (fuel : nat) (s substr : gostring) : Z :=
  match fuel with
  | O => 0
  | S f =>
    match s with
    | [] => 0
    | _ :: t =>
      if HasPrefix s substr
      then 1 + count_fuel f (skipn (length substr) s) substr
      else count_fuel f t substr
    end
  end.

(** Number of non-overlapping instances of [substr] in [s]. *)
Definition Count (s substr : gostring) : Z :=
  match substr with
  | [] => RuneCountInString s + 1
  | _ => count_fuel (length s) s substr
  end.

Fixpoint last_index_from (i : Z) (s substr : gostring) (found : Z) : Z :=
  match s with
  | [] => if HasPrefix [] substr then i else found
  | _ :: t => last_index_from (i + 1) t substr (if HasPrefix s substr then i else found)
  end.

Definition LastIndex (s substr : gostring) : Z := last_index_from 0 s substr (-1).

Fixpoint replace_fuel (fuel : nat) (s old new : gostring) : gostring :=
  match fuel with
  | O => s
  | S f =>
    match s with
    | [] => []
    | a :: t =>
      if HasPrefix s old
      then new ++ replace_fuel f (skipn (length old) s) old new
      else a :: replace_fuel f t old new
    end
  end.

(** [ReplaceAll] for a non-empty [old], which is how the program calls it. *)
Definition ReplaceAll (s old new : gostring) : gostring :=
  replace_fuel (length s) s old new.

Fixpoint split_fuel (fuel : nat) (s sep cur : gostring) : list gostring :=
  match fuel with
  | O => [rev cur]
  | S f =>
    match s with
    | [] => [rev cur]
    | a :: t =>
      if HasPrefix s sep
      then rev cur :: split_fuel f (skipn (length sep) s) sep []
      else split_fuel f t sep (a :: cur)
    end
  end.

(** [Split] for a non-empty separator. *)
Definition Split (s sep : gostring) : list gostring :=
  split_fuel (S (length s)) s sep [].

(** [ToLower] maps every rune to its lower case. Exactly two runes
    outside ASCII have an ASCII lower case (U+0130 to [i], U+212A to [k]);
    they are mapped here. The remaining runes outside ASCII are left as
    they are: their lower case is outside ASCII again, and the program
    inspects lowered text only for ASCII words. *)
Fixpoint lower_fuel (fuel : nat) (s : gostring) : gostring :=
  match fuel with
  | O => []
  | S f =>
    match s with
    | [] => []
    | a :: t =>
      if HasPrefix s dotted_I then "i"%char :: lower_fuel f (skipn 2 s)
      else if HasPrefix s kelvin then "k"%char :: lower_fuel f (skipn 3 s)
      else ascii_lower a :: lower_fuel f t
    end
  end.

Definition ToLower (s : gostring) : gostring := lower_fuel (length s) s.

(** [ToUpper] is only applied to a single ASCII byte by the program. *)
Definition ToUpper (s : gostring) : gostring := map ascii_upper s.

(** The encodings of the runes for which [unicode.IsSpace] holds. *)
Definition space_runes : list gostring :=
  map bytes
    ([[9]; [10]; [11]; [12]; [13]; [32]; [194; 133]; [194; 160]; [225; 154; 128]]
     ++ map (fun c => [226; 128; c]) [128; 129; 130; 131; 132; 133; 134; 135; 136; 137; 138]
     ++ [[226; 128; 168]; [226; 128; 169]; [226; 128; 175]; [226; 129; 159]; [227; 128; 128]]).

(** Width of the white-space rune at the head of [s], 0 if there is none. *)
Definition space_len (s : gostring) : nat :=
  match find (HasPrefix s) space_runes with
  | Some w => length w
  | None => 0%nat
  end.

Fixpoint trim_left_fuel (fuel : nat) (s : gostring) : gostring :=
  match fuel with
  | O => s
  | S f =>
    match space_len s with
    | O => s
    | w => trim_left_fuel f (skipn w s)
    end
  end.

Definition TrimLeftSpace (s : gostring) : gostring := trim_left_fuel (length s) s.

Fixpoint trim_right_fuel (fuel : nat) (s : gostring) : gostring :=
  match fuel with
  | O => s
  | S f =>
    match find (HasSuffix s) space_runes with
    | Some w => trim_right_fuel f (firstn (length s - length w) s)
    | None => s
    end
  end.

Definition TrimRightSpace (s : gostring) : gostring := trim_right_fuel (length s) s.

Definition TrimSpace (s : gostring) : gostring := TrimRightSpace (TrimLeftSpace s).

Fixpoint fields_fuel (fuel : nat) (s cur : gostring) : list gostring :=
  let flush (rest : list gostring) :=
    match cur with [] => rest | _ => rev cur :: rest end in
  match fuel with
  | O => flush []
  | S f =>
    match s with
    | [] => flush []
    | a :: t =>
      match space_len s with
      | O => fields_fuel f t (a :: cur)
      | w => flush (fields_fuel f (skipn w s) [])
      end
    end
  end.

(** [Fields]: the maximal runs of non-space runes. *)
Definition Fields (s : gostring) : list gostring := fields_fuel (S (length s)) s [].

Fixpoint Join (elems : list gostring) (sep : gostring) : gostring :=
  match elems with
  | [] => []
  | [e] => e
  | e :: rest => e ++ sep ++ Join rest sep
  end.

End GoStrings.

(** ** Package [strconv] *)

Module GoStrconv.

Definition digit_val (a : ascii) : Z := byte_code a - 48.

Fixpoint digits_val (acc : Z) (s : gostring) : Z :=
  match s with
  | [] => acc
  | a :: t => digits_val (10 * acc + digit_val a) t
  end.

(** An optional sign in front: whether it is a minus, and the rest. *)
Definition split_sign (s : gostring) : bool * gostring :=
  match s with
  | "-"%char :: t => (true, t)
  | "+"%char :: t => (false, t)
  | _ => (false, s)
  end.

Definition max_int64 : Z := 2 ^ 63 - 1.
Definition min_int64 : Z := - 2 ^ 63.
Definition max_uint64 : Z := 2 ^ 64 - 1.

(** The two errors of [strconv], [ErrSyntax] and [ErrRange]. *)
Inductive num_error : Type := ErrSyntax | ErrRange.

(** The loop of [ParseUint(s, 10, 64)] over the bytes of [s]: it stops
    with a syntax error at a byte that is no digit and with a range
    error as soon as the digits read so far exceed 64 bits. *)
Fixpoint parse_uint_loop (s : gostring) (n : Z) : Z * option num_error :=
  match s with
  | [] => (n, None)
  | c :: t =>
    if is_digit c then
      if max_uint64 / 10 + 1 <=? n then (max_uint64, Some ErrRange)
      else
        let n1 := n * 10 + digit_val c in
        if max_uint64 <? n1 then (max_uint64, Some ErrRange)
        else parse_uint_loop t n1
    else (0, Some ErrSyntax)
  end.

Definition ParseUint (s : gostring) : Z * option num_error :=
  match s with
  | [] => (0, Some ErrSyntax)
  | _ => parse_uint_loop s 0
  end.

(** [ParseInt(s, 10, 0)] with a 64-bit [int]. *)
Definition ParseInt (s : gostring) : Z * option num_error :=
  match s with
  | [] => (0, Some ErrSyntax)
  | _ =>
    let '(neg, body) := split_sign s in
    let '(un, err) := ParseUint body in
    match err with
    | Some ErrSyntax => (0, err)
    | _ =>
      let cutoff := 2 ^ 63 in
      if negb neg && (cutoff <=? un) then (cutoff - 1, Some ErrRange)
      else if neg && (cutoff <? un) then (- cutoff, Some ErrRange)
      else (if neg then - un else un, None)
    end
  end.

(** [Atoi]: the value and the error, [None] for [nil]. Its fast path for
    short strings returns what [ParseInt] returns. *)
Definition Atoi (s : gostring) : Z * option num_error := ParseInt s.

(** The binary64 value nearest to the positive rational [n/d] (ties to
    even), as a reduced fraction; [None] when it exceeds the largest
    finite float64, which is [ParseFloat]'s range error. *)
Definition binary64_of_pos (n d : Z) : option Q :=
  let e0 := Z.log2 n - Z.log2 d in
  let e := if n * 2 ^ Z.max 0 (- e0) <? d * 2 ^ Z.max 0 e0 then e0 - 1 else e0 in
  let p := Z.max (e - 52) (-1074) in
  let N := n * 2 ^ Z.max 0 (- p) in
  let D := d * 2 ^ Z.max 0 p in
  let m := N / D in
  let r := N mod D in
  let m := if (D <? 2 * r) || ((D =? 2 * r) && Z.odd m) then m + 1 else m in
  if (0 <=? p) && (2 ^ 1024 <=? m * 2 ^ p) then None
  else Some (Qred (Qmake (m * 2 ^ Z.max 0 p) (Z.to_pos (2 ^ Z.max 0 (- p))))).

Definition binary64_of (n d : Z) : option Q :=
  if n =? 0 then Some 0%Q else binary64_of_pos n d.

(** The float64 a Go decimal literal [n / 10^k] denotes. *)
Definition float64_lit (n : Z) (k : nat) : Q :=
  match binary64_of n (10 ^ Z.of_nat k) with
  | Some q => q
  | None => 0%Q
  end.

Fixpoint span_digits (s : gostring) : gostring * gostring :=
  match s with
  | a :: t =>
    if is_digit a then let '(ds, rest) := span_digits t in (a :: ds, rest)
    else ([], s)
  | [] => ([], [])
  end.

(** [ParseFloat(s, 64)] on decimal notation: an optional sign, digits
    with an optional point, at least one digit, nothing else. This is
    the only notation that reaches it in this program (lemma
    [captured_amount]); exponents, hexadecimal floats, [inf] and
    [nan], which Go also reads, are not modelled and count as errors.
    [None] stands for a non-nil error. *)
Definition ParseFloat (s : gostring) : option Q :=
  let '(neg, body) := split_sign s in
  let '(ip, rest) := span_digits body in
  let '(fp, rest) :=
    match rest with
    | "."%char :: t => span_digits t
    | _ => ([], rest)
    end in
  match rest with
  | [] =>
    match ip ++ fp with
    | [] => None
    | ds =>
      match binary64_of (digits_val 0 ds) (10 ^ Z.of_nat (length fp)) with
      | Some q => Some (if neg then Qopp q else q)
      | None => None
      end
    end
  | _ => None
  end.

End GoStrconv.

Import GoStrings GoStrconv.

(** ** The numeric locale parser *)

(** [parseAmount] of [main.go]. *)
Definition parseAmount (amountStr : gostring) : option Q :=
  let commaCount := Count amountStr "," in
  let periodCount := Count amountStr "." in
  let processedStr := amountStr in
  let processedStr :=
    if ((commaCount =? 1) && (1 <=? periodCount)) || ((commaCount =? 1) && (periodCount =? 0))
    then
      let lastCommaIndex := LastIndex processedStr "," in
      if negb (lastCommaIndex =? -1) then
        let processedStr :=
          slice_to processedStr lastCommaIndex ++ "." ++ slice_from processedStr (lastCommaIndex + 1) in
        ReplaceAll (slice_to processedStr lastCommaIndex) "." ""
      else processedStr
    else if periodCount =? 1 then
      ReplaceAll processedStr "," ""
    else if (commaCount =? 0) && (periodCount =? 0) then
      processedStr
    else if 1 <? periodCount then
      let lastPeriodIndex := LastIndex processedStr "." in
      if negb (lastPeriodIndex =? -1) then
        let processedStr :=
          ReplaceAll (slice_to processedStr lastPeriodIndex) "." "" ++ slice_from processedStr lastPeriodIndex in
        ReplaceAll processedStr "," ""
      else processedStr
    else if 1 <? commaCount then
      let lastCommaIndex := LastIndex processedStr "," in
      if negb (lastCommaIndex =? -1) then
        let processedStr :=
          slice_to processedStr lastCommaIndex ++ "." ++ slice_from processedStr (lastCommaIndex + 1) in
        ReplaceAll (slice_to processedStr lastCommaIndex) "," ""
      else processedStr
    else processedStr in
  ParseFloat processedStr.


(** ** Package [regexp]

    Regular expressions over bytes, matched by backtracking with the
    preferences of Go's [regexp] (leftmost start; at a start, the first
    alternative and the longest repetition that let the rest match).

    The patterns of the program only name ASCII characters and the runes
    [€], [£]; a byte below 128 or the first byte of a well-formed
    encoding never lies inside another rune, so matching the encodings
    byte by byte finds what Go finds rune by rune. Under the flag [(?i)]
    Go closes literals and classes under [unicode.SimpleFold]: besides
    the other ASCII case, [s] also stands for U+017F and [k] for
    U+212A. [fold_cls] does the same. *)

Module GoRegexp.

Inductive regex : Type :=
| Eps
| Cls (p : ascii -> bool)
| Seq (r1 r2 : regex)
| Alt (r1 r2 : regex)
| Star (r : regex)
| Group (n : nat) (r : regex).

(** Captured groups, latest binding first. *)
Definition caps := list (nat * gostring).

Fixpoint lookup (n : nat) (c : caps) : gostring :=
  match c with
  | [] => []
  | (m, txt) :: c' => if Nat.eqb n m then txt else lookup n c'
  end.

(** The consumed prefix, given what is left. *)
Definition consumed (s rest : gostring) : gostring :=
  firstn (length s - length rest) s.

Fixpoint run {A : Type} (r : regex) (s : gostring) (c : caps)
    (k : gostring -> caps -> option A) {struct r} : option A :=
  match r with
  | Eps => k s c
  | Cls p =>
    match s with
    | a :: t => if p a then k t c else None
    | [] => None
    end
  | Seq r1 r2 => run r1 s c (fun s1 c1 => run r2 s1 c1 k)
  | Alt r1 r2 =>
    match run r1 s c k with
    | Some x => Some x
    | None => run r2 s c k
    end
  | Star r1 =>
    (fix loop (fuel : nat) (s : gostring) (c : caps) {struct fuel} : option A :=
       match fuel with
       | O => k s c
       | S f =>
         match run r1 s c (fun s1 c1 =>
                 if (length s1 <? length s)%nat then loop f s1 c1 else None) with
         | Some x => Some x
         | None => k s c
         end
       end) (length s) s c
  | Group n r1 => run r1 s c (fun s1 c1 => k s1 ((n, consumed s s1) :: c1))
  end.

Fixpoint num_groups (r : regex) : nat :=
  match r with
  | Eps | Cls _ => 0%nat
  | Seq r1 r2 | Alt r1 r2 => Nat.max (num_groups r1) (num_groups r2)
  | Star r1 => num_groups r1
  | Group n r1 => Nat.max n (num_groups r1)
  end.

Definition match_at (r : regex) (s : gostring) : option (gostring * caps) :=
  run r s [] (fun rest c => Some (rest, c)).

(** Leftmost match: the matched text, the text after it and the groups. *)
Fixpoint find_from (r : regex) (s : gostring) : option (gostring * gostring * caps) :=
  match match_at r s with
  | Some (rest, c) => Some (consumed s rest, rest, c)
  | None =>
    match s with
    | [] => None
    | _ :: t => find_from r t
    end
  end.

(** The slice a [...Submatch] function returns: the match, then the
    groups, the empty string for a group that did not take part. *)
Definition submatches (r : regex) (whole : gostring) (c : caps) : list gostring :=
  whole :: map (fun n => lookup n c) (seq 1 (num_groups r)).

Definition FindStringSubmatch (r : regex) (s : gostring) : list gostring :=
  match find_from r s with
  | Some (whole, _, c) => submatches r whole c
  | None => []
  end.

Definition FindString (r : regex) (s : gostring) : gostring :=
  match find_from r s with
  | Some (whole, _, _) => whole
  | None => []
  end.

Definition MatchString (r : regex) (s : gostring) : bool :=
  match find_from r s with
  | Some _ => true
  | None => false
  end.

(** Successive non-overlapping matches. No pattern of the program
    matches the empty string; the scan stops at an empty match. *)
Fixpoint find_all_fuel (fuel : nat) (r : regex) (s : gostring) : list (list gostring) :=
  match fuel with
  | O => []
  | S f =>
    match find_from r s with
    | Some (a :: w, rest, c) => submatches r (a :: w) c :: find_all_fuel f r rest
    | _ => []
    end
  end.

Definition FindAllStringSubmatch (r : regex) (s : gostring) : list (list gostring) :=
  find_all_fuel (length s) r s.

Definition FindAllString (r : regex) (s : gostring) : list gostring :=
  map (fun m => nth 0 m []) (FindAllStringSubmatch r s).

(** *** Building patterns *)

Fixpoint seqs (l : list regex) : regex :=
  match l with
  | [] => Eps
  | [r] => r
  | r :: t => Seq r (seqs t)
  end.

Fixpoint alts (l : list regex) : regex :=
  match l with
  | [] => Cls (fun _ => false)
  | [r] => r
  | r :: t => Alt r (alts t)
  end.

Definition chr (a : ascii) : regex := Cls (Ascii.eqb a).

Definition lit (s : gostring) : regex := seqs (map chr s).

(** A class under [(?i)]: Go adds to a class the [SimpleFold] orbit of
    each of its members. The orbit of an ASCII letter is its two cases,
    and for [k] and [s] one more rune: [SimpleFold('k')] is U+212A and
    [SimpleFold('s')] is U+017F. No other character of the patterns has
    a case variant. *)
Definition fold_cls (p : ascii -> bool) : regex :=
  let base := Cls (fun a => p a || p (ascii_lower a) || p (ascii_upper a)) in
  let base := if p "s"%char || p "S"%char then Alt base (lit long_s) else base in
  if p "k"%char || p "K"%char then Alt base (lit kelvin) else base.

(** A literal under [(?i)]. *)
Definition ci (s : gostring) : regex := seqs (map (fun a => fold_cls (Ascii.eqb a)) s).

Definition opt (r : regex) : regex := Alt r Eps.
Definition plus (r : regex) : regex := Seq r (Star r).

Fixpoint times (n : nat) (r : regex) : regex :=
  match n with
  | O => Eps
  | S O => r
  | S n' => Seq r (times n' r)
  end.

Fixpoint upto (n : nat) (r : regex) : regex :=
  match n with
  | O => Eps
  | S n' => opt (Seq r (upto n' r))
  end.

(** [r{m,n}] and [r{m,}]. *)
Definition rep (m n : nat) (r : regex) : regex := Seq (times m r) (upto (n - m) r).
Definition at_least (m : nat) (r : regex) : regex := Seq (times m r) (Star r).

(** [\s] is [[\t\n\f\r ]], [\d] is [[0-9]]. *)
Definition is_space (a : ascii) : bool := one_of (bytes [9; 10; 12; 13; 32]) a.
Definition ws : regex := Cls is_space.
Definition dg : regex := Cls is_digit.

(** A pattern as the program writes it, and what [MustCompile] makes of it. *)
Record pattern : Type := { text : string; MustCompile : regex }.

End GoRegexp.

Import GoRegexp.

(** ** Data model *)

(** [TextLine]: a line of text with its position. *)
Record TextLine : Type := {
  Text : gostring;
  X : Z;
  Y : Z;
  Width : Z;
  Height : Z
}.

(** [Invoice], without the bookkeeping fields of [gorm.Model]. *)
Record Invoice : Type := {
  InvoiceNumber : gostring;
  Date : gostring;
  TotalAmount : Q;
  Currency : gostring;
  VendorName : gostring
}.

(** *** Go maps

    A map is a list of entries with distinct keys. [range_order sched m]
    is an order in which a [range] loop may visit the entries: entry [n]
    of the schedule picks the next one among those not yet visited. Every
    schedule gives a permutation, and every permutation has a schedule. *)

Definition gomap (V : Type) : Type := list (gostring * V).

Fixpoint map_get {V : Type} (m : gomap V) (key : gostring) : option V :=
  match m with
  | [] => None
  | (k, v) :: m' => if streq k key then Some v else map_get m' key
  end.

Fixpoint map_set {V : Type} (m : gomap V) (key : gostring) (v : V) : gomap V :=
  match m with
  | [] => [(key, v)]
  | (k, w) :: m' => if streq k key then (k, v) :: m' else (k, w) :: map_set m' key v
  end.

Definition schedule : Type := list nat.

Fixpoint range_order {A : Type} (sched : schedule) (entries : list A) {struct sched} : list A :=
  match sched, entries with
  | _, [] => []
  | [], _ => entries
  | n :: sched', e0 :: _ =>
    let i := (n mod length entries)%nat in
    nth i entries e0 :: range_order sched' (firstn i entries ++ skipn (S i) entries)
  end.

(** Control flow of a loop body that may [return]. *)
Inductive flow (S R : Type) : Type :=
| Return (r : R)
| Next (s : S).

Arguments Return {S R} r.
Arguments Next {S R} s.

(** Comparison of two float64 values, [a > b]. *)
Definition Qgtb (a b : Q) : bool := negb (Qle_bool a b).

(** [maxX], [maxY]: the loops that open the resolvers. *)
Definition max_of (coord : TextLine -> Z) (textLines : list TextLine) : Z :=
  fold_left (fun m line => if coord line >? m then coord line else m) textLines 0.

(** ** Currency detection *)

Definition USD : gostring := "USD".
Definition EUR : gostring := "EUR".
Definition GBP : gostring := "GBP".

Definition add_count (currencyCount : gomap Z) (key : gostring) (n : Z) : gomap Z :=
  match map_get currencyCount key with
  | Some count => map_set currencyCount key (count + n)
  | None => map_set currencyCount key n
  end.

Definition when (b : bool) {A : Type} (f : A -> A) (a : A) : A := if b then f a else a.

(** The body of the first loop of [detectDocumentCurrency]. *)
Definition count_line (currencyCount : gomap Z) (line : TextLine) : gomap Z :=
  let text := Text line in
  let lowerText := ToLower text in
  let currencyCount := when (Contains text "$") (fun m => add_count m USD 1) currencyCount in
  let currencyCount := when (Contains text "€") (fun m => add_count m EUR 2) currencyCount in
  let currencyCount := when (Contains text "£") (fun m => add_count m GBP 1) currencyCount in
  let currencyCount :=
    when (Contains lowerText "usd" || Contains lowerText "dollar")
         (fun m => add_count m USD 1) currencyCount in
  let currencyCount :=
    when (Contains lowerText "eur" || Contains lowerText "euro")
         (fun m => add_count m EUR 2) currencyCount in
  let currencyCount :=
    when (Contains lowerText "gbp" || Contains lowerText "pound")
         (fun m => add_count m GBP 1) currencyCount in
  currencyCount.

Definition count_currencies (textLines : list TextLine) : gomap Z :=
  fold_left count_line textLines [(USD, 0); (EUR, 0); (GBP, 0)].

(** The body of the second loop: the running [(maxCount, mostFrequentCurrency)]. *)
Definition most_frequent_step (acc : Z * gostring) (entry : gostring * Z) : Z * gostring :=
  let '(maxCount, mostFrequentCurrency) := acc in
  let '(currency, count) := entry in
  if count >? maxCount then (count, currency) else (maxCount, mostFrequentCurrency).

Definition detectDocumentCurrency (sched : schedule) (textLines : list TextLine) : gostring :=
  let currencyCount := count_currencies textLines in
  snd (fold_left most_frequent_step (range_order sched currencyCount) (0, EUR)).

(** ** Amount resolver *)

Module AmountPatterns.

Definition colon : regex := chr ":".
Definition sep : regex := Cls (one_of ".,").

(** [\d{1,3}(?:[.,]\d{3})*[.,]\d{2}] *)
Definition amount : regex :=
  seqs [rep 1 3 dg; Star (seqs [sep; times 3 dg]); sep; times 2 dg].

(** [[\$€£]] *)
Definition symbol : regex := alts [chr "$"; lit "€"; lit "£"].

(** [[\$€£]|EUR|USD|GBP] under [(?i)], and without the flag. *)
Definition code_ci : regex := alts [symbol; ci "EUR"; ci "USD"; ci "GBP"].
Definition code : regex := alts [symbol; lit "EUR"; lit "USD"; lit "GBP"].

(** [word:?\s*] and [word1\s*word2:?\s*] under [(?i)]. *)
Definition label1 (w : gostring) : regex := seqs [ci w; opt colon; Star ws].
Definition label2 (w1 w2 : gostring) : regex :=
  seqs [ci w1; Star ws; ci w2; opt colon; Star ws].

(** [label([\$€£])\s*(amount)], [label(amount)\s*([\$€£]|EUR|USD|GBP)] and
    [label(amount)]. *)
Definition before (label : regex) : regex :=
  seqs [label; Group 1 symbol; Star ws; Group 2 amount].
Definition after (label : regex) : regex :=
  seqs [label; Group 1 amount; Star ws; Group 2 code_ci].
Definition bare (label : regex) : regex :=
  seqs [label; Group 1 amount].

Definition patterns : list pattern := [
  {| text := "(?i)total:?\s*([\$€£])\s*(\d{1,3}(?:[.,]\d{3})*[.,]\d{2})";
     MustCompile := before (label1 "total") |};
  {| text := "(?i)amount\s*due:?\s*([\$€£])\s*(\d{1,3}(?:[.,]\d{3})*[.,]\d{2})";
     MustCompile := before (label2 "amount" "due") |};
  {| text := "(?i)balance\s*due:?\s*([\$€£])\s*(\d{1,3}(?:[.,]\d{3})*[.,]\d{2})";
     MustCompile := before (label2 "balance" "due") |};
  {| text := "(?i)grand\s*total:?\s*([\$€£])\s*(\d{1,3}(?:[.,]\d{3})*[.,]\d{2})";
     MustCompile := before (label2 "grand" "total") |};
  {| text := "(?i)total\s*amount:?\s*([\$€£])\s*(\d{1,3}(?:[.,]\d{3})*[.,]\d{2})";
     MustCompile := before (label2 "total" "amount") |};
  {| text := "(?i)total\s*due:?\s*([\$€£])\s*(\d{1,3}(?:[.,]\d{3})*[.,]\d{2})";
     MustCompile := before (label2 "total" "due") |};
  {| text := "(?i)invoice\s*total:?\s*([\$€£])\s*(\d{1,3}(?:[.,]\d{3})*[.,]\d{2})";
     MustCompile := before (label2 "invoice" "total") |};
  {| text := "(?i)payment\s*due:?\s*([\$€£])\s*(\d{1,3}(?:[.,]\d{3})*[.,]\d{2})";
     MustCompile := before (label2 "payment" "due") |};
  {| text := "(?i)([\$€£])\s*(\d{1,3}(?:[.,]\d{3})*[.,]\d{2})";
     MustCompile := before Eps |};
  {| text := "(?i)total:?\s*(\d{1,3}(?:[.,]\d{3})*[.,]\d{2})\s*([\$€£]|EUR|USD|GBP)";
     MustCompile := after (label1 "total") |};
  {| text := "(?i)amount\s*due:?\s*(\d{1,3}(?:[.,]\d{3})*[.,]\d{2})\s*([\$€£]|EUR|USD|GBP)";
     MustCompile := after (label2 "amount" "due") |};
  {| text := "(?i)balance\s*due:?\s*(\d{1,3}(?:[.,]\d{3})*[.,]\d{2})\s*([\$€£]|EUR|USD|GBP)";
     MustCompile := after (label2 "balance" "due") |};
  {| text := "(?i)grand\s*total:?\s*(\d{1,3}(?:[.,]\d{3})*[.,]\d{2})\s*([\$€£]|EUR|USD|GBP)";
     MustCompile := after (label2 "grand" "total") |};
  {| text := "(?i)total\s*amount:?\s*(\d{1,3}(?:[.,]\d{3})*[.,]\d{2})\s*([\$€£]|EUR|USD|GBP)";
     MustCompile := after (label2 "total" "amount") |};
  {| text := "(?i)total\s*due:?\s*(\d{1,3}(?:[.,]\d{3})*[.,]\d{2})\s*([\$€£]|EUR|USD|GBP)";
     MustCompile := after (label2 "total" "due") |};
  {| text := "(?i)invoice\s*total:?\s*(\d{1,3}(?:[.,]\d{3})*[.,]\d{2})\s*([\$€£]|EUR|USD|GBP)";
     MustCompile := after (label2 "invoice" "total") |};
  {| text := "(?i)payment\s*due:?\s*(\d{1,3}(?:[.,]\d{3})*[.,]\d{2})\s*([\$€£]|EUR|USD|GBP)";
     MustCompile := after (label2 "payment" "due") |};
  {| text := "(?i)(\d{1,3}(?:[.,]\d{3})*[.,]\d{2})\s*([\$€£]|EUR|USD|GBP)";
     MustCompile := after Eps |}
].

Definition patternsNoCurrency : list pattern := [
  {| text := "(?i)total:?\s*(\d{1,3}(?:[.,]\d{3})*[.,]\d{2})";
     MustCompile := bare (label1 "total") |};
  {| text := "(?i)amount\s*due:?\s*(\d{1,3}(?:[.,]\d{3})*[.,]\d{2})";
     MustCompile := bare (label2 "amount" "due") |};
  {| text := "(?i)balance\s*due:?\s*(\d{1,3}(?:[.,]\d{3})*[.,]\d{2})";
     MustCompile := bare (label2 "balance" "due") |};
  {| text := "(?i)grand\s*total:?\s*(\d{1,3}(?:[.,]\d{3})*[.,]\d{2})";
     MustCompile := bare (label2 "grand" "total") |};
  {| text := "(?i)total\s*amount:?\s*(\d{1,3}(?:[.,]\d{3})*[.,]\d{2})";
     MustCompile := bare (label2 "total" "amount") |};
  {| text := "(?i)total\s*due:?\s*(\d{1,3}(?:[.,]\d{3})*[.,]\d{2})";
     MustCompile := bare (label2 "total" "due") |};
  {| text := "(?i)invoice\s*total:?\s*(\d{1,3}(?:[.,]\d{3})*[.,]\d{2})";
     MustCompile := bare (label2 "invoice" "total") |};
  {| text := "(?i)payment\s*due:?\s*(\d{1,3}(?:[.,]\d{3})*[.,]\d{2})";
     MustCompile := bare (label2 "payment" "due") |}
].

(** The pattern of the last tier:
    [([\$€£])?\s*(\d{1,3}(?:[.,]\d{3})*[.,]\d{2})(?:\s*([\$€£]|EUR|USD|GBP))?] *)
Definition anywhere : pattern :=
  {| text := "([\$€£])?\s*(\d{1,3}(?:[.,]\d{3})*[.,]\d{2})(?:\s*([\$€£]|EUR|USD|GBP))?";
     MustCompile :=
       seqs [opt (Group 1 symbol); Star ws; Group 2 amount;
             opt (seqs [Star ws; Group 3 code])] |}.

(** The text [extractAmountFromPosition] looks for in a pattern to tell
    the two orders of the groups apart. *)
Definition currency_after_amount : string :=
  "(\d{1,3}(?:[.,]\d{3})*[.,]\d{2})\s*([\$€£]|EUR|USD|GBP)".

Definition currencyMap : gomap gostring := [
  ("$" : gostring, USD); ("€" : gostring, EUR); ("£" : gostring, GBP);
  (EUR, EUR); (USD, USD); (GBP, GBP);
  ("eur" : gostring, EUR); ("usd" : gostring, USD); ("gbp" : gostring, GBP)
].

End AmountPatterns.

Import AmountPatterns.

Definition has_amount_keyword (line : TextLine) : bool :=
  let lowerText := ToLower (Text line) in
  Contains lowerText "total" || Contains lowerText "amount" ||
  Contains lowerText "balance" || Contains lowerText "due" ||
  Contains lowerText "payment".

(** "Look for currency symbols in the line": the chain of tests that
    follows a match without a captured currency; [otherwise] is the
    value the assigned variable keeps when no test succeeds. *)
Definition line_currency (text otherwise : gostring) : gostring :=
  if Contains text "$" then USD
  else if Contains text "€" || Contains (ToLower text) "eur" then EUR
  else if Contains text "£" || Contains (ToLower text) "gbp" then GBP
  else otherwise.

(** The two captures of a pattern of [patterns], in the order
    [(amountStr, currencySymbol)]. *)
Definition tagged_groups (p : pattern) (matches : list gostring) : gostring * gostring :=
  if Contains (text p) currency_after_amount
  then (nth 1 matches [], nth 2 matches [])
  else (nth 2 matches [], nth 1 matches []).

Definition map_currency (currencySymbol currency : gostring) : gostring :=
  match map_get currencyMap currencySymbol with
  | Some mappedCurrency => mappedCurrency
  | None => currency
  end.

(** The loops of [extractAmountFromPosition]; the pattern tables are its
    local variables [patterns] and [patternsNoCurrency] and the pattern
    of the last tier. *)
Section AmountLoops.
Context (patterns patternsNoCurrency : list pattern) (anywhere : pattern).

(** First tier, inner loop over [patterns] on a keyword line. The state
    is the variable [currency]. *)
Fixpoint keyword_tagged (pats : list pattern) (text : gostring) (currency : gostring)
    : flow gostring (Q * gostring) :=
  match pats with
  | [] => Next currency
  | p :: rest =>
    let matches := FindStringSubmatch (MustCompile p) text in
    if (2 <? length matches)%nat then
      let '(amountStr, currencySymbol) := tagged_groups p matches in
      let currency := map_currency currencySymbol currency in
      match parseAmount amountStr with
      | Some amount => Return (amount, currency)
      | None => keyword_tagged rest text currency
      end
    else keyword_tagged rest text currency
  end.

(** First tier, inner loop over [patternsNoCurrency]. *)
Fixpoint keyword_untagged (pats : list pattern) (text : gostring) (currency : gostring)
    : flow gostring (Q * gostring) :=
  match pats with
  | [] => Next currency
  | p :: rest =>
    let matches := FindStringSubmatch (MustCompile p) text in
    if (1 <? length matches)%nat then
      let amountStr := nth 1 matches [] in
      match parseAmount amountStr with
      | Some amount => Return (amount, line_currency text currency)
      | None => keyword_untagged rest text currency
      end
    else keyword_untagged rest text currency
  end.

(** First tier, loop over the lines. *)
Fixpoint keyword_lines (textLines : list TextLine) (currency : gostring)
    : flow gostring (Q * gostring) :=
  match textLines with
  | [] => Next currency
  | line :: rest =>
    if has_amount_keyword line then
      match keyword_tagged patterns (Text line) currency with
      | Return r => Return r
      | Next currency =>
        match keyword_untagged patternsNoCurrency (Text line) currency with
        | Return r => Return r
        | Next currency => keyword_lines rest currency
        end
      end
    else keyword_lines rest currency
  end.

(** Second tier. The state is
    [(largestAmount, largestAmountCurrency, currency)]. *)
Definition zone_state : Type := Q * gostring * gostring.

Fixpoint zone_tagged (pats : list pattern) (text : gostring) (st : zone_state) : zone_state :=
  match pats with
  | [] => st
  | p :: rest =>
    let '(largestAmount, largestAmountCurrency, currency) := st in
    let matches := FindStringSubmatch (MustCompile p) text in
    if (2 <? length matches)%nat then
      let '(amountStr, currencySymbol) := tagged_groups p matches in
      let currency := map_currency currencySymbol currency in
      match parseAmount amountStr with
      | Some amount =>
        if Qgtb amount largestAmount
        then zone_tagged rest text (amount, currency, currency)
        else zone_tagged rest text (largestAmount, largestAmountCurrency, currency)
      | None => zone_tagged rest text (largestAmount, largestAmountCurrency, currency)
      end
    else zone_tagged rest text st
  end.

Fixpoint zone_untagged (pats : list pattern) (text : gostring) (st : zone_state) : zone_state :=
  match pats with
  | [] => st
  | p :: rest =>
    let '(largestAmount, largestAmountCurrency, currency) := st in
    let matches := FindStringSubmatch (MustCompile p) text in
    if (1 <? length matches)%nat then
      let amountStr := nth 1 matches [] in
      match parseAmount amountStr with
      | Some amount =>
        if Qgtb amount largestAmount
        then zone_untagged rest text (amount, line_currency text currency, currency)
        else zone_untagged rest text st
      | None => zone_untagged rest text st
      end
    else zone_untagged rest text st
  end.

Fixpoint zone_lines (bottomThreshold : Z) (textLines : list TextLine) (st : zone_state)
    : zone_state :=
  match textLines with
  | [] => st
  | line :: rest =>
    if Y line >? bottomThreshold then
      let st := zone_tagged patterns (Text line) st in
      let st := zone_untagged patternsNoCurrency (Text line) st in
      zone_lines bottomThreshold rest st
    else zone_lines bottomThreshold rest st
  end.

(** Last tier. The state is
    [(largestDecimalNumber, largestDecimalCurrency)]; [currency] is only
    read. *)
Definition anywhere_groups (m : list gostring) : gostring * gostring :=
  if (3 <? length m)%nat && negb (streq (nth 3 m []) "") then (nth 2 m [], nth 3 m [])
  else if (2 <? length m)%nat && negb (streq (nth 1 m []) "") then (nth 2 m [], nth 1 m [])
  else if (2 <? length m)%nat then (nth 2 m [], [])
  else if (1 <? length m)%nat then (nth 1 m [], [])
  else ([], []).

Definition anywhere_match (text currency : gostring) (st : Q * gostring) (m : list gostring)
    : Q * gostring :=
  let '(largestDecimalNumber, largestDecimalCurrency) := st in
  let '(amountStr, currencySymbol) := anywhere_groups m in
  let matchCurrency := currency in
  let matchCurrency :=
    if negb (streq currencySymbol "")
    then map_currency currencySymbol matchCurrency
    else line_currency text matchCurrency in
  match parseAmount amountStr with
  | Some amount =>
    if Qgtb amount largestDecimalNumber then (amount, matchCurrency) else st
  | None => st
  end.

Definition anywhere_lines (textLines : list TextLine) (currency : gostring) : Q * gostring :=
  fold_left
    (fun st line =>
       fold_left (anywhere_match (Text line) currency)
                 (FindAllStringSubmatch (MustCompile anywhere) (Text line)) st)
    textLines (0%Q, []).

End AmountLoops.

(** [extractAmountFromPosition] of [main.go]. *)
Definition extractAmountFromPosition (sched : schedule) (textLines : list TextLine)
    : Q * gostring :=
  let documentCurrency := detectDocumentCurrency sched textLines in
  let currency := EUR in
  let currency := if negb (streq documentCurrency "") then documentCurrency else currency in
  let maxY := max_of Y textLines in
  match keyword_lines patterns patternsNoCurrency textLines currency with
  | Return r => r
  | Next currency =>
    let bottomThreshold := Z.quot (wrap64 (maxY * 7)) 10 in
    let '(largestAmount, largestAmountCurrency, currency) :=
      zone_lines patterns patternsNoCurrency bottomThreshold textLines (0%Q, [], currency) in
    if Qgtb largestAmount 0 then (largestAmount, largestAmountCurrency)
    else
      let '(largestDecimalNumber, largestDecimalCurrency) :=
        anywhere_lines anywhere textLines currency in
      if Qgtb largestDecimalNumber 0 then (largestDecimalNumber, largestDecimalCurrency)
      else (0%Q, currency)
  end.


(** ** Invoice number resolver *)

Module InvoicePatterns.

(** [[-#\s.:]*] *)
Definition seps : regex := Star (Cls (fun a => one_of "-#.:" a || is_space a)).

(** [([A-Za-z0-9-]+)] under [(?i)] *)
Definition token : regex :=
  Group 1 (plus (fold_cls (fun a => is_alnum a || Ascii.eqb a "-"))).

(** [no\.?\s*] under [(?i)] *)
Definition no : regex := seqs [ci "no"; opt (chr "."); Star ws].

(** [#\s*] *)
Definition hash : regex := seqs [chr "#"; Star ws].

Definition patterns : list pattern := [
  {| text := "(?i)inv[oice]*[-#\s.:]*([A-Za-z0-9-]+)";
     MustCompile := seqs [ci "inv"; Star (fold_cls (one_of "oice")); seps; token] |};
  {| text := "(?i)invoice\s*number[-#\s.:]*([A-Za-z0-9-]+)";
     MustCompile := seqs [ci "invoice"; Star ws; ci "number"; seps; token] |};
  {| text := "(?i)invoice\s*#\s*([A-Za-z0-9-]+)";
     MustCompile := seqs [ci "invoice"; Star ws; hash; token] |};
  {| text := "(?i)invoice\s*no\.?\s*([A-Za-z0-9-]+)";
     MustCompile := seqs [ci "invoice"; Star ws; no; token] |};
  {| text := "(?i)inv\s*no\.?\s*([A-Za-z0-9-]+)";
     MustCompile := seqs [ci "inv"; Star ws; no; token] |};
  {| text := "(?i)order\s*number[-#\s.:]*([A-Za-z0-9-]+)";
     MustCompile := seqs [ci "order"; Star ws; ci "number"; seps; token] |};
  {| text := "(?i)order\s*#\s*([A-Za-z0-9-]+)";
     MustCompile := seqs [ci "order"; Star ws; hash; token] |};
  {| text := "(?i)order\s*no\.?\s*([A-Za-z0-9-]+)";
     MustCompile := seqs [ci "order"; Star ws; no; token] |};
  {| text := "(?i)reference\s*number[-#\s.:]*([A-Za-z0-9-]+)";
     MustCompile := seqs [ci "reference"; Star ws; ci "number"; seps; token] |};
  {| text := "(?i)reference\s*#\s*([A-Za-z0-9-]+)";
     MustCompile := seqs [ci "reference"; Star ws; hash; token] |};
  {| text := "(?i)reference\s*no\.?\s*([A-Za-z0-9-]+)";
     MustCompile := seqs [ci "reference"; Star ws; no; token] |};
  {| text := "(?i)ref\s*no\.?\s*([A-Za-z0-9-]+)";
     MustCompile := seqs [ci "ref"; Star ws; no; token] |};
  {| text := "(?i)#\s*([A-Za-z0-9-]+)";
     MustCompile := seqs [hash; token] |}
].

(** The pattern of the keyword fallback, [[A-Za-z0-9][-A-Za-z0-9]{2,}]. *)
Definition alphanumeric : pattern :=
  {| text := "[A-Za-z0-9][-A-Za-z0-9]{2,}";
     MustCompile :=
       seqs [Cls is_alnum; at_least 2 (Cls (fun a => Ascii.eqb a "-" || is_alnum a))] |}.

End InvoicePatterns.

(** The loop over [patterns] that each of the four tiers runs on a
    line: the first capture that is longer than one byte after trimming. *)
Fixpoint first_capture (pats : list pattern) (text : gostring) : option gostring :=
  match pats with
  | [] => None
  | p :: rest =>
    let matches := FindStringSubmatch (MustCompile p) text in
    if (1 <? length matches)%nat then
      let result := TrimSpace (nth 1 matches []) in
      if 1 <? len result then Some result else first_capture rest text
    else first_capture rest text
  end.

(** The loop over the alphanumeric runs of a line in the first tier. *)
Fixpoint first_run (matches : list gostring) : option gostring :=
  match matches with
  | [] => None
  | m :: rest =>
    let lowerMatch := ToLower m in
    if negb (streq lowerMatch "invoice") && negb (streq lowerMatch "number") &&
       negb (streq lowerMatch "inv") && (2 <? len m)
    then Some m
    else first_run rest
  end.

(** First tier: the top right area. *)
Fixpoint invoice_top_right (topThreshold rightHalfThreshold : Z) (textLines : list TextLine)
    : option gostring :=
  match textLines with
  | [] => None
  | line :: rest =>
    if (Y line <? topThreshold) && (X line >? rightHalfThreshold) then
      let lowerText := ToLower (Text line) in
      if Contains lowerText "invoice" || Contains lowerText "inv" ||
         Contains lowerText "number" || Contains lowerText "#" then
        match first_capture InvoicePatterns.patterns (Text line) with
        | Some result => Some result
        | None =>
          match first_run (FindAllString (MustCompile InvoicePatterns.alphanumeric) (Text line)) with
          | Some m => Some m
          | None => invoice_top_right topThreshold rightHalfThreshold rest
          end
        end
      else invoice_top_right topThreshold rightHalfThreshold rest
    else invoice_top_right topThreshold rightHalfThreshold rest
  end.

(** Second tier: keyword lines anywhere. *)
Fixpoint invoice_keyword_lines (textLines : list TextLine) : option gostring :=
  match textLines with
  | [] => None
  | line :: rest =>
    let lowerText := ToLower (Text line) in
    if Contains lowerText "invoice" || Contains lowerText "inv" ||
       Contains lowerText "number" || Contains lowerText "order" ||
       Contains lowerText "reference" then
      match first_capture InvoicePatterns.patterns (Text line) with
      | Some result => Some result
      | None => invoice_keyword_lines rest
      end
    else invoice_keyword_lines rest
  end.

(** Third tier: the top half. *)
Fixpoint invoice_top_half (topHalfThreshold : Z) (textLines : list TextLine) : option gostring :=
  match textLines with
  | [] => None
  | line :: rest =>
    if Y line <? topHalfThreshold then
      match first_capture InvoicePatterns.patterns (Text line) with
      | Some result => Some result
      | None => invoice_top_half topHalfThreshold rest
      end
    else invoice_top_half topHalfThreshold rest
  end.

(** Fourth tier: the entire document. *)
Fixpoint invoice_anywhere (textLines : list TextLine) : option gostring :=
  match textLines with
  | [] => None
  | line :: rest =>
    match first_capture InvoicePatterns.patterns (Text line) with
    | Some result => Some result
    | None => invoice_anywhere rest
    end
  end.

Definition UNKNOWN : gostring := "UNKNOWN".

(** [extractInvoiceNumberFromPosition] of [main.go]. *)
Definition extractInvoiceNumberFromPosition (textLines : list TextLine) : gostring :=
  let maxX := max_of X textLines in
  let maxY := max_of Y textLines in
  let topThreshold := Z.quot (wrap64 (maxY * 3)) 10 in
  let rightHalfThreshold := Z.quot maxX 2 in
  match invoice_top_right topThreshold rightHalfThreshold textLines with
  | Some result => result
  | None =>
    match invoice_keyword_lines textLines with
    | Some result => result
    | None =>
      let topHalfThreshold := Z.quot maxY 2 in
      match invoice_top_half topHalfThreshold textLines with
      | Some result => result
      | None =>
        match invoice_anywhere textLines with
        | Some result => result
        | None => UNKNOWN
        end
      end
    end
  end.

(** ** Date resolver *)

Module DatePatterns.

Definition dsep : regex := Cls (one_of "-/.").
Definition comma_space : regex := Cls (fun a => Ascii.eqb a "," || is_space a).

Definition short_months : list regex :=
  map ci ["jan" : gostring; "feb" : gostring; "mar" : gostring; "apr" : gostring;
          "may" : gostring; "jun" : gostring; "jul" : gostring; "aug" : gostring;
          "sep" : gostring; "oct" : gostring; "nov" : gostring; "dec" : gostring].

Definition long_months : list regex :=
  map ci ["january" : gostring; "february" : gostring; "march" : gostring;
          "april" : gostring; "may" : gostring; "june" : gostring; "july" : gostring;
          "august" : gostring; "september" : gostring; "october" : gostring;
          "november" : gostring; "december" : gostring].

(** [(jan|...|dec)[a-z]*\.?] under [(?i)] *)
Definition short_month : regex :=
  seqs [Group 1 (alts short_months); Star (fold_cls is_lower); opt (chr ".")].

Definition long_month : regex := Group 1 (alts long_months).

Definition patterns : list pattern := [
  {| text := "\d{1,2}[-/.]\d{1,2}[-/.]\d{2,4}";
     MustCompile := seqs [rep 1 2 dg; dsep; rep 1 2 dg; dsep; rep 2 4 dg] |};
  {| text := "\d{4}[-/.]\d{1,2}[-/.]\d{1,2}";
     MustCompile := seqs [times 4 dg; dsep; rep 1 2 dg; dsep; rep 1 2 dg] |};
  {| text := "(?i)(jan|feb|mar|apr|may|jun|jul|aug|sep|oct|nov|dec)[a-z]*\.?\s+\d{1,2}[,\s]+\d{2,4}";
     MustCompile := seqs [short_month; plus ws; rep 1 2 dg; plus comma_space; rep 2 4 dg] |};
  {| text := "(?i)(january|february|march|april|may|june|july|august|september|october|november|december)\s+\d{1,2}[,\s]+\d{2,4}";
     MustCompile := seqs [long_month; plus ws; rep 1 2 dg; plus comma_space; rep 2 4 dg] |};
  {| text := "(?i)\d{1,2}\s+(jan|feb|mar|apr|may|jun|jul|aug|sep|oct|nov|dec)[a-z]*\.?\s+\d{2,4}";
     MustCompile := seqs [rep 1 2 dg; plus ws; short_month; plus ws; rep 2 4 dg] |};
  {| text := "(?i)\d{1,2}\s+(january|february|march|april|may|june|july|august|september|october|november|december)\s+\d{2,4}";
     MustCompile := seqs [rep 1 2 dg; plus ws; long_month; plus ws; rep 2 4 dg] |}
].

Definition dateKeywords : list gostring :=
  ["date" : gostring; "issued" : gostring; "invoice date" : gostring;
   "order date" : gostring; "billing date" : gostring].

End DatePatterns.

(** The loop over the date patterns on a line. *)
Fixpoint first_date (pats : list pattern) (text : gostring) : option gostring :=
  match pats with
  | [] => None
  | p :: rest =>
    let m := FindString (MustCompile p) text in
    if negb (streq m "") then Some m else first_date rest text
  end.

Fixpoint date_keyword_lines (textLines : list TextLine) : option gostring :=
  match textLines with
  | [] => None
  | line :: rest =>
    let lowerText := ToLower (Text line) in
    let containsDateKeyword := existsb (Contains lowerText) DatePatterns.dateKeywords in
    if containsDateKeyword then
      match first_date DatePatterns.patterns (Text line) with
      | Some m => Some m
      | None => date_keyword_lines rest
      end
    else date_keyword_lines rest
  end.

Fixpoint date_top_half (topHalfThreshold : Z) (textLines : list TextLine) : option gostring :=
  match textLines with
  | [] => None
  | line :: rest =>
    if Y line <? topHalfThreshold then
      match first_date DatePatterns.patterns (Text line) with
      | Some m => Some m
      | None => date_top_half topHalfThreshold rest
      end
    else date_top_half topHalfThreshold rest
  end.

Fixpoint date_anywhere (textLines : list TextLine) : option gostring :=
  match textLines with
  | [] => None
  | line :: rest =>
    match first_date DatePatterns.patterns (Text line) with
    | Some m => Some m
    | None => date_anywhere rest
    end
  end.

(** [extractDateFromPosition] of [main.go]. *)
Definition extractDateFromPosition (textLines : list TextLine) : gostring :=
  match date_keyword_lines textLines with
  | Some m => m
  | None =>
    let maxY := max_of Y textLines in
    let topHalfThreshold := Z.quot maxY 2 in
    match date_top_half topHalfThreshold textLines with
    | Some m => m
    | None =>
      match date_anywhere textLines with
      | Some m => m
      | None => UNKNOWN
      end
    end
  end.


(** ** Package [sort]

    [sort.Slice] sorts slices of at most 12 elements by insertion, as
    below. For longer slices it runs another algorithm, which may leave
    elements that compare equal in another order. *)

Module GoSort.

Section Insertion.
Context {A : Type} (less : A -> A -> bool).

(** [x] moves left as long as it is less than its left neighbour;
    [sorted_rev] is the part already sorted, last element first. *)
Fixpoint insert_left (x : A) (sorted_rev : list A) : list A :=
  match sorted_rev with
  | [] => [x]
  | y :: t => if less x y then y :: insert_left x t else x :: sorted_rev
  end.

Definition Slice (data : list A) : list A :=
  rev (fold_left (fun sorted_rev x => insert_left x sorted_rev) data []).
End Insertion.

End GoSort.

(** ** Vendor name resolver *)

Module VendorPatterns.

(** [[a-z0-9]] and [[-a-z0-9]] under [(?i)] *)
Definition an : regex := fold_cls (fun a => is_lower a || is_digit a).
Definition anh : regex := fold_cls (fun a => Ascii.eqb a "-" || is_lower a || is_digit a).

(** [([a-z0-9][-a-z0-9]*\.)+[a-z0-9][-a-z0-9]*] *)
Definition host : regex :=
  seqs [plus (Group 1 (seqs [an; Star anh; chr "."])); an; Star anh].

Definition websiteRegex : pattern :=
  {| text := "(?i)www\.([a-z0-9][-a-z0-9]*\.)+[a-z0-9][-a-z0-9]*";
     MustCompile := seqs [ci "www"; chr "."; host] |}.

Definition emailRegex : pattern :=
  {| text := "(?i)@([a-z0-9][-a-z0-9]*\.)+[a-z0-9][-a-z0-9]*";
     MustCompile := seqs [chr "@"; host] |}.

Definition domainRegex : pattern :=
  {| text := "(?i)https?://([a-z0-9][-a-z0-9]*\.)+[a-z0-9][-a-z0-9]*";
     MustCompile := seqs [ci "http"; opt (ci "s"); lit "://"; host] |}.

Definition street_words : list gostring :=
  ["street" : gostring; "st" : gostring; "avenue" : gostring; "ave" : gostring;
   "road" : gostring; "rd" : gostring; "boulevard" : gostring; "blvd" : gostring;
   "lane" : gostring; "ln" : gostring; "drive" : gostring; "dr" : gostring;
   "way" : gostring; "place" : gostring; "pl" : gostring; "court" : gostring;
   "ct" : gostring].

Definition addressRegex : pattern :=
  {| text := "(?i)(\d+\s+[a-z0-9\s,]+(?:street|st|avenue|ave|road|rd|boulevard|blvd|lane|ln|drive|dr|way|place|pl|court|ct))";
     MustCompile :=
       Group 1 (seqs [plus dg; plus ws;
                      plus (fold_cls (fun a => is_lower a || is_digit a || is_space a
                                               || Ascii.eqb a ","));
                      alts (map ci street_words)]) |}.

(** [([a-z])([A-Z])] *)
Definition camel : pattern :=
  {| text := "([a-z])([A-Z])";
     MustCompile := seqs [Group 1 (Cls is_lower); Group 2 (Cls is_upper)] |}.

End VendorPatterns.

(** [ReplaceAllString] of a pattern that is the complement of a set of
    ASCII characters, [[^...]]: every rune outside the set, whatever
    its width, is replaced by [repl]. *)
Fixpoint replace_outside_fuel (fuel : nat) (keep : ascii -> bool) (repl s : gostring) : gostring :=
  match fuel with
  | O => []
  | S f =>
    match s with
    | [] => []
    | a :: t =>
      if keep a then a :: replace_outside_fuel f keep repl t
      else repl ++ replace_outside_fuel f keep repl (skipn (rune_len s) s)
    end
  end.

Definition ReplaceAllOutside (keep : ascii -> bool) (s repl : gostring) : gostring :=
  replace_outside_fuel (length s) keep repl s.

(** [ReplaceAllString] with a replacement computed from the groups. *)
Fixpoint replace_matches_fuel (fuel : nat) (r : regex) (repl : list gostring -> gostring)
    (s : gostring) : gostring :=
  match fuel with
  | O => s
  | S f =>
    match find_from r s with
    | Some (a :: w, rest, c) =>
      firstn (length s - length (a :: w) - length rest) s
      ++ repl (submatches r (a :: w) c) ++ replace_matches_fuel f r repl rest
    | _ => s
    end
  end.

Definition ReplaceAllString (r : regex) (s : gostring) (repl : list gostring -> gostring)
    : gostring :=
  replace_matches_fuel (length s) r repl s.

(** [cleanTextForComparison] *)
Definition cleanTextForComparison (text : gostring) : gostring :=
  let text := ToLower text in
  let suffixes : list gostring :=
    [" inc" : gostring; " llc" : gostring; " ltd" : gostring; " limited" : gostring;
     " corp" : gostring; " corporation" : gostring; " co" : gostring;
     " company" : gostring] in
  let text := fold_left TrimSuffix suffixes text in
  ReplaceAllOutside (fun a => is_lower a || is_digit a) text "".

(** The loop of [convertDomainToReadableName] that removes the first
    prefix found. *)
Fixpoint strip_first_prefix (prefixes : list gostring) (domain : gostring) : gostring :=
  match prefixes with
  | [] => domain
  | prefix :: rest =>
    if HasPrefix domain prefix then TrimPrefix domain prefix
    else strip_first_prefix rest domain
  end.

Definition capitalize (word : gostring) : gostring :=
  if 0 <? len word
  then ToUpper (slice_to word 1) ++ ToLower (slice_from word 1)
  else word.

(** [convertDomainToReadableName] *)
Definition convertDomainToReadableName (domain : gostring) : gostring :=
  let prefixes : list gostring :=
    ["www" : gostring; "mail" : gostring; "info" : gostring; "support" : gostring;
     "contact" : gostring; "sales" : gostring] in
  let domain := strip_first_prefix prefixes domain in
  let domain := ReplaceAllOutside is_alnum domain " " in
  let domain :=
    ReplaceAllString (MustCompile VendorPatterns.camel) domain
      (fun m => nth 1 m [] ++ " " ++ nth 2 m []) in
  let domain := TrimSpace domain in
  let words := Fields domain in
  let words := map capitalize words in
  Join words " ".

(** What the first loop of [extractVendorNameFromPosition] collects. *)
Record vendor_scan : Type := {
  topLines : list TextLine;
  topLeftLines : list TextLine;
  websiteDomains : list gostring;
  emailDomains : list gostring;
  domainMainParts : list gostring
}.

(** [parts[0]] of [strings.Split(domain, ".")], appended to the main parts. *)
Definition add_main_part (domain : gostring) (mainParts : list gostring) : list gostring :=
  match Split domain "." with
  | part0 :: _ => mainParts ++ [part0]
  | [] => mainParts
  end.

Definition scan_website (st : vendor_scan) (m : list gostring) : vendor_scan :=
  if (0 <? length m)%nat then
    let domain := TrimPrefix (nth 0 m []) "www." in
    {| topLines := topLines st; topLeftLines := topLeftLines st;
       websiteDomains := websiteDomains st ++ [domain];
       emailDomains := emailDomains st;
       domainMainParts := add_main_part domain (domainMainParts st) |}
  else st.

Definition scan_email (st : vendor_scan) (m : list gostring) : vendor_scan :=
  if (1 <? length m)%nat then
    {| topLines := topLines st; topLeftLines := topLeftLines st;
       websiteDomains := websiteDomains st;
       emailDomains := emailDomains st ++ [nth 1 m []];
       domainMainParts := add_main_part (nth 1 m []) (domainMainParts st) |}
  else st.

Definition scan_url (st : vendor_scan) (m : list gostring) : vendor_scan :=
  if (1 <? length m)%nat then
    {| topLines := topLines st; topLeftLines := topLeftLines st;
       websiteDomains := websiteDomains st ++ [nth 1 m []];
       emailDomains := emailDomains st;
       domainMainParts := add_main_part (nth 1 m []) (domainMainParts st) |}
  else st.

Definition scan_zone (topThreshold leftHalfThreshold : Z) (st : vendor_scan) (line : TextLine)
    : vendor_scan :=
  if Y line <? topThreshold then
    {| topLines := topLines st ++ [line];
       topLeftLines :=
         if X line <? leftHalfThreshold then topLeftLines st ++ [line] else topLeftLines st;
       websiteDomains := websiteDomains st;
       emailDomains := emailDomains st;
       domainMainParts := domainMainParts st |}
  else st.

Definition scan_line (topThreshold leftHalfThreshold : Z) (st : vendor_scan) (line : TextLine)
    : vendor_scan :=
  let st := fold_left scan_website
              (FindAllStringSubmatch (MustCompile VendorPatterns.websiteRegex) (Text line)) st in
  let st := fold_left scan_email
              (FindAllStringSubmatch (MustCompile VendorPatterns.emailRegex) (Text line)) st in
  let st := fold_left scan_url
              (FindAllStringSubmatch (MustCompile VendorPatterns.domainRegex) (Text line)) st in
  scan_zone topThreshold leftHalfThreshold st line.

Definition by_Y (a b : TextLine) : bool := Y a <? Y b.
Definition longer_first (a b : gostring) : bool := len a >? len b.

(** The first three lines of the top left area whose trimmed text has
    more than two bytes. *)
Definition logo_candidates (topLeftLines : list TextLine) : list gostring :=
  filter (fun text => 2 <? len text)
         (map (fun line => TrimSpace (Text line)) (firstn 3 topLeftLines)).

(** Strategy 1, inner and outer loop. *)
Fixpoint match_logo (cleanDomainPart : gostring) (logoTextCandidates : list gostring)
    : option gostring :=
  match logoTextCandidates with
  | [] => None
  | logoText :: rest =>
    let cleanLogoText := cleanTextForComparison logoText in
    if Contains cleanLogoText cleanDomainPart then Some logoText
    else if Contains cleanDomainPart cleanLogoText && (3 <? len logoText) then Some logoText
    else match_logo cleanDomainPart rest
  end.

Fixpoint match_domains (domainMainParts logoTextCandidates : list gostring) : option gostring :=
  match domainMainParts with
  | [] => None
  | domainPart :: rest =>
    match match_logo (cleanTextForComparison domainPart) logoTextCandidates with
    | Some logoText => Some logoText
    | None => match_domains rest logoTextCandidates
    end
  end.

(** Strategy 2: the line before the first line, other than the first,
    whose text is the address line. *)
Fixpoint line_before (addressLine : gostring) (previous : TextLine) (lines : list TextLine)
    : option TextLine :=
  match lines with
  | [] => None
  | line :: rest =>
    if streq (Text line) addressLine then Some previous
    else line_before addressLine line rest
  end.

Definition company_above_address (domainMainParts : list gostring) (above : TextLine)
    : option gostring :=
  let potentialCompanyName := TrimSpace (Text above) in
  let cleanCompanyName := cleanTextForComparison potentialCompanyName in
  if existsb (fun domainPart =>
                let cleanDomainPart := cleanTextForComparison domainPart in
                Contains cleanCompanyName cleanDomainPart ||
                Contains cleanDomainPart cleanCompanyName) domainMainParts
  then Some potentialCompanyName
  else if (3 <? len potentialCompanyName) &&
          negb (Contains (ToLower potentialCompanyName) "invoice") &&
          negb (Contains (ToLower potentialCompanyName) "bill")
  then Some potentialCompanyName
  else None.

Definition is_header_word (lowerText : gostring) : bool :=
  Contains lowerText "invoice" || Contains lowerText "bill" ||
  Contains lowerText "receipt" || Contains lowerText "statement".

(** The keys of [uniqueDomains]. *)
Definition unique (domains : list gostring) : list gostring :=
  fold_left (fun keys d => if existsb (streq d) keys then keys else keys ++ [d]) domains [].

Definition domain_name (domain : gostring) : list gostring :=
  match Split domain "." with
  | mainPart :: _ => [convertDomainToReadableName mainPart]
  | [] => []
  end.

(** [extractVendorNameFromPosition], the revision with the domain and
    address heuristics. [sched] is the order of the [range] over
    [uniqueDomains]. *)
Definition extractVendorNameFromPosition (sched : schedule) (textLines : list TextLine)
    : gostring :=
  if (length textLines =? 0)%nat then UNKNOWN
  else
    let maxY := max_of Y textLines in
    let maxX := max_of X textLines in
    let topThreshold := Z.quot (wrap64 (maxY * 3)) 10 in
    let leftHalfThreshold := Z.quot maxX 2 in
    let st :=
      fold_left (scan_line topThreshold leftHalfThreshold) textLines
        {| topLines := []; topLeftLines := []; websiteDomains := [];
           emailDomains := []; domainMainParts := [] |} in
    let topLeftLines := GoSort.Slice by_Y (topLeftLines st) in
    let topLines := GoSort.Slice by_Y (topLines st) in
    let websiteDomains := websiteDomains st in
    let emailDomains := emailDomains st in
    let domainMainParts := domainMainParts st in
    let logoTextCandidates := logo_candidates topLeftLines in
    let addressLines :=
      map Text (filter (fun line => MatchString (MustCompile VendorPatterns.addressRegex) (Text line))
                       topLeftLines) in
    let strategy1 :=
      if (0 <? length domainMainParts)%nat && (0 <? length logoTextCandidates)%nat
      then match_domains domainMainParts logoTextCandidates
      else None in
    match strategy1 with
    | Some logoText => logoText
    | None =>
    let strategy2 :=
      if (0 <? length addressLines)%nat && (1 <? length topLeftLines)%nat then
        match addressLines, topLeftLines with
        | addressLine :: _, first :: rest =>
          match line_before addressLine first rest with
          | Some above => company_above_address domainMainParts above
          | None => None
          end
        | _, _ => None
        end
      else None in
    match strategy2 with
    | Some potentialCompanyName => potentialCompanyName
    | None =>
    match find (fun logoText => negb (is_header_word (ToLower logoText))) logoTextCandidates with
    | Some logoText => logoText
    | None =>
    let strategy4 :=
      if (0 <? length websiteDomains)%nat || (0 <? length emailDomains)%nat then
        let allDomains := websiteDomains ++ emailDomains in
        let uniqueDomains := unique allDomains in
        let domainBasedNames := flat_map domain_name (range_order sched uniqueDomains) in
        match GoSort.Slice longer_first domainBasedNames with
        | name :: _ => Some name
        | [] => None
        end
      else None in
    match strategy4 with
    | Some name => name
    | None =>
    let potentialVendorNames :=
      filter (fun text =>
                let lowerText := ToLower text in
                (3 <? len text) && negb (is_header_word lowerText) &&
                negb (Contains lowerText "account") && negb (Contains lowerText "date") &&
                negb (Contains lowerText "number"))
             (map (fun line => TrimSpace (Text line)) topLeftLines) in
    match GoSort.Slice longer_first potentialVendorNames with
    | longest :: others =>
      match find (fun name => (1 <? length (Fields name))%nat) (longest :: others) with
      | Some name => name
      | None => longest
      end
    | [] =>
      match find (fun line => 3 <? len (TrimSpace (Text line))) topLines with
      | Some line => TrimSpace (Text line)
      | None => UNKNOWN
      end
    end end end end end.

(** ** Line normaliser *)

(** The part of [computervision.OcrResult] the program reads. The
    pointers to slices and to the text of a word are taken to be set; the
    bounding box of a line may be [nil]. *)
Record OcrWord : Type := { WordText : gostring }.
Record OcrLine : Type := { BoundingBox : option gostring; Words : list OcrWord }.
Record OcrRegion : Type := { Lines : list OcrLine }.
Record OcrResult : Type := { Regions : list OcrRegion }.

(** "Parse the bounding box": one integer per comma-separated part, the
    error of [Atoi] dropped. *)
Definition parse_bounding_box (line : OcrLine) : list Z :=
  match BoundingBox line with
  | Some boundingBoxStr => map (fun part => fst (Atoi part)) (Split boundingBoxStr ",")
  | None => []
  end.

Definition line_text (line : OcrLine) : gostring :=
  fold_left (fun lineText word => lineText ++ WordText word ++ " ") (Words line) [].

Definition normalize_line (line : OcrLine) : list TextLine :=
  let boundingBox := parse_bounding_box line in
  if (4 <=? length boundingBox)%nat then
    [{| Text := TrimSpace (line_text line);
        X := nth 0 boundingBox 0;
        Y := nth 1 boundingBox 0;
        Width := nth 2 boundingBox 0;
        Height := nth 3 boundingBox 0 |}]
  else [].

(** [extractTextFromOCRResult] *)
Definition extractTextFromOCRResult (result : OcrResult) : list TextLine :=
  flat_map (fun region => flat_map normalize_line (Lines region)) (Regions result).

(** ** Field aggregator *)

(** The choices of the Go runtime in one run of the engine: the orders
    of the two [range] loops over maps. *)
Record runtime : Type := {
  currency_range : schedule;
  domain_range : schedule
}.

(** [parseInvoiceTextWithPosition] *)
Definition parseInvoiceTextWithPosition (rt : runtime) (textLines : list TextLine) : Invoice :=
  let textLines := GoSort.Slice by_Y textLines in
  let vendorName := extractVendorNameFromPosition (domain_range rt) textLines in
  let invoiceNumber := extractInvoiceNumberFromPosition textLines in
  let date := extractDateFromPosition textLines in
  let '(totalAmount, currency) := extractAmountFromPosition (currency_range rt) textLines in
  {| InvoiceNumber := invoiceNumber;
     Date := date;
     TotalAmount := totalAmount;
     Currency := currency;
     VendorName := vendorName |}.

(** ** Declarative side of the regular expressions *)

(** The language of a pattern. *)
Inductive Lang : regex -> gostring -> Prop :=
| Lang_Eps : Lang Eps []
| Lang_Cls p a : p a = true -> Lang (Cls p) [a]
| Lang_Seq r1 r2 u v : Lang r1 u -> Lang r2 v -> Lang (Seq r1 r2) (u ++ v)
| Lang_AltL r1 r2 u : Lang r1 u -> Lang (Alt r1 r2) u
| Lang_AltR r1 r2 u : Lang r2 u -> Lang (Alt r1 r2) u
| Lang_Star0 r : Lang (Star r) []
| Lang_StarS r u v : Lang r u -> Lang (Star r) v -> Lang (Star r) (u ++ v)
| Lang_Group n r u : Lang r u -> Lang (Group n r) u.

(** [G n txt]: a property of what group [n] may capture. A pattern
    respects [G] when the language of each of its groups does. *)
Fixpoint groups_sat (G : nat -> gostring -> Prop) (r : regex) : Prop :=
  match r with
  | Eps | Cls _ => True
  | Seq r1 r2 | Alt r1 r2 => groups_sat G r1 /\ groups_sat G r2
  | Star r1 => groups_sat G r1
  | Group n r1 => (forall txt, Lang r1 txt -> G n txt) /\ groups_sat G r1
  end.

Definition caps_ok (G : nat -> gostring -> Prop) (c : caps) : Prop :=
  forall n txt, In (n, txt) c -> G n txt.

(** The bytes a pattern can consume. *)
Fixpoint alphabet (r : regex) (a : ascii) : bool :=
  match r with
  | Eps => false
  | Cls p => p a
  | Seq r1 r2 | Alt r1 r2 => alphabet r1 a || alphabet r2 a
  | Star r1 | Group _ r1 => alphabet r1 a
  end.

(** The bytes group [n] of a pattern can capture. *)
Fixpoint group_alphabet (n : nat) (r : regex) (a : ascii) : bool :=
  match r with
  | Eps | Cls _ => false
  | Seq r1 r2 | Alt r1 r2 => group_alphabet n r1 a || group_alphabet n r2 a
  | Star r1 => group_alphabet n r1 a
  | Group m r1 => (Nat.eqb n m && alphabet r1 a) || group_alphabet n r1 a
  end.

(** Whether a pattern has a group. *)
Fixpoint has_group (r : regex) : bool :=
  match r with
  | Eps | Cls _ => false
  | Seq r1 r2 | Alt r1 r2 => has_group r1 || has_group r2
  | Star r1 => has_group r1
  | Group _ _ => true
  end.

Definition all_bytes : list ascii := map (fun n => ascii_of_nat n) (seq 0 256).

(** [check_bytes p]: [p] holds of every byte. *)
Definition check_bytes (p : ascii -> bool) : bool := forallb p all_bytes.

(** ** Declarative side of the currency count *)

Definition b2z (b : bool) : Z := if b then 1 else 0.

(** What one line adds to the count of each currency: 1 for the dollar
    sign and 1 for the word, 2 for the euro sign and 2 for the word, 1
    for the pound sign and 1 for the word. *)
Definition usd_weight (line : TextLine) : Z :=
  b2z (Contains (Text line) "$")
  + b2z (Contains (ToLower (Text line)) "usd" || Contains (ToLower (Text line)) "dollar").

Definition eur_weight (line : TextLine) : Z :=
  2 * b2z (Contains (Text line) "€")
  + 2 * b2z (Contains (ToLower (Text line)) "eur" || Contains (ToLower (Text line)) "euro").

Definition gbp_weight (line : TextLine) : Z :=
  b2z (Contains (Text line) "£")
  + b2z (Contains (ToLower (Text line)) "gbp" || Contains (ToLower (Text line)) "pound").

Definition tally (weight : TextLine -> Z) (textLines : list TextLine) : Z :=
  fold_right (fun line n => weight line + n) 0 textLines.

(** The weighted count of a currency in a document. *)
Definition weighted_count (currency : gostring) (textLines : list TextLine) : Z :=
  if streq currency USD then tally usd_weight textLines
  else if streq currency EUR then tally eur_weight textLines
  else if streq currency GBP then tally gbp_weight textLines
  else 0.

(** ** Declarative side of the amount tiers *)

(** The bytes of an amount, [\d{1,3}(?:[.,]\d{3})*[.,]\d{2}]. *)
Definition amount_char (a : ascii) : bool := is_digit a || one_of ".," a.

(** The group of a pattern of [patterns] that holds the amount. *)
Definition amount_group (p : pattern) : nat :=
  if Contains (text p) currency_after_amount then 1%nat else 2%nat.

(** A candidate: a parsed amount with the currency inferred for it. *)
Definition candidate : Type := (Q * gostring)%type.

Section Candidates.
Context (patterns patternsNoCurrency : list pattern) (anywhere : pattern).

(** A pattern with a captured currency on a line: its candidate, if it
    matches and the amount parses, and the running currency after it. *)
Definition tagged_candidate (p : pattern) (text currency : gostring)
    : list candidate * gostring :=
  match FindStringSubmatch (MustCompile p) text with
  | [] => ([], currency)
  | matches =>
    let currency := map_currency (snd (tagged_groups p matches)) currency in
    match parseAmount (fst (tagged_groups p matches)) with
    | Some amount => ([(amount, currency)], currency)
    | None => ([], currency)
    end
  end.

Fixpoint tagged_candidates (pats : list pattern) (text currency : gostring)
    : list candidate * gostring :=
  match pats with
  | [] => ([], currency)
  | p :: rest =>
    let first := tagged_candidate p text currency in
    let others := tagged_candidates rest text (snd first) in
    (fst first ++ fst others, snd others)
  end.

(** A pattern without a captured currency on a line. *)
Definition untagged_candidate (text currency : gostring) (p : pattern) : list candidate :=
  match FindStringSubmatch (MustCompile p) text with
  | [] => []
  | matches =>
    match parseAmount (nth 1 matches []) with
    | Some amount => [(amount, line_currency text currency)]
    | None => []
    end
  end.

(** The candidates of a line, in the order the patterns are tried. *)
Definition line_candidates (text currency : gostring) : list candidate * gostring :=
  let tagged := tagged_candidates patterns text currency in
  (fst tagged ++ flat_map (untagged_candidate text (snd tagged)) patternsNoCurrency,
   snd tagged).

(** The candidates of the lines of a tier, top to bottom. *)
Fixpoint tier_candidates (in_tier : TextLine -> bool) (textLines : list TextLine)
    (currency : gostring) : list candidate * gostring :=
  match textLines with
  | [] => ([], currency)
  | line :: rest =>
    if in_tier line then
      let first := line_candidates (Text line) currency in
      let others := tier_candidates in_tier rest (snd first) in
      (fst first ++ fst others, snd others)
    else tier_candidates in_tier rest currency
  end.

End Candidates.

(** The bottom 30% of the page. *)
Definition in_bottom_zone (textLines : list TextLine) (line : TextLine) : bool :=
  Y line >? Z.quot (wrap64 (max_of Y textLines * 7)) 10.

(** A match of the whole-document pattern: the currency comes from the
    symbol after the amount, else from the symbol before it, else from
    the line, else it is the running currency. *)
Definition anywhere_candidate (text currency : gostring) (m : list gostring) : list candidate :=
  let symbol := if streq (nth 3 m []) "" then nth 1 m [] else nth 3 m [] in
  match parseAmount (nth 2 m []) with
  | Some amount =>
    [(amount, if streq symbol "" then line_currency text currency
              else map_currency symbol currency)]
  | None => []
  end.

Definition anywhere_candidates (anywhere : pattern) (textLines : list TextLine)
    (currency : gostring) : list candidate :=
  flat_map (fun line =>
              flat_map (anywhere_candidate (Text line) currency)
                       (FindAllStringSubmatch (MustCompile anywhere) (Text line)))
           textLines.

(** The group [group p] of every pattern [p] of a table captures
    nothing but the bytes of an amount. *)
Definition captures_amounts (group : pattern -> nat) (pats : list pattern) : bool :=
  forallb (fun p =>
             check_bytes (fun a => implb (group_alphabet (group p) (MustCompile p) a)
                                         (amount_char a)))
          pats.

(** Tables of patterns with two groups, and with one. *)
Definition two_groups (pats : list pattern) : Prop :=
  Forall (fun p => num_groups (MustCompile p) = 2%nat) pats.

Definition one_group (pats : list pattern) : Prop :=
  Forall (fun p => num_groups (MustCompile p) = 1%nat) pats.

(** The update of the largest candidate seen so far. *)
Definition keep_largest (st c : candidate) : candidate :=
  if Qgtb (fst c) (fst st) then c else st.

Definition largest_from (m0 : Q) (l : list candidate) : Q :=
  fold_left (fun m c => if Qgtb (fst c) m then fst c else m) l m0.

(** The largest amount of a list of candidates, 0 for none. *)
Definition largest (l : list candidate) : Q := largest_from 0 l.

(** The first candidate with the largest amount, if that is positive. *)
Definition first_largest (l : list candidate) : option candidate :=
  if Qgtb (largest l) 0 then find (fun c => Qeq_bool (fst c) (largest l)) l else None.

(** No pattern of the amount resolver matches any line. *)
Definition no_amount_match (textLines : list TextLine) : bool :=
  forallb (fun line =>
             forallb (fun p => negb (MatchString (MustCompile p) (Text line)))
                     (patterns ++ patternsNoCurrency ++ [anywhere]))
          textLines.

(** The result the tiers prescribe. *)
Definition amount_by_tiers (sched : schedule) (textLines : list TextLine) : candidate :=
  let documentCurrency := detectDocumentCurrency sched textLines in
  let keyword :=
    tier_candidates patterns patternsNoCurrency has_amount_keyword textLines documentCurrency in
  match fst keyword with
  | first :: _ => first
  | [] =>
    let zone :=
      tier_candidates patterns patternsNoCurrency (in_bottom_zone textLines) textLines
        (snd keyword) in
    match first_largest (fst zone) with
    | Some c => c
    | None =>
      match first_largest (anywhere_candidates anywhere textLines (snd zone)) with
      | Some c => c
      | None => (0%Q, snd zone)
      end
    end
  end.

(** ** Declarative side of the invoice numbers *)

(** The characters of [[A-Za-z0-9-]]. *)
Definition invoice_char (a : ascii) : bool := is_alnum a || Ascii.eqb a "-".




(** The trimmed captures of the patterns that match a line, in the
    order of the patterns. *)
Definition trimmed_captures (pats : list pattern) (text : gostring) : list gostring :=
  flat_map (fun p =>
              match FindStringSubmatch (MustCompile p) text with
              | [] => []
              | matches => [TrimSpace (nth 1 matches [])]
              end)
           pats.

(** ** Declarative side of the line normaliser *)

(** Part [i] of a bounding box. *)
Definition box_part (i : nat) (box : gostring) : gostring := nth i (Split box ",") [].

(** The line the normaliser makes of an OCR line whose bounding box has
    at least four parts. *)
Definition materialized (line : OcrLine) (box : gostring) : TextLine :=
  {| Text := TrimSpace (line_text line);
     X := fst (Atoi (box_part 0 box));
     Y := fst (Atoi (box_part 1 box));
     Width := fst (Atoi (box_part 2 box));
     Height := fst (Atoi (box_part 3 box)) |}.

(** ** Documents used in the statements *)

(** A line with a text and a position; the size of its box plays no
    part in the resolvers. *)
Definition line_at (text : gostring) (x y : Z) : TextLine :=
  {| Text := text; X := x; Y := y; Width := 0; Height := 0 |}.

(** The four-line invoice of the end-to-end scenario. *)
Definition scenario : list TextLine :=
  [line_at "INVOICE #4521" 600 50;
   line_at "Acme Corp" 50 40;
   line_at "www.acmecorp.com" 50 600;
   line_at "Total: €1.234,50" 50 900].

(** A line that names two currencies once each. *)
Definition dollar_and_pound : list TextLine := [line_at "$ £" 0 0].

(** A line on which the euro, named once, and the dollar, named twice,
    both count 2. *)
Definition euro_and_dollars : list TextLine := [line_at "$ € usd" 0 0].

(** A line with the web sites of two companies. *)
Definition two_sites : list TextLine := [line_at "www.abc.com www.xyz.com" 0 0].

(** A zero amount at the bottom of the page and a larger one above it. *)
Definition zero_at_bottom : list TextLine :=
  [line_at "55.00" 0 10; line_at "$0.00" 0 100].


(** Lines whose invoice number is a single letter: a long s, a Kelvin
    sign. *)
Definition one_long_s : list TextLine := [line_at ("inv " ++ long_s) 0 0].
Definition one_kelvin : list TextLine := [line_at ("inv " ++ kelvin) 0 0].

(** An OCR line whose bounding box holds no number at all. *)
Definition letters_box : OcrLine :=
  {| BoundingBox := Some ("a,b,c,d" : gostring); Words := [] |}.

(** The runtime that visits the keys of a map in the order given, one
    that starts the visit of the currency counts with the third key, and
    one that starts the visit of the domains with the second key. *)
Definition in_order : runtime := {| currency_range := []; domain_range := [] |}.
Definition third_first : runtime := {| currency_range := [2%nat]; domain_range := [] |}.
Definition second_first : runtime := {| currency_range := []; domain_range := [1%nat] |}.

(** ** Analyses of the patterns, pieces of a text *)

(** Whether a pattern can match the empty string. *)
Fixpoint nullable (r : regex) : bool :=
  match r with
  | Eps => true
  | Cls _ => false
  | Seq r1 r2 => nullable r1 && nullable r2
  | Alt r1 r2 => nullable r1 || nullable r2
  | Star _ => true
  | Group _ r1 => nullable r1
  end.

(** Whether every match of a pattern is empty or ends with a byte of [p]. *)
Fixpoint ends_in (p : ascii -> bool) (r : regex) : bool :=
  match r with
  | Eps => true
  | Cls q => check_bytes (fun a => implb (q a) (p a))
  | Seq r1 r2 => ends_in p r2 && (negb (nullable r2) || ends_in p r1)
  | Alt r1 r2 => ends_in p r1 && ends_in p r2
  | Star r1 | Group _ r1 => ends_in p r1
  end.

(** The loop of [run] on a repetition, with its fuel as an argument. *)
Definition star_loop {A : Type} (r1 : regex) (k : gostring -> caps -> option A)
    : nat -> gostring -> caps -> option A :=
  fix loop (fuel : nat) (s : gostring) (c : caps) {struct fuel} : option A :=
    match fuel with
    | O => k s c
    | S f =>
      match run r1 s c (fun s1 c1 =>
              if (length s1 <? length s)%nat then loop f s1 c1 else None) with
      | Some x => Some x
      | None => k s c
      end
    end.

(** [u] is a piece of [s]. *)
Definition occurs_in (u s : gostring) : Prop := exists pre post, s = pre ++ u ++ post.

(** A date found on a line of a list. *)
Definition date_of (textLines : list TextLine) (m : gostring) : Prop :=
  m <> [] /\
  exists line p,
    In line textLines /\ In p DatePatterns.patterns /\
    occurs_in m (Text line) /\ Lang (MustCompile p) m.

(** Whether every match of a pattern sets group [n]. *)
Fixpoint binds (n : nat) (r : regex) : bool :=
  match r with
  | Eps | Cls _ | Star _ => false
  | Seq r1 r2 => binds n r1 || binds n r2
  | Alt r1 r2 => binds n r1 && binds n r2
  | Group m r1 => Nat.eqb n m || binds n r1
  end.

(** ** Currency codes: the invariants of the amount loops *)

(** One of the three currency codes. *)
Definition is_code (c : gostring) : Prop := In c [USD; EUR; GBP].

Definition flow_code (f : flow gostring (Q * gostring)) : Prop :=
  match f with
  | Return r => is_code (snd r)
  | Next currency => is_code currency
  end.

(** The invariant of the second tier: the running currency is a code,
    and so is the currency of the largest amount once there is one. *)
Definition zone_code (st : zone_state) : Prop :=
  let '(largestAmount, largestAmountCurrency, currency) := st in
  is_code currency /\ (Qgtb largestAmount 0 = true -> is_code largestAmountCurrency).

Definition largest_code (st : Q * gostring) : Prop :=
  Qgtb (fst st) 0 = true -> is_code (snd st).

(** ** The extractors that read the text without positions

    [parseInvoiceText] of [main.go] lowers the text and hands it to
    four extractors, which read the text or its lines. *)
(** [strings.Replace(s, old, new, n)] for a non-empty [old]: the first
    [n] instances, all of them when [n] is negative. *)
Fixpoint replace_first_fuel (fuel n : nat) (s old new : gostring) : gostring :=
  match fuel, n with
  | S f, S n' =>
    match s with
    | [] => []
    | a :: t =>
      if HasPrefix s old
      then new ++ replace_first_fuel f n' (skipn (length old) s) old new
      else a :: replace_first_fuel f n t old new
    end
  | _, _ => s
  end.

Definition Replace (s old new : gostring) (n : Z) : gostring :=
  if n <? 0 then ReplaceAll s old new
  else replace_first_fuel (length s) (Z.to_nat n) s old new.

Module TextPatterns.

(** [([A-Za-z0-9-]+)] *)
Definition token : regex := Group 1 (plus (Cls invoice_char)).

Definition invoicePatterns : list pattern := [
  {| text := "inv[oice]*[-#]?\s*([A-Za-z0-9-]+)";
     MustCompile :=
       seqs [lit "inv"; Star (Cls (one_of "oice")); opt (Cls (one_of "-#")); Star ws; token] |};
  {| text := "invoice\s*number[-#:]?\s*([A-Za-z0-9-]+)";
     MustCompile :=
       seqs [lit "invoice"; Star ws; lit "number"; opt (Cls (one_of "-#:")); Star ws; token] |};
  {| text := "#\s*([A-Za-z0-9-]+)";
     MustCompile := seqs [chr "#"; Star ws; token] |}
].

(** [[-/]] *)
Definition dsep : regex := Cls (one_of "-/").

Definition datePatterns : list pattern := [
  {| text := "\d{2}[-/]\d{2}[-/]\d{4}";
     MustCompile := seqs [times 2 dg; dsep; times 2 dg; dsep; times 4 dg] |};
  {| text := "\d{4}[-/]\d{2}[-/]\d{2}";
     MustCompile := seqs [times 4 dg; dsep; times 2 dg; dsep; times 2 dg] |};
  {| text := "(?i)(jan|feb|mar|apr|may|jun|jul|aug|sep|oct|nov|dec)[a-z]*\s+\d{1,2},?\s+\d{4}";
     MustCompile :=
       seqs [Group 1 (alts DatePatterns.short_months); Star (fold_cls is_lower); plus ws;
             rep 1 2 dg; opt (chr ","); plus ws; times 4 dg] |}
].

(** [(\d+[.,]\d{2})] *)
Definition decimal : regex := Group 1 (seqs [plus dg; sep; times 2 dg]).

(** [[\$€£]?\s*(\d+[.,]\d{2})] *)
Definition sum : regex := seqs [opt symbol; Star ws; decimal].

Definition amountPatterns : list pattern := [
  {| text := "total:?\s*[\$€£]?\s*(\d+[.,]\d{2})";
     MustCompile := seqs [lit "total"; opt colon; Star ws; sum] |};
  {| text := "amount\s*due:?\s*[\$€£]?\s*(\d+[.,]\d{2})";
     MustCompile := seqs [lit "amount"; Star ws; lit "due"; opt colon; Star ws; sum] |};
  {| text := "[\$€£]\s*(\d+[.,]\d{2})";
     MustCompile := seqs [symbol; Star ws; decimal] |}
].

End TextPatterns.

(** The loop of [extractInvoiceNumber] over its patterns. *)
Fixpoint first_submatch (pats : list pattern) (text : gostring) : option gostring :=
  match pats with
  | [] => None
  | p :: rest =>
    let matches := FindStringSubmatch (MustCompile p) (ToLower text) in
    if (1 <? length matches)%nat then Some (nth 1 matches [])
    else first_submatch rest text
  end.

(** [extractInvoiceNumber] *)
Definition extractInvoiceNumber (text : gostring) : gostring :=
  match first_submatch TextPatterns.invoicePatterns text with
  | Some number => number
  | None => UNKNOWN
  end.

(** [extractDate]; its loop over the patterns is that of [first_date]. *)
Definition extractDate (text : gostring) : gostring :=
  match first_date TextPatterns.datePatterns text with
  | Some m => m
  | None => UNKNOWN
  end.

(** The loop of [extractAmount] over its patterns. *)
Fixpoint first_amount (pats : list pattern) (text : gostring) : option Q :=
  match pats with
  | [] => None
  | p :: rest =>
    let matches := FindStringSubmatch (MustCompile p) (ToLower text) in
    if (1 <? length matches)%nat then
      let amount := Replace (nth 1 matches []) "," "." 1 in
      match ParseFloat amount with
      | Some val => Some val
      | None => first_amount rest text
      end
    else first_amount rest text
  end.

(** [extractAmount] *)
Definition extractAmount (text : gostring) : Q :=
  match first_amount TextPatterns.amountPatterns text with
  | Some val => val
  | None => 0%Q
  end.

(** The loop of [extractVendorName]; [i] is the index of the line. *)
Fixpoint vendor_lines (i : Z) (lines : list gostring) : option gostring :=
  match lines with
  | [] => None
  | line :: rest =>
    if (i <? 5) && (0 <? len line) then
      let line := TrimSpace line in
      if (3 <? len line) && negb (Contains (ToLower line) "invoice") then Some line
      else vendor_lines (i + 1) rest
    else vendor_lines (i + 1) rest
  end.

(** [extractVendorName] *)
Definition extractVendorName (lines : list gostring) : gostring :=
  match vendor_lines 0 lines with
  | Some line => line
  | None => UNKNOWN
  end.

(** A vendor name [extractVendorName] accepts: a trimmed line of more
    than three bytes without the word [invoice]. *)
Definition vendor_like (line : gostring) : bool :=
  (0 <? len line) && (3 <? len (TrimSpace line)) &&
  negb (Contains (ToLower (TrimSpace line)) "invoice").

(** The text of a decimal number with two decimals. *)
Definition two_decimals (txt : gostring) : Prop :=
  exists ds sp d1 d2,
    txt = ds ++ [sp; d1; d2] /\ ds <> [] /\
    Forall (fun a => is_digit a = true) ds /\
    (sp = "."%char \/ sp = ","%char) /\ is_digit d1 = true /\ is_digit d2 = true.

(** The value of a capture: the number that its digits write, counted
    in hundredths, as a float64; none when it is too large for one. *)
Definition hundredths (capture : gostring) : option Q :=
  binary64_of (digits_val 0 (filter is_digit capture)) 100.

(** A pattern that gives no amount on a text: it finds no match, or the
    value of its capture is too large. *)
Definition no_amount (p : pattern) (text : gostring) : Prop :=
  FindStringSubmatch (MustCompile p) (ToLower text) = [] \/
  hundredths (nth 1 (FindStringSubmatch (MustCompile p) (ToLower text)) []) = None.

(** ** The vendor name resolver of [main.go]

    The revision of [extractVendorNameFromPosition] in [main.go] looks
    at the lines of the top 30% of the page only. *)
Module TopLines.

(** "Skip lines that are likely to be headers or labels". *)
Definition is_name (text : gostring) : bool :=
  let lowerText := ToLower text in
  (3 <? len text) &&
  negb (Contains lowerText "invoice") && negb (Contains lowerText "bill") &&
  negb (Contains lowerText "receipt") && negb (Contains lowerText "statement") &&
  negb (Contains lowerText "account").

(** The body of the loop that keeps the longest line; the state is
    [(longestValidLine, longestLength)]. *)
Definition longest_step (st : gostring * Z) (line : TextLine) : gostring * Z :=
  let '(longestValidLine, longestLength) := st in
  let text := TrimSpace (Text line) in
  if is_name text then
    if len text >? longestLength then (text, len text) else st
  else st.

(** [extractVendorNameFromPosition] of [main.go] *)
Definition extractVendorNameFromPosition (textLines : list TextLine) : gostring :=
  if (length textLines =? 0)%nat then UNKNOWN
  else
    let maxY := max_of Y textLines in
    let topThreshold := Z.quot (wrap64 (maxY * 3)) 10 in
    let topLines := filter (fun line => Y line <? topThreshold) textLines in
    let topLines := GoSort.Slice by_Y topLines in
    let '(longestValidLine, longestLength) := fold_left longest_step topLines ([], 0) in
    if negb (streq longestValidLine "") then longestValidLine
    else
      match find (fun line => 3 <? len (TrimSpace (Text line))) topLines with
      | Some line => TrimSpace (Text line)
      | None => UNKNOWN
      end.

(** The lines of the top 30% of the page. *)
Definition in_top (textLines : list TextLine) (line : TextLine) : Prop :=
  In line textLines /\ Y line < Z.quot (wrap64 (max_of Y textLines * 3)) 10.

End TopLines.

(** The order of a [sort.Slice] by an integer key. *)
Definition by_key {A : Type} (key : A -> Z) (a b : A) : bool := key a <? key b.

(** ** The invoice number resolver that looks for the label "Number:"

    Another revision of [extractInvoiceNumberFromPosition] reads a run
    of five or more digits near the label, or else on a line that
    names an invoice or a delivery docket. Its calls of [log.Printf]
    play no part in the result and are left out. *)
Module NumberLabel.

(** [(\d{5,})] *)
Definition digits : pattern :=
  {| text := "(\d{5,})"; MustCompile := Group 1 (at_least 5 dg) |}.

Definition verticalTolerance : Z := 50.
Definition horizontalTolerance : Z := 300.

(** The loop over the lines near the label. *)
Fixpoint near_label (numberLine : TextLine) (textLines : list TextLine) : option gostring :=
  match textLines with
  | [] => None
  | line :: rest =>
    let verticalDiff := wrap64 (Y line - Y numberLine) in
    if (verticalDiff >=? - verticalTolerance) && (verticalDiff <=? verticalTolerance) then
      if (X line >=? X numberLine) && (X line <=? wrap64 (X numberLine + horizontalTolerance))
      then
        let matches := FindStringSubmatch (MustCompile digits) (Text line) in
        if (0 <? length matches)%nat then Some (nth 1 matches [])
        else near_label numberLine rest
      else near_label numberLine rest
    else near_label numberLine rest
  end.

(** The loop over the lines that name an invoice or a delivery docket. *)
Fixpoint docket_lines (textLines : list TextLine) : option gostring :=
  match textLines with
  | [] => None
  | line :: rest =>
    let text := ToLower (Text line) in
    if Contains text "invoice" || Contains text "delivery docket" then
      let matches := FindStringSubmatch (MustCompile digits) (Text line) in
      if (0 <? length matches)%nat then Some (nth 1 matches [])
      else docket_lines rest
    else docket_lines rest
  end.

Definition extractInvoiceNumberFromPosition (textLines : list TextLine) : gostring :=
  let numberLine := find (fun line => Contains (ToLower (Text line)) "number:") textLines in
  let near :=
    match numberLine with
    | Some numberLine => near_label numberLine textLines
    | None => None
    end in
  match near with
  | Some result => result
  | None =>
    match docket_lines textLines with
    | Some result => result
    | None => UNKNOWN
    end
  end.

End NumberLabel.

(** ** Document sections: lines that lie close together *)
(** A [map[int]bool]: its entries, with distinct keys. *)
Definition intmap : Type := list (Z * bool).

Fixpoint intmap_set (m : intmap) (key : Z) (v : bool) : intmap :=
  match m with
  | [] => [(key, v)]
  | (k, w) :: m' => if k =? key then (k, v) :: m' else (k, w) :: intmap_set m' key v
  end.

(** [sort.Ints]: the slice in increasing order. Equal integers cannot be
    told apart, so every sorting algorithm gives this result. *)
Definition sort_Ints (a : list Z) : list Z := GoSort.Slice Z.ltb a.

(** The loop of [consolidateLines] over [positions[1:]]. *)
Fixpoint consolidate_from (threshold : Z) (positions : list Z) (currentGroup : Z)
    (consolidated : intmap) : intmap :=
  match positions with
  | [] => consolidated
  | pos :: rest =>
    if wrap64 (pos - currentGroup) >? threshold
    then consolidate_from threshold rest pos (intmap_set consolidated pos true)
    else consolidate_from threshold rest currentGroup consolidated
  end.

(** [consolidateLines]; [sched] is the order of the [range] over [lines]. *)
Definition consolidateLines (sched : schedule) (lines : intmap) (threshold : Z) : intmap :=
  let consolidated : intmap := [] in
  let positions := map fst (range_order sched lines) in
  let positions := sort_Ints positions in
  match positions with
  | [] => consolidated
  | first :: rest =>
    let currentGroup := first in
    let consolidated := intmap_set consolidated currentGroup true in
    consolidate_from threshold rest currentGroup consolidated
  end.

(** A run of five digits or more on a line of the list. *)
Definition long_number (textLines : list TextLine) (r : gostring) : Prop :=
  5 <= len r /\ Forall (fun a => is_digit a = true) r /\
  exists line, In line textLines /\ occurs_in r (Text line).

(** The positions that open a group: those that lie more than
    [threshold] after the position that opened the group before. *)
Fixpoint leaders (threshold currentGroup : Z) (positions : list Z) : list Z :=
  match positions with
  | [] => []
  | pos :: rest =>
    if wrap64 (pos - currentGroup) >? threshold
    then pos :: leaders threshold pos rest
    else leaders threshold currentGroup rest
  end.

(** Positions of a page: far from the bounds of [int]. *)
Definition on_page (k : Z) : Prop := - 2 ^ 62 <= k < 2 ^ 62.

(** ** Predicates on texts *)

(** The bytes of [[a-z0-9]]. *)
Definition plain_char (a : ascii) : bool := is_lower a || is_digit a.

Definition digits_only (u : gostring) : Prop := Forall (fun a => is_digit a = true) u.

(** The text of an amount: it starts with a digit, it is made of digits,
    periods and commas, and it has a separator. *)
Definition amount_text (s : gostring) : Prop :=
  exists d0 rest,
    s = d0 :: rest /\ is_digit d0 = true /\
    Forall (fun a => amount_char a = true) rest /\
    (In "."%char s \/ In ","%char s).

(** A text without white space at either end. *)
Definition trimmed (s : gostring) : Prop :=
  forall w, In w space_runes -> HasPrefix s w = false /\ HasSuffix s w = false.

(** Within the 64-bit integers. *)
Definition is_int64 (z : Z) : Prop := min_int64 <= z <= max_int64.

(** A capitalised word: letters and digits, no lower-case letter in
    front and no upper-case letter after it. *)
Definition capitalized (w : gostring) : Prop :=
  exists a t,
    w = a :: t /\ is_alnum a = true /\ is_lower a = false /\
    Forall (fun b => is_alnum b = true /\ is_upper b = false) t.

(** A letter, a digit or a space. *)
Definition word_char (a : ascii) : bool := is_alnum a || Ascii.eqb a " ".

Definition plain_word (w : gostring) : Prop :=
  w <> [] /\ Forall (fun a => is_alnum a = true) w.

(** ** Where a field comes from *)

(** An amount read from a line: the value [parseAmount] gives to a piece
    of the text of the line that the amount pattern matches. *)
Definition amount_of_line (textLines : list TextLine) (q : Q) : Prop :=
  exists line s,
    In line textLines /\ occurs_in s (Text line) /\
    Lang AmountPatterns.amount s /\ parseAmount s = Some q.

(** A piece of the text of a line. *)
Definition text_of_line (textLines : list TextLine) (r : gostring) : Prop :=
  exists line, In line textLines /\ occurs_in r (Text line).

(** Group [n] of a pattern holds an amount. *)
Definition amount_in (n : nat) (r : regex) : Prop :=
  groups_sat (fun m txt => m = n -> Lang AmountPatterns.amount txt) r.

Definition flow_found (textLines : list TextLine) (f : flow gostring (Q * gostring)) : Prop :=
  match f with
  | Return r => amount_of_line textLines (fst r)
  | Next _ => True
  end.

(** The largest amount so far is 0 or an amount of a line. *)
Definition largest_found (textLines : list TextLine) (q : Q) : Prop :=
  q = 0%Q \/ amount_of_line textLines q.

(** * Proofs *)

(** ** Bytes and strings *)

Lemma all_bytes_complete (a : ascii) : In a all_bytes.
Proof.
  unfold all_bytes. rewrite <- (ascii_nat_embedding a).
  apply in_map, in_seq. pose proof (nat_ascii_bounded a). lia.
Qed.

Lemma check_bytes_spec (p : ascii -> bool) :
  check_bytes p = true -> forall a, p a = true.
Proof.
  unfold check_bytes. rewrite forallb_forall. intros H a. apply H, all_bytes_complete.
Qed.

(** ** Soundness of the matcher *)

Lemma consumed_app (u s : gostring) : consumed (u ++ s) s = u.
Proof.
  unfold consumed. rewrite length_app, Nat.add_sub.
  rewrite firstn_app, Nat.sub_diag, firstn_all. simpl. apply app_nil_r.
Qed.

Section Soundness.
Context {A : Type} (G : nat -> gostring -> Prop).

Lemma run_sound (r : regex) :
  groups_sat G r ->
  forall s c (k : gostring -> caps -> option A) x,
    caps_ok G c -> run r s c k = Some x ->
    exists u s' c', s = u ++ s' /\ Lang r u /\ caps_ok G c' /\ k s' c' = Some x.
Proof.
  induction r as [|p|r1 IH1 r2 IH2|r1 IH1 r2 IH2|r1 IH1|n r1 IH1];
    intros Hg s c k x Hc Hrun; simpl in Hrun.
  - exists [], s, c. repeat split; auto. constructor.
  - destruct s as [|a t]; [discriminate|].
    destruct (p a) eqn:Hp; [|discriminate].
    exists [a], t, c. repeat split; auto. now constructor.
  - destruct Hg as [Hg1 Hg2].
    destruct (IH1 Hg1 _ _ _ _ Hc Hrun) as (u1 & s1 & c1 & -> & HL1 & Hc1 & Hk1).
    destruct (IH2 Hg2 _ _ _ _ Hc1 Hk1) as (u2 & s2 & c2 & -> & HL2 & Hc2 & Hk2).
    exists (u1 ++ u2), s2, c2. rewrite <- app_assoc. repeat split; auto.
    now constructor.
  - destruct Hg as [Hg1 Hg2].
    destruct (run r1 s c k) eqn:H1.
    + injection Hrun as ->.
      destruct (IH1 Hg1 _ _ _ _ Hc H1) as (u & s' & c' & -> & HL & Hc' & Hk).
      exists u, s', c'. repeat split; auto. now apply Lang_AltL.
    + destruct (IH2 Hg2 _ _ _ _ Hc Hrun) as (u & s' & c' & -> & HL & Hc' & Hk).
      exists u, s', c'. repeat split; auto. now apply Lang_AltR.
  - simpl in Hg.
    remember (length s) as fuel eqn:Hfuel. clear Hfuel.
    revert s c Hc Hrun.
    induction fuel as [|f IHf]; intros s c Hc Hrun.
    + exists [], s, c. repeat split; auto. constructor.
    + match type of Hrun with
      | match ?scrut with _ => _ end = _ => destruct scrut eqn:H1
      end.
      * injection Hrun as ->.
        destruct (IH1 Hg _ _ _ _ Hc H1) as (u1 & s1 & c1 & -> & HL1 & Hc1 & Hk1).
        destruct (length s1 <? length (u1 ++ s1))%nat; [|discriminate].
        destruct (IHf _ _ Hc1 Hk1) as (u2 & s2 & c2 & -> & HL2 & Hc2 & Hk2).
        exists (u1 ++ u2), s2, c2. rewrite <- app_assoc. repeat split; auto.
        now constructor.
      * exists [], s, c. repeat split; auto. constructor.
  - destruct Hg as [Hn Hg1].
    destruct (IH1 Hg1 _ _ _ _ Hc Hrun) as (u & s' & c' & -> & HL & Hc' & Hk).
    rewrite consumed_app in Hk.
    exists u, s', ((n, u) :: c'). repeat split; auto.
    + now constructor.
    + intros m txt [[= <- <-]|Hin]; auto.
Qed.
End Soundness.

Lemma find_from_sound (G : nat -> gostring -> Prop) (r : regex) :
  groups_sat G r ->
  forall s whole rest c,
    find_from r s = Some (whole, rest, c) ->
    Lang r whole /\ caps_ok G c /\ exists pre, s = pre ++ whole ++ rest.
Proof.
  intros Hg s. induction s as [|a s IH]; intros whole rest c Hf; simpl in Hf.
  - destruct (match_at r []) as [[rest' c']|] eqn:Hm; [|discriminate].
    injection Hf as <- <- <-.
    unfold match_at in Hm.
    destruct (run_sound G r Hg _ _ _ _ (fun _ _ (H : In _ []) => match H with end) Hm)
      as (u & s' & c'' & Hs & HL & Hc & [= <- <-]).
    rewrite Hs, consumed_app. repeat split; auto. now exists [].
  - destruct (match_at r (a :: s)) as [[rest' c']|] eqn:Hm.
    + injection Hf as <- <- <-.
      unfold match_at in Hm.
      destruct (run_sound G r Hg _ _ _ _ (fun _ _ (H : In _ []) => match H with end) Hm)
        as (u & s' & c'' & Hs & HL & Hc & [= <- <-]).
      rewrite Hs, consumed_app. repeat split; auto. now exists [].
    + destruct (IH _ _ _ Hf) as (HL & Hc & pre & ->).
      repeat split; auto. now exists (a :: pre).
Qed.

Lemma lookup_ok (G : nat -> gostring -> Prop) (c : caps) (n : nat) :
  caps_ok G c -> lookup n c = [] \/ G n (lookup n c).
Proof.
  induction c as [|[m txt] c IH]; intros Hc; simpl; [now left|].
  destruct (Nat.eqb_spec n m) as [->|_].
  - right. apply Hc. now left.
  - apply IH. intros k t Hin. apply Hc. now right.
Qed.

Lemma submatches_group (G : nat -> gostring -> Prop) (r : regex) (whole : gostring) (c : caps) :
  caps_ok G c ->
  forall n, let txt := nth (S n) (submatches r whole c) [] in txt = [] \/ G (S n) txt.
Proof.
  intros Hc n. unfold submatches. cbn [nth].
  destruct (Nat.lt_ge_cases n (num_groups r)) as [Hlt|Hge].
  - rewrite (nth_indep _ [] (lookup 0 c)) by now rewrite length_map, length_seq.
    rewrite (map_nth (fun k => lookup k c)), seq_nth by assumption.
    now apply lookup_ok.
  - left. apply nth_overflow. now rewrite length_map, length_seq.
Qed.

(** A group of a match is empty or in the language of the group. *)
Lemma FindStringSubmatch_group (G : nat -> gostring -> Prop) (r : regex) (s : gostring) :
  groups_sat G r ->
  forall n, let txt := nth (S n) (FindStringSubmatch r s) [] in txt = [] \/ G (S n) txt.
Proof.
  intros Hg n. unfold FindStringSubmatch.
  destruct (find_from r s) as [[[whole rest] c]|] eqn:Hf.
  - destruct (find_from_sound G r Hg _ _ _ _ Hf) as (_ & Hc & _).
    now apply submatches_group.
  - left. now destruct n.
Qed.

Lemma find_all_fuel_whole (r : regex) (fuel : nat) (s : gostring) :
  Forall (fun m => Lang r (nth 0 m [])) (find_all_fuel fuel r s).
Proof.
  revert s. induction fuel as [|f IH]; intros s; simpl; [constructor|].
  destruct (find_from r s) as [[[[|a w] rest] c]|] eqn:Hf; try constructor.
  - simpl. assert (Hg : groups_sat (fun _ _ => True) r).
    { clear. induction r; simpl; auto. }
    now destruct (find_from_sound _ r Hg _ _ _ _ Hf) as (HL & _).
  - apply IH.
Qed.

(** Every result of [FindAllString] is in the language of the pattern. *)
Lemma FindAllString_lang (r : regex) (s : gostring) :
  Forall (Lang r) (FindAllString r s).
Proof.
  unfold FindAllString, FindAllStringSubmatch. apply Forall_map, find_all_fuel_whole.
Qed.

Lemma Lang_alphabet (r : regex) (u : gostring) :
  Lang r u -> Forall (fun a => alphabet r a = true) u.
Proof.
  induction 1; simpl; auto.
  - apply Forall_app. split; eapply Forall_impl; eauto; simpl; intros a ->; auto using orb_true_r.
  - eapply Forall_impl; eauto. simpl. now intros a ->.
  - eapply Forall_impl; eauto. simpl. intros a ->. apply orb_true_r.
  - apply Forall_app. now split.
Qed.

(** Captures stay inside the alphabet of their group. *)
Lemma group_alphabet_sat (B : nat -> ascii -> bool) (r : regex) :
  (forall n a, group_alphabet n r a = true -> B n a = true) ->
  groups_sat (fun n txt => Forall (fun a => B n a = true) txt) r.
Proof.
  induction r as [|p|r1 IH1 r2 IH2|r1 IH1 r2 IH2|r1 IH1|m r1 IH1]; simpl; intros H; auto.
  - split; [apply IH1|apply IH2]; intros n a Ha; apply H; rewrite Ha; auto using orb_true_r.
  - split; [apply IH1|apply IH2]; intros n a Ha; apply H; rewrite Ha; auto using orb_true_r.
  - split.
    + intros txt HL. eapply Forall_impl; [|apply (Lang_alphabet _ _ HL)].
      simpl. intros a Ha. apply H. now rewrite Nat.eqb_refl, Ha.
    + apply IH1. intros n a Ha. apply H. rewrite Ha. apply orb_true_r.
Qed.

(** ** Map iteration *)

Lemma In_split_at {A : Type} (l : list A) (i : nat) (d x : A) :
  (i < length l)%nat ->
  (In x l <-> nth i l d = x \/ In x (firstn i l ++ skipn (S i) l)).
Proof.
  revert i. induction l as [|y l IH]; intros [|i] H; simpl in *; try lia; try tauto.
  rewrite (IH i) by lia. tauto.
Qed.

Lemma range_order_In {A : Type} (sched : schedule) (entries : list A) (x : A) :
  In x (range_order sched entries) <-> In x entries.
Proof.
  revert entries. induction sched as [|n sched IH]; intros [|e0 l]; try (simpl; tauto).
  cbn [range_order].
  set (i := (n mod length (e0 :: l))%nat).
  assert (Hi : (i < length (e0 :: l))%nat) by (apply Nat.mod_upper_bound; discriminate).
  rewrite (In_split_at (e0 :: l) i e0 x Hi). cbn [In]. now rewrite IH.
Qed.

(** ** Currency detection *)

(** Equality of two lists of entries, component by component. *)
Ltac entries_eq :=
  repeat first [reflexivity | lia | apply (f_equal2 cons) | apply (f_equal2 pair)].

Lemma count_currencies_from (textLines : list TextLine) (u e g : Z) :
  fold_left count_line textLines [(USD, u); (EUR, e); (GBP, g)] =
  [(USD, u + tally usd_weight textLines);
   (EUR, e + tally eur_weight textLines);
   (GBP, g + tally gbp_weight textLines)].
Proof.
  revert u e g. induction textLines as [|line rest IH]; intros u e g; simpl.
  - now rewrite !Z.add_0_r.
  - assert (Hstep : count_line [(USD, u); (EUR, e); (GBP, g)] line =
                    [(USD, u + usd_weight line); (EUR, e + eur_weight line);
                     (GBP, g + gbp_weight line)]).
    { unfold count_line, usd_weight, eur_weight, gbp_weight, when.
      destruct (Contains (Text line) "$"), (Contains (Text line) "€"),
        (Contains (Text line) "£"),
        (Contains (ToLower (Text line)) "usd" || Contains (ToLower (Text line)) "dollar"),
        (Contains (ToLower (Text line)) "eur" || Contains (ToLower (Text line)) "euro"),
        (Contains (ToLower (Text line)) "gbp" || Contains (ToLower (Text line)) "pound");
        cbn; entries_eq. }
    rewrite Hstep, IH. entries_eq.
Qed.

Lemma count_currencies_tally (textLines : list TextLine) :
  count_currencies textLines =
  [(USD, tally usd_weight textLines);
   (EUR, tally eur_weight textLines);
   (GBP, tally gbp_weight textLines)].
Proof. unfold count_currencies. now rewrite count_currencies_from. Qed.

(** The second loop keeps a pair [(maxCount, currency)] that is either
    the initial one, no count exceeding it, or an entry of the map with
    the greatest count. *)
Lemma most_frequent_fold (entries : list (gostring * Z)) (maxCount : Z) (currency : gostring) :
  let '(m, c) := fold_left most_frequent_step entries (maxCount, currency) in
  (forall k v, In (k, v) entries -> v <= m) /\
  ((m = maxCount /\ c = currency) \/ (maxCount < m /\ In (c, m) entries)).
Proof.
  revert maxCount currency.
  induction entries as [|[k v] rest IH]; intros maxCount currency; simpl.
  - split; [easy|]. now left.
  - destruct (Z.gtb_spec v maxCount) as [Hgt|Hle].
    + specialize (IH v k).
      destruct (fold_left most_frequent_step rest (v, k)) as [m c].
      destruct IH as [Hall Hsel]. split.
      * intros k' v' [[= <- <-]|Hin]; [|eauto]. destruct Hsel as [[-> _]|[? _]]; lia.
      * right. destruct Hsel as [[-> ->]|[Hlt Hin]]; split; auto; lia.
    + specialize (IH maxCount currency).
      destruct (fold_left most_frequent_step rest (maxCount, currency)) as [m c].
      destruct IH as [Hall Hsel]. split.
      * intros k' v' [[= <- <-]|Hin]; [|eauto]. destruct Hsel as [[-> _]|[? _]]; lia.
      * destruct Hsel as [[-> ->]|[Hlt Hin]]; [now left|right; auto].
Qed.

(** What [detectDocumentCurrency] returns under any order of the map:
    one of the three codes, with a count no other code exceeds, and
    [EUR] unless its own count is positive. *)
Lemma detect_spec (sched : schedule) (textLines : list TextLine) :
  let r := detectDocumentCurrency sched textLines in
  (r = USD \/ r = EUR \/ r = GBP) /\
  (forall c, weighted_count c textLines <= weighted_count r textLines
             \/ (r = EUR /\ weighted_count c textLines <= 0)) /\
  (r = EUR \/ 0 < weighted_count r textLines).
Proof.
  unfold detectDocumentCurrency. rewrite count_currencies_tally.
  set (entries := [(USD, _); (EUR, _); (GBP, _)]).
  pose proof (most_frequent_fold (range_order sched entries) 0 EUR) as H.
  destruct (fold_left most_frequent_step (range_order sched entries) (0, EUR)) as [m c].
  destruct H as [Hall Hsel]. simpl.
  assert (Hin : forall k v, In (k, v) entries -> v <= m).
  { intros k v Hkv. apply (Hall k v). now apply range_order_In. }
  assert (Hu := Hin _ _ (or_introl eq_refl)).
  assert (He := Hin _ _ (or_intror (or_introl eq_refl))).
  assert (Hg := Hin _ _ (or_intror (or_intror (or_introl eq_refl)))).
  assert (Hcount : forall c', weighted_count c' textLines <= m \/ weighted_count c' textLines <= 0).
  { intros c'. unfold weighted_count.
    destruct (streq c' USD); [now left|]. destruct (streq c' EUR); [now left|].
    destruct (streq c' GBP); [now left|]. right; lia. }
  destruct Hsel as [[-> ->]|[Hpos Hc]].
  - split; [auto|]. split; [|now left].
    intros c'. right. split; auto. destruct (Hcount c'); lia.
  - apply range_order_In in Hc.
    assert (Hm : weighted_count c textLines = m /\ (c = USD \/ c = EUR \/ c = GBP)).
    { destruct Hc as [[= <- <-]|[[= <- <-]|[[= <- <-]|[]]]]; split; auto. }
    destruct Hm as [Hm Hc3]. split; [assumption|]. split.
    + intros c'. left. rewrite Hm. destruct (Hcount c'); lia.
    + right. lia.
Qed.

(** ** Parsing numbers *)

Lemma Forall_firstn {A : Type} (P : A -> Prop) (n : nat) (l : list A) :
  Forall P l -> Forall P (firstn n l).
Proof.
  intros H. rewrite <- (firstn_skipn n l) in H. now apply Forall_app in H.
Qed.

Lemma Forall_skipn {A : Type} (P : A -> Prop) (n : nat) (l : list A) :
  Forall P l -> Forall P (skipn n l).
Proof.
  intros H. rewrite <- (firstn_skipn n l) in H. now apply Forall_app in H.
Qed.

Lemma ReplaceAll_Forall (P : ascii -> Prop) (s old new : gostring) :
  Forall P s -> Forall P new -> Forall P (ReplaceAll s old new).
Proof.
  unfold ReplaceAll. generalize (length s) as fuel. intros fuel. revert s.
  induction fuel as [|f IH]; intros s Hs Hnew; simpl; auto.
  destruct s as [|a t]; auto.
  destruct (HasPrefix (a :: t) old).
  - apply Forall_app. split; auto. apply IH; auto. now apply Forall_skipn.
  - inversion Hs; subst. constructor; auto.
Qed.

Lemma span_digits_spec (s ds rest : gostring) :
  span_digits s = (ds, rest) -> Forall (fun a => is_digit a = true) ds.
Proof.
  revert ds rest. induction s as [|a t IH]; intros ds rest; simpl.
  - intros [= <- <-]. constructor.
  - destruct (is_digit a) eqn:Ha.
    + destruct (span_digits t) as [ds' rest']. intros [= <- <-].
      constructor; eauto.
    + intros [= <- <-]. constructor.
Qed.

Lemma digits_val_nonneg (s : gostring) (acc : Z) :
  Forall (fun a => is_digit a = true) s -> 0 <= acc -> 0 <= digits_val acc s.
Proof.
  revert acc. induction s as [|a t IH]; intros acc Hs Hacc; cbn [digits_val]; auto.
  inversion Hs as [|? ? Ha Ht]; subst. apply IH; auto.
  unfold is_digit, in_range in Ha. apply andb_true_iff in Ha as [Hlo _].
  apply Z.leb_le in Hlo. unfold digit_val. lia.
Qed.

Lemma binary64_of_nonneg (n d : Z) (q : Q) :
  0 <= n -> 0 < d -> binary64_of n d = Some q -> (0 <= q)%Q.
Proof.
  intros Hn Hd. unfold binary64_of.
  destruct (n =? 0); [intros [= <-]; apply Qle_refl|].
  unfold binary64_of_pos.
  set (p := Z.max _ (-1074)).
  set (N := n * 2 ^ Z.max 0 (- p)). set (D := d * 2 ^ Z.max 0 p).
  assert (HN : 0 <= N) by (apply Z.mul_nonneg_nonneg; auto; apply Z.pow_nonneg; lia).
  assert (HD : 0 < D) by (apply Z.mul_pos_pos; auto; apply Z.pow_pos_nonneg; lia).
  assert (Hm : 0 <= N / D) by (apply Z.div_pos; auto).
  set (m := if _ : bool then N / D + 1 else N / D).
  assert (Hm' : 0 <= m) by (subst m; destruct (_ || _); lia).
  clearbody m. set (x := Qmake (m * _) _).
  destruct ((0 <=? p) && _); [discriminate|]. intros Hq.
  assert (q = Qred x) as -> by congruence. clear Hq.
  assert (Hpow : 0 <= 2 ^ Z.max 0 p) by (apply Z.pow_nonneg; lia).
  assert (Hx : (0 <= x)%Q) by (unfold Qle; simpl; nia).
  apply (Qle_trans _ x); auto.
  apply Qle_lteq. right. symmetry. apply Qred_correct.
Qed.

(** A number without a minus sign in front is not negative. *)
Lemma ParseFloat_nonneg (s : gostring) (q : Q) :
  ParseFloat s = Some q -> hd "0"%char s <> "-"%char -> (0 <= q)%Q.
Proof.
  unfold ParseFloat.
  set (sign := split_sign s).
  intros Hparse Hhd.
  assert (Hsign : fst sign = false).
  { subst sign. unfold split_sign. destruct s as [|a t]; auto.
    destruct (Ascii.eqb_spec a "-"%char) as [->|Hne]; [now elim Hhd|].
    destruct a as [[] [] [] [] [] [] [] []]; auto. now elim Hne. }
  destruct sign as [neg body]. simpl in Hsign. subst neg.
  destruct (span_digits body) as [ip rest] eqn:Hip.
  set (frac := match rest with "."%char :: t => span_digits t | _ => ([], rest) end) in Hparse.
  assert (Hfp : Forall (fun a => is_digit a = true) (fst frac)).
  { subst frac. destruct rest as [|a t]; [constructor|].
    destruct (Ascii.eqb_spec a "."%char) as [->|Hne].
    - destruct (span_digits t) as [fp r] eqn:Hfp. apply (span_digits_spec _ _ _ Hfp).
    - destruct a as [[] [] [] [] [] [] [] []]; try constructor. now elim Hne. }
  destruct frac as [fp rest']. simpl in Hfp.
  destruct rest'; [|discriminate].
  destruct (ip ++ fp) as [|d0 ds] eqn:Hds; [discriminate|].
  destruct (binary64_of _ _) as [q'|] eqn:Hb; [|discriminate].
  injection Hparse as <-.
  apply (binary64_of_nonneg _ _ _) in Hb; auto.
  - apply digits_val_nonneg; [|lia]. rewrite <- Hds. apply Forall_app. split; auto.
    apply (span_digits_spec _ _ _ Hip).
  - apply Z.pow_pos_nonneg; lia.
Qed.

(** [parseAmount] of the text of an amount is not negative. *)
Lemma parseAmount_nonneg (amountStr : gostring) (q : Q) :
  Forall (fun a => amount_char a = true) amountStr ->
  parseAmount amountStr = Some q -> (0 <= q)%Q.
Proof.
  intros Hs. unfold parseAmount.
  assert (Hdot : Forall (fun a => amount_char a = true) (list_ascii_of_string "."))
    by (repeat constructor).
  assert (Hnil : Forall (fun a => amount_char a = true) (list_ascii_of_string ""))
    by constructor.
  set (processed := if _ : bool then _ else _).
  assert (Hp : Forall (fun a => amount_char a = true) processed).
  { subst processed. unfold slice_to, slice_from.
    repeat match goal with
           | |- Forall _ (if ?b then _ else _) => destruct b
           | |- Forall _ (ReplaceAll _ _ _) => apply ReplaceAll_Forall
           | |- Forall _ (firstn _ _) => apply Forall_firstn
           | |- Forall _ (skipn _ _) => apply Forall_skipn
           | |- Forall _ (_ ++ _) => apply Forall_app; split
           | |- _ => assumption
           end. }
  intros Hparse. apply (ParseFloat_nonneg _ _ Hparse).
  destruct processed as [|a t]; [discriminate|]. inversion Hp; subst. simpl.
  intros ->. discriminate.
Qed.

(** ** Amount resolver: the loops and their candidates *)

Lemma FindStringSubmatch_length (r : regex) (s : gostring) :
  FindStringSubmatch r s = [] \/ length (FindStringSubmatch r s) = S (num_groups r).
Proof.
  unfold FindStringSubmatch. destruct (find_from r s) as [[[whole rest] c]|]; [right|now left].
  unfold submatches. simpl. now rewrite length_map, length_seq.
Qed.

Lemma find_all_fuel_length (r : regex) (fuel : nat) (s : gostring) :
  Forall (fun m => length m = S (num_groups r)) (find_all_fuel fuel r s).
Proof.
  revert s. induction fuel as [|f IH]; intros s; simpl; [constructor|].
  destruct (find_from r s) as [[[[|a w] rest] c]|]; try constructor; auto.
  unfold submatches. simpl. now rewrite length_map, length_seq.
Qed.

Lemma keyword_tagged_spec (pats : list pattern) (text currency : gostring) :
  two_groups pats ->
  keyword_tagged pats text currency =
  match fst (tagged_candidates pats text currency) with
  | first :: _ => Return first
  | [] => Next (snd (tagged_candidates pats text currency))
  end.
Proof.
  intros Hpats. revert currency.
  induction Hpats as [|p rest Hp _ IH]; intros currency; [reflexivity|].
  cbn [keyword_tagged tagged_candidates]. unfold tagged_candidate.
  destruct (FindStringSubmatch_length (MustCompile p) text) as [E|E].
  - rewrite E. simpl. apply IH.
  - rewrite E, Hp. destruct (FindStringSubmatch (MustCompile p) text) as [|m0 ms] eqn:Em;
      [discriminate|].
    cbn [Nat.ltb Nat.leb]. destruct (tagged_groups p (m0 :: ms)) as [amountStr symbol].
    cbn [fst snd]. destruct (parseAmount amountStr); cbn [fst snd app]; [reflexivity|apply IH].
Qed.

Lemma keyword_untagged_spec (nocur : list pattern) (text currency : gostring) :
  one_group nocur ->
  keyword_untagged nocur text currency =
  match flat_map (untagged_candidate text currency) nocur with
  | first :: _ => Return first
  | [] => Next currency
  end.
Proof.
  induction 1 as [|p rest Hp _ IH]; [reflexivity|].
  cbn [keyword_untagged flat_map]. unfold untagged_candidate at 1.
  destruct (FindStringSubmatch_length (MustCompile p) text) as [E|E].
  - rewrite E. simpl. apply IH.
  - rewrite E, Hp. destruct (FindStringSubmatch (MustCompile p) text) as [|m0 ms] eqn:Em;
      [discriminate|].
    cbn [Nat.ltb Nat.leb]. destruct (parseAmount (nth 1 (m0 :: ms) []));
      cbn [app]; [reflexivity|apply IH].
Qed.

Lemma zone_tagged_spec (pats : list pattern) (text : gostring) (st : candidate)
    (currency : gostring) :
  two_groups pats ->
  zone_tagged pats text (st, currency) =
  (fold_left keep_largest (fst (tagged_candidates pats text currency)) st,
   snd (tagged_candidates pats text currency)).
Proof.
  intros Hpats. revert st currency.
  induction Hpats as [|p rest Hp _ IH]; intros [la lc] currency; [reflexivity|].
  cbn [zone_tagged tagged_candidates]. unfold tagged_candidate.
  destruct (FindStringSubmatch_length (MustCompile p) text) as [E|E].
  - rewrite E. simpl length. cbn [Nat.ltb Nat.leb fst snd app]. apply IH.
  - rewrite E, Hp. destruct (FindStringSubmatch (MustCompile p) text) as [|m0 ms] eqn:Em;
      [discriminate|].
    cbn [Nat.ltb Nat.leb]. destruct (tagged_groups p (m0 :: ms)) as [amountStr symbol].
    cbn [fst snd]. destruct (parseAmount amountStr) as [amount|]; cbn [fst snd app fold_left].
    + unfold keep_largest at 2. cbn [fst]. destruct (Qgtb amount la); apply IH.
    + apply IH.
Qed.

Lemma zone_untagged_spec (nocur : list pattern) (text : gostring) (st : candidate)
    (currency : gostring) :
  one_group nocur ->
  zone_untagged nocur text (st, currency) =
  (fold_left keep_largest (flat_map (untagged_candidate text currency) nocur) st, currency).
Proof.
  intros Hpats. revert st.
  induction Hpats as [|p rest Hp _ IH]; intros [la lc]; [reflexivity|].
  cbn [zone_untagged flat_map]. unfold untagged_candidate at 1.
  destruct (FindStringSubmatch_length (MustCompile p) text) as [E|E].
  - rewrite E. simpl length. cbn [Nat.ltb Nat.leb app]. apply IH.
  - rewrite E, Hp. destruct (FindStringSubmatch (MustCompile p) text) as [|m0 ms] eqn:Em;
      [discriminate|].
    cbn [Nat.ltb Nat.leb]. destruct (parseAmount (nth 1 (m0 :: ms) [])) as [amount|];
      cbn [app fold_left].
    + unfold keep_largest at 2. cbn [fst]. destruct (Qgtb amount la); apply IH.
    + apply IH.
Qed.

Lemma anywhere_match_spec (text currency : gostring) (st : candidate) (m : list gostring) :
  length m = 4%nat ->
  anywhere_match text currency st m =
  fold_left keep_largest (anywhere_candidate text currency m) st.
Proof.
  intros Hm. destruct st as [la lc].
  unfold anywhere_match, anywhere_candidate, anywhere_groups. rewrite Hm.
  cbn [Nat.ltb Nat.leb andb].
  destruct (streq (nth 3 m []) "") eqn:E3; cbn [negb].
  - destruct (streq (nth 1 m []) "") eqn:E1; cbn [negb].
    + change (streq [] (list_ascii_of_string "")) with true. cbn [negb].
      destruct (parseAmount (nth 2 m [])); reflexivity.
    + rewrite E1. cbn [negb]. destruct (parseAmount (nth 2 m [])); reflexivity.
  - rewrite E3. cbn [negb]. destruct (parseAmount (nth 2 m [])); reflexivity.
Qed.

Section AmountLoopsSpec.
Context (pats nocur : list pattern) (any : pattern).
Hypothesis pats_groups : two_groups pats.
Hypothesis nocur_groups : one_group nocur.
Hypothesis any_groups : num_groups (MustCompile any) = 3%nat.

Lemma fst_line_candidates (text currency : gostring) :
  fst (line_candidates pats nocur text currency) =
  fst (tagged_candidates pats text currency)
  ++ flat_map (untagged_candidate text (snd (tagged_candidates pats text currency))) nocur.
Proof. reflexivity. Qed.

Lemma snd_line_candidates (text currency : gostring) :
  snd (line_candidates pats nocur text currency) = snd (tagged_candidates pats text currency).
Proof. reflexivity. Qed.

Lemma keyword_lines_spec (textLines : list TextLine) (currency : gostring) :
  keyword_lines pats nocur textLines currency =
  match fst (tier_candidates pats nocur has_amount_keyword textLines currency) with
  | first :: _ => Return first
  | [] => Next (snd (tier_candidates pats nocur has_amount_keyword textLines currency))
  end.
Proof.
  revert currency. induction textLines as [|line rest IH]; intros currency; [reflexivity|].
  cbn [keyword_lines tier_candidates]. destruct (has_amount_keyword line); [|apply IH].
  rewrite (keyword_tagged_spec _ _ _ pats_groups), fst_line_candidates, snd_line_candidates.
  destruct (tagged_candidates pats (Text line) currency) as [[|c cs] currency'];
    cbn [fst snd app]; [|reflexivity].
  rewrite (keyword_untagged_spec _ _ _ nocur_groups).
  destruct (flat_map _ nocur) as [|c cs]; cbn [app]; [apply IH|reflexivity].
Qed.

Lemma zone_lines_spec (in_zone : TextLine -> bool) (bottomThreshold : Z)
    (textLines : list TextLine) (st : candidate) (currency : gostring) :
  (forall line, in_zone line = (Y line >? bottomThreshold)) ->
  zone_lines pats nocur bottomThreshold textLines (st, currency) =
  (fold_left keep_largest (fst (tier_candidates pats nocur in_zone textLines currency)) st,
   snd (tier_candidates pats nocur in_zone textLines currency)).
Proof.
  intros Hzone. revert st currency.
  induction textLines as [|line rest IH]; intros st currency; [reflexivity|].
  cbn [zone_lines tier_candidates]. rewrite Hzone.
  destruct (Y line >? bottomThreshold); [|apply IH].
  rewrite (zone_tagged_spec _ _ _ _ pats_groups), (zone_untagged_spec _ _ _ _ nocur_groups), IH.
  rewrite fst_line_candidates, snd_line_candidates. cbn [fst snd].
  now rewrite !fold_left_app.
Qed.

Lemma anywhere_lines_spec (textLines : list TextLine) (currency : gostring) :
  anywhere_lines any textLines currency =
  fold_left keep_largest (anywhere_candidates any textLines currency) (0%Q, []).
Proof.
  unfold anywhere_lines, anywhere_candidates. generalize (0%Q, @nil ascii) as st.
  induction textLines as [|line rest IH]; intros st; [reflexivity|].
  cbn [fold_left flat_map]. rewrite fold_left_app, IH. f_equal.
  unfold FindAllStringSubmatch.
  pose proof (find_all_fuel_length (MustCompile any) (length (Text line)) (Text line)) as Hl.
  rewrite any_groups in Hl.
  revert st. induction Hl as [|m ms Hm _ IHms]; intros st; [reflexivity|].
  cbn [fold_left flat_map]. rewrite fold_left_app, <- IHms. f_equal.
  now apply anywhere_match_spec.
Qed.
End AmountLoopsSpec.

(** ** The largest candidate *)

Lemma Qgtb_true (a b : Q) : Qgtb a b = true <-> (b < a)%Q.
Proof.
  unfold Qgtb. rewrite negb_true_iff, <- not_true_iff_false, Qle_bool_iff.
  split; [apply Qnot_le_lt|apply Qlt_not_le].
Qed.

Lemma Qgtb_false (a b : Q) : Qgtb a b = false <-> (a <= b)%Q.
Proof. unfold Qgtb. now rewrite negb_false_iff, Qle_bool_iff. Qed.

Lemma largest_from_ge (l : list candidate) (m0 : Q) : (m0 <= largest_from m0 l)%Q.
Proof.
  revert m0. induction l as [|[a c] t IH]; intros m0; cbn; [apply Qle_refl|].
  fold (largest_from (if Qgtb a m0 then a else m0) t).
  destruct (Qgtb a m0) eqn:E.
  - apply Qgtb_true in E. specialize (IH a). lra.
  - apply IH.
Qed.

(** A maximum above the initial value is attained in the list. *)
Lemma largest_attained (l : list candidate) (m0 : Q) :
  Qgtb (largest_from m0 l) m0 = true ->
  exists c, find (fun c => Qeq_bool (fst c) (largest_from m0 l)) l = Some c.
Proof.
  revert m0. induction l as [|[a c] t IH]; intros m0 H.
  - cbn in H. apply Qgtb_true in H. lra.
  - change (largest_from m0 ((a, c) :: t))
      with (largest_from (if Qgtb a m0 then a else m0) t) in *.
    cbn [find fst]. set (m1 := if Qgtb a m0 then a else m0) in *.
    destruct (Qeq_bool a (largest_from m1 t)) eqn:Ea; [now exists (a, c)|].
    apply IH. apply Qgtb_true. apply Qgtb_true in H.
    pose proof (largest_from_ge t m1) as Hge.
    apply Qeq_bool_neq in Ea. subst m1.
    destruct (Qgtb a m0) eqn:E.
    + apply Qle_lteq in Hge as [Hlt|Heq]; [assumption|]. now elim Ea.
    + assumption.
Qed.

(** The loop that keeps the running maximum ends on the first candidate
    with the largest amount, if that exceeds the initial value. *)
Lemma fold_keep_largest_find (l : list candidate) (m0 : Q) (c0 : gostring) :
  fold_left keep_largest l (m0, c0) =
  if Qgtb (largest_from m0 l) m0
  then match find (fun c => Qeq_bool (fst c) (largest_from m0 l)) l with
       | Some c => c
       | None => (m0, c0)
       end
  else (m0, c0).
Proof.
  revert m0 c0. induction l as [|[a c] t IH]; intros m0 c0.
  - cbn. now rewrite (proj2 (Qgtb_false m0 m0) (Qle_refl _)).
  - change (largest_from m0 ((a, c) :: t))
      with (largest_from (if Qgtb a m0 then a else m0) t).
    cbn [fold_left find fst]. unfold keep_largest at 2. cbn [fst].
    pose proof (largest_from_ge t (if Qgtb a m0 then a else m0)) as Hge.
    destruct (Qgtb a m0) eqn:E.
    + rewrite IH. apply Qgtb_true in E.
      rewrite (proj2 (Qgtb_true (largest_from a t) m0)) by lra.
      destruct (Qgtb (largest_from a t) a) eqn:E1.
      * destruct (largest_attained _ _ E1) as [c' Hc']. rewrite Hc'.
        apply Qgtb_true in E1.
        destruct (Qeq_bool a (largest_from a t)) eqn:Ea; [|reflexivity].
        apply Qeq_bool_iff in Ea. lra.
      * apply Qgtb_false in E1.
        assert (Ea : Qeq_bool a (largest_from a t) = true) by (apply Qeq_bool_iff; lra).
        now rewrite Ea.
    + rewrite IH. apply Qgtb_false in E.
      destruct (Qgtb (largest_from m0 t) m0) eqn:E1; [|reflexivity].
      apply Qgtb_true in E1.
      destruct (Qeq_bool a (largest_from m0 t)) eqn:Ea; [|reflexivity].
      apply Qeq_bool_iff in Ea. lra.
Qed.

Lemma fold_keep_largest_first (l : list candidate) :
  fold_left keep_largest l (0%Q, []) =
  match first_largest l with
  | Some c => c
  | None => (0%Q, [])
  end.
Proof.
  rewrite fold_keep_largest_find. unfold first_largest, largest.
  destruct (Qgtb (largest_from 0 l) 0) eqn:E; [|reflexivity].
  now destruct (largest_attained _ _ E) as [c ->].
Qed.

Lemma first_largest_positive (l : list candidate) (c : candidate) :
  first_largest l = Some c -> (0 < fst c)%Q.
Proof.
  unfold first_largest, largest. destruct (Qgtb (largest_from 0 l) 0) eqn:E; [|discriminate].
  intros H. apply find_some in H as [_ H]. apply Qeq_bool_iff in H. apply Qgtb_true in E. lra.
Qed.

(** ** The amount resolver follows its tiers *)

Lemma patterns_two_groups : two_groups patterns.
Proof. repeat constructor. Qed.

Lemma patternsNoCurrency_one_group : one_group patternsNoCurrency.
Proof. repeat constructor. Qed.

Lemma anywhere_three_groups : num_groups (MustCompile anywhere) = 3%nat.
Proof. reflexivity. Qed.

Lemma detect_not_empty (sched : schedule) (textLines : list TextLine) :
  streq (detectDocumentCurrency sched textLines) "" = false.
Proof.
  destruct (detect_spec sched textLines) as [[->| [->| ->]] _]; reflexivity.
Qed.

Lemma extract_amount_by_tiers (sched : schedule) (textLines : list TextLine) :
  extractAmountFromPosition sched textLines = amount_by_tiers sched textLines.
Proof.
  unfold extractAmountFromPosition, amount_by_tiers.
  rewrite detect_not_empty. cbn [negb].
  set (doc := detectDocumentCurrency sched textLines).
  pose proof patterns_two_groups as H2. pose proof patternsNoCurrency_one_group as H1.
  pose proof anywhere_three_groups as H3.
  revert H2 H1 H3. generalize patterns, patternsNoCurrency, anywhere.
  intros pats nocur any H2 H1 H3.
  rewrite (keyword_lines_spec pats nocur H2 H1).
  destruct (fst (tier_candidates pats nocur has_amount_keyword textLines doc)) as [|c cs];
    [|reflexivity].
  set (cur1 := snd (tier_candidates pats nocur has_amount_keyword textLines doc)).
  rewrite (zone_lines_spec pats nocur H2 H1 (in_bottom_zone textLines)) by reflexivity.
  set (zone := tier_candidates pats nocur (in_bottom_zone textLines) textLines cur1).
  rewrite fold_keep_largest_first.
  destruct (first_largest (fst zone)) as [[la lc]|] eqn:Ez.
  - apply first_largest_positive in Ez. cbn [fst] in Ez.
    now rewrite (proj2 (Qgtb_true la 0) Ez).
  - change (Qgtb 0 0) with false. cbv iota.
    rewrite (anywhere_lines_spec any H3), fold_keep_largest_first.
    destruct (first_largest (anywhere_candidates any textLines (snd zone))) as [[la lc]|] eqn:Ea.
    + apply first_largest_positive in Ea. cbn [fst] in Ea.
      now rewrite (proj2 (Qgtb_true la 0) Ea).
    + reflexivity.
Qed.

(** ** Amounts are not negative *)

(** What the group [S n] of a match holds when the table passed
    [captures_amounts]: nothing, or the text of an amount. *)
Lemma captured_amount (group : pattern -> nat) (pats : list pattern) (p : pattern)
    (text : gostring) (n : nat) :
  captures_amounts group pats = true -> In p pats -> group p = S n ->
  Forall (fun a => amount_char a = true)
         (nth (S n) (FindStringSubmatch (MustCompile p) text) []).
Proof.
  intros Hall Hin Hn. unfold captures_amounts in Hall.
  rewrite forallb_forall in Hall. specialize (Hall p Hin).
  pose proof (check_bytes_spec _ Hall) as Hp. cbv beta in Hp. rewrite Hn in Hp.
  set (B := fun (m : nat) (a : ascii) => negb (Nat.eqb m (S n)) || amount_char a).
  assert (Hsat : groups_sat (fun m txt => Forall (fun a => B m a = true) txt) (MustCompile p)).
  { apply group_alphabet_sat. intros m a Ha. unfold B.
    destruct (Nat.eqb_spec m (S n)) as [->|_]; [|reflexivity].
    specialize (Hp a). rewrite Ha in Hp. exact Hp. }
  destruct (FindStringSubmatch_group _ _ text Hsat n) as [-> | H]; [constructor|].
  eapply Forall_impl; [|exact H]. unfold B. cbv beta. intros a. now rewrite Nat.eqb_refl.
Qed.

Lemma tagged_groups_amount (p : pattern) (matches : list gostring) :
  fst (tagged_groups p matches) = nth (amount_group p) matches [].
Proof.
  unfold tagged_groups, amount_group. now destruct (Contains (text p) currency_after_amount).
Qed.

Lemma amount_group_succ (p : pattern) : exists n, amount_group p = S n.
Proof. unfold amount_group. destruct (Contains _ _); eauto. Qed.

Section CandidatesNonneg.
Context (pats nocur : list pattern).
Hypothesis pats_ok : captures_amounts amount_group pats = true.
Hypothesis nocur_ok : captures_amounts (fun _ => 1%nat) nocur = true.

Lemma tagged_candidates_nonneg (sub : list pattern) (text currency : gostring) :
  incl sub pats ->
  Forall (fun c => (0 <= fst c)%Q) (fst (tagged_candidates sub text currency)).
Proof.
  revert currency. induction sub as [|p rest IH]; intros currency Hsub; [constructor|].
  cbn [tagged_candidates fst]. apply Forall_app. split.
  - unfold tagged_candidate.
    destruct (FindStringSubmatch (MustCompile p) text) as [|m0 ms] eqn:Em; [constructor|].
    destruct (parseAmount _) as [amount|] eqn:Ep; [|constructor].
    repeat constructor. cbn [fst].
    rewrite tagged_groups_amount in Ep. destruct (amount_group_succ p) as [n Hn].
    apply (parseAmount_nonneg _ _) in Ep; auto.
    rewrite Hn, <- Em.
    apply (captured_amount amount_group pats); auto. apply Hsub. now left.
  - apply IH. intros q Hq. apply Hsub. now right.
Qed.

Lemma untagged_candidates_nonneg (sub : list pattern) (text currency : gostring) :
  incl sub nocur ->
  Forall (fun c => (0 <= fst c)%Q) (flat_map (untagged_candidate text currency) sub).
Proof.
  induction sub as [|p rest IH]; intros Hsub; [constructor|].
  cbn [flat_map]. apply Forall_app. split.
  - unfold untagged_candidate.
    destruct (FindStringSubmatch (MustCompile p) text) as [|m0 ms] eqn:Em; [constructor|].
    destruct (parseAmount _) as [amount|] eqn:Ep; [|constructor].
    repeat constructor. cbn [fst].
    apply (parseAmount_nonneg _ _) in Ep; auto.
    rewrite <- Em.
    apply (captured_amount (fun _ => 1%nat) nocur); auto. apply Hsub. now left.
  - apply IH. intros q Hq. apply Hsub. now right.
Qed.

Lemma tier_candidates_nonneg (in_tier : TextLine -> bool) (textLines : list TextLine)
    (currency : gostring) :
  Forall (fun c => (0 <= fst c)%Q)
         (fst (tier_candidates pats nocur in_tier textLines currency)).
Proof.
  revert currency. induction textLines as [|line rest IH]; intros currency; [constructor|].
  cbn [tier_candidates]. destruct (in_tier line); [|apply IH].
  cbn [fst]. apply Forall_app. split; [|apply IH].
  rewrite fst_line_candidates. apply Forall_app. split.
  - apply tagged_candidates_nonneg, incl_refl.
  - apply untagged_candidates_nonneg, incl_refl.
Qed.
End CandidatesNonneg.

Lemma patterns_capture_amounts : captures_amounts amount_group patterns = true.
Proof. vm_compute. reflexivity. Qed.

Lemma patternsNoCurrency_capture_amounts :
  captures_amounts (fun _ => 1%nat) patternsNoCurrency = true.
Proof. vm_compute. reflexivity. Qed.

Lemma extract_amount_nonneg (sched : schedule) (textLines : list TextLine) :
  (0 <= fst (extractAmountFromPosition sched textLines))%Q.
Proof.
  rewrite extract_amount_by_tiers. unfold amount_by_tiers.
  pose proof (tier_candidates_nonneg _ _ patterns_capture_amounts
                patternsNoCurrency_capture_amounts has_amount_keyword textLines
                (detectDocumentCurrency sched textLines)) as Hkw.
  destruct (fst (tier_candidates patterns patternsNoCurrency has_amount_keyword textLines _))
    as [|c cs]; [|now inversion Hkw].
  destruct (first_largest _) as [c|] eqn:Ez.
  - apply first_largest_positive in Ez. lra.
  - destruct (first_largest _) as [c|] eqn:Ea in |- *.
    + apply first_largest_positive in Ea. lra.
    + apply Qle_refl.
Qed.

(** ** Documents without any amount *)

Lemma no_match_submatch (r : regex) (s : gostring) :
  MatchString r s = false -> FindStringSubmatch r s = [].
Proof.
  unfold MatchString, FindStringSubmatch. now destruct (find_from r s) as [[[? ?] ?]|].
Qed.

Lemma no_match_all (r : regex) (s : gostring) :
  MatchString r s = false -> FindAllStringSubmatch r s = [].
Proof.
  unfold MatchString, FindAllStringSubmatch. destruct (length s); [reflexivity|].
  simpl. now destruct (find_from r s) as [[[? ?] ?]|].
Qed.

Lemma tagged_candidates_none (pats : list pattern) (text currency : gostring) :
  (forall p, In p pats -> MatchString (MustCompile p) text = false) ->
  tagged_candidates pats text currency = ([], currency).
Proof.
  induction pats as [|p rest IH]; intros H; [reflexivity|].
  cbn [tagged_candidates]. unfold tagged_candidate.
  rewrite (no_match_submatch _ _ (H p (or_introl eq_refl))). cbn [fst snd app].
  rewrite IH; [reflexivity|]. intros q Hq. apply H. now right.
Qed.

Lemma untagged_candidates_none (pats : list pattern) (text currency : gostring) :
  (forall p, In p pats -> MatchString (MustCompile p) text = false) ->
  flat_map (untagged_candidate text currency) pats = [].
Proof.
  induction pats as [|p rest IH]; intros H; [reflexivity|].
  cbn [flat_map]. unfold untagged_candidate at 1.
  rewrite (no_match_submatch _ _ (H p (or_introl eq_refl))). cbn [app].
  apply IH. intros q Hq. apply H. now right.
Qed.

Lemma tier_candidates_none (pats nocur : list pattern) (in_tier : TextLine -> bool)
    (textLines : list TextLine) (currency : gostring) :
  (forall line p, In line textLines -> In p (pats ++ nocur) ->
                  MatchString (MustCompile p) (Text line) = false) ->
  tier_candidates pats nocur in_tier textLines currency = ([], currency).
Proof.
  induction textLines as [|line rest IH]; intros H; [reflexivity|].
  assert (Hrest : tier_candidates pats nocur in_tier rest currency = ([], currency)).
  { apply IH. intros l p Hl. apply H. now right. }
  cbn [tier_candidates]. destruct (in_tier line); [|exact Hrest].
  unfold line_candidates.
  rewrite tagged_candidates_none, untagged_candidates_none; cbn [fst snd app].
  - now rewrite Hrest.
  - intros p Hp. apply H; [now left|]. apply in_or_app. now right.
  - intros p Hp. apply H; [now left|]. apply in_or_app. now left.
Qed.

Lemma anywhere_candidates_none (any : pattern) (textLines : list TextLine)
    (currency : gostring) :
  (forall line, In line textLines -> MatchString (MustCompile any) (Text line) = false) ->
  anywhere_candidates any textLines currency = [].
Proof.
  induction textLines as [|line rest IH]; intros H; [reflexivity|].
  unfold anywhere_candidates. cbn [flat_map].
  rewrite (no_match_all _ _ (H line (or_introl eq_refl))). cbn [flat_map app].
  apply IH. intros l Hl. apply H. now right.
Qed.

Lemma no_amount_match_result (sched : schedule) (textLines : list TextLine) :
  no_amount_match textLines = true ->
  extractAmountFromPosition sched textLines = (0%Q, detectDocumentCurrency sched textLines).
Proof.
  intros H. rewrite extract_amount_by_tiers. unfold amount_by_tiers, no_amount_match in *.
  revert H. generalize patterns, patternsNoCurrency, anywhere. intros pats nocur any Hb.
  assert (H : forall line p, In line textLines -> In p (pats ++ nocur ++ [any]) ->
                             MatchString (MustCompile p) (Text line) = false).
  { intros line p Hl Hp. rewrite forallb_forall in Hb. specialize (Hb line Hl).
    rewrite forallb_forall in Hb. now apply negb_true_iff, Hb. }
  clear Hb.
  assert (Htier : forall in_tier currency,
             tier_candidates pats nocur in_tier textLines currency = ([], currency)).
  { intros in_tier currency. apply tier_candidates_none. intros line p Hl Hp.
    apply H; auto. rewrite app_assoc. apply in_or_app. now left. }
  rewrite !Htier. cbn [fst snd].
  rewrite anywhere_candidates_none; [reflexivity|].
  intros line Hl. apply H; auto. apply in_or_app. right. apply in_or_app. right. now left.
Qed.

(** ** White space and tokens *)

Lemma HasPrefix_Forall (P : ascii -> Prop) (s w : gostring) :
  HasPrefix s w = true -> Forall P s -> Forall P w.
Proof.
  revert s. induction w as [|b w IH]; intros [|a s] H Hs; simpl in H; try discriminate;
    try constructor.
  - apply andb_true_iff in H as [Hab H]. apply Ascii.eqb_eq in Hab. subst b.
    now inversion Hs.
  - apply andb_true_iff in H as [_ H]. inversion Hs; subst. eauto.
Qed.

Lemma HasSuffix_Forall (P : ascii -> Prop) (s w : gostring) :
  HasSuffix s w = true -> Forall P s -> Forall P w.
Proof.
  unfold HasSuffix. intros H Hs.
  apply (HasPrefix_Forall P) in H; [|now apply Forall_rev].
  rewrite <- (rev_involutive w). now apply Forall_rev.
Qed.











(** ** Invoice numbers: what the patterns capture *)

Lemma groups_free (G : nat -> gostring -> Prop) (r : regex) :
  has_group r = false -> groups_sat G r.
Proof.
  induction r; simpl; intros H; auto; try discriminate;
    apply orb_false_iff in H as [H1 H2]; auto.
Qed.

Lemma seqs_sat (G : nat -> gostring -> Prop) (l : list regex) :
  Forall (groups_sat G) l -> groups_sat G (seqs l).
Proof.
  induction 1 as [|r l Hr Hl IH]; [exact I|].
  destruct l as [|r' l]; [exact Hr|]. cbn [seqs groups_sat] in *. auto.
Qed.






Lemma invoice_patterns_one_group : one_group InvoicePatterns.patterns.
Proof. repeat constructor. Qed.


Lemma first_capture_length (pats : list pattern) (text r : gostring) :
  first_capture pats text = Some r -> 1 < len r.
Proof.
  induction pats as [|p rest IH]; [discriminate|].
  cbn [first_capture].
  destruct (1 <? length (FindStringSubmatch (MustCompile p) text))%nat; [|exact IH].
  destruct (Z.ltb_spec 1 (len (TrimSpace (nth 1 (FindStringSubmatch (MustCompile p) text) []))));
    [|exact IH].
  now intros [= <-].
Qed.

(** The loop over the patterns returns the first trimmed capture that
    is longer than one byte: shorter ones are passed over. *)
Lemma first_capture_find (pats : list pattern) (text : gostring) :
  one_group pats ->
  first_capture pats text = find (fun r => 1 <? len r) (trimmed_captures pats text).
Proof.
  induction 1 as [|p rest Hp _ IH]; [reflexivity|].
  cbn [first_capture trimmed_captures flat_map].
  destruct (FindStringSubmatch_length (MustCompile p) text) as [E|E].
  - rewrite E. cbn [length Nat.ltb Nat.leb app]. exact IH.
  - rewrite E, Hp. destruct (FindStringSubmatch (MustCompile p) text) as [|m0 ms];
      [discriminate|].
    cbn [Nat.ltb Nat.leb app find].
    destruct (1 <? len (TrimSpace (nth 1 (m0 :: ms) []))); [reflexivity|exact IH].
Qed.

Lemma first_run_chars (matches : list gostring) (r : gostring) :
  Forall (fun m => Forall (fun a => invoice_char a = true) m) matches ->
  first_run matches = Some r ->
  Forall (fun a => invoice_char a = true) r /\ 2 < len r.
Proof.
  induction 1 as [|m rest Hm _ IH]; [discriminate|].
  cbn [first_run].
  destruct (negb (streq (ToLower m) "invoice") && negb (streq (ToLower m) "number")
            && negb (streq (ToLower m) "inv")); cbn [andb]; [|exact IH].
  destruct (Z.ltb_spec 2 (len m)); [|exact IH].
  now intros [= <-].
Qed.

Lemma alphanumeric_runs (text : gostring) :
  Forall (fun m => Forall (fun a => invoice_char a = true) m)
         (FindAllString (MustCompile InvoicePatterns.alphanumeric) text).
Proof.
  eapply Forall_impl; [|apply FindAllString_lang].
  intros m Hm. apply Lang_alphabet in Hm. eapply Forall_impl; [|exact Hm].
  assert (Hcheck : check_bytes (fun a => implb (alphabet (MustCompile InvoicePatterns.alphanumeric) a)
                                               (invoice_char a)) = true)
    by (vm_compute; reflexivity).
  intros a Ha. pose proof (check_bytes_spec _ Hcheck a) as Hc. cbv beta in Hc.
  now rewrite Ha in Hc.
Qed.

(** ** Invoice numbers: the tiers *)

Section InvoiceInvariant.
Context (P : gostring -> Prop).
Hypothesis capture_ok :
  forall text r, first_capture InvoicePatterns.patterns text = Some r -> P r.
Hypothesis run_ok :
  forall text r,
    first_run (FindAllString (MustCompile InvoicePatterns.alphanumeric) text) = Some r -> P r.
Hypothesis unknown_ok : P UNKNOWN.

Lemma invoice_top_right_ok (t h : Z) (textLines : list TextLine) (r : gostring) :
  invoice_top_right t h textLines = Some r -> P r.
Proof.
  induction textLines as [|line rest IH]; [discriminate|].
  cbn [invoice_top_right].
  destruct ((Y line <? t) && (X line >? h)); [|exact IH].
  destruct (_ || _); [|exact IH].
  destruct (first_capture InvoicePatterns.patterns (Text line)) as [c|] eqn:Ec.
  - intros [= <-]. eauto.
  - destruct (first_run _) as [m|] eqn:Em; [|exact IH].
    intros [= <-]. eauto.
Qed.

Lemma invoice_keyword_lines_ok (textLines : list TextLine) (r : gostring) :
  invoice_keyword_lines textLines = Some r -> P r.
Proof.
  induction textLines as [|line rest IH]; [discriminate|].
  cbn [invoice_keyword_lines].
  destruct (_ || _); [|exact IH].
  destruct (first_capture InvoicePatterns.patterns (Text line)) as [c|] eqn:Ec; [|exact IH].
  intros [= <-]. eauto.
Qed.

Lemma invoice_top_half_ok (t : Z) (textLines : list TextLine) (r : gostring) :
  invoice_top_half t textLines = Some r -> P r.
Proof.
  induction textLines as [|line rest IH]; [discriminate|].
  cbn [invoice_top_half].
  destruct (Y line <? t); [|exact IH].
  destruct (first_capture InvoicePatterns.patterns (Text line)) as [c|] eqn:Ec; [|exact IH].
  intros [= <-]. eauto.
Qed.

Lemma invoice_anywhere_ok (textLines : list TextLine) (r : gostring) :
  invoice_anywhere textLines = Some r -> P r.
Proof.
  induction textLines as [|line rest IH]; [discriminate|].
  cbn [invoice_anywhere].
  destruct (first_capture InvoicePatterns.patterns (Text line)) as [c|] eqn:Ec; [|exact IH].
  intros [= <-]. eauto.
Qed.

Lemma invoice_number_ok (textLines : list TextLine) :
  P (extractInvoiceNumberFromPosition textLines).
Proof.
  unfold extractInvoiceNumberFromPosition.
  destruct (invoice_top_right _ _ textLines) as [r|] eqn:E1;
    [now apply invoice_top_right_ok in E1|].
  destruct (invoice_keyword_lines textLines) as [r|] eqn:E2;
    [now apply invoice_keyword_lines_ok in E2|].
  destruct (invoice_top_half _ textLines) as [r|] eqn:E3;
    [now apply invoice_top_half_ok in E3|].
  destruct (invoice_anywhere textLines) as [r|] eqn:E4;
    [now apply invoice_anywhere_ok in E4|].
  exact unknown_ok.
Qed.
End InvoiceInvariant.

(** ** Line normaliser *)

Lemma Split_length_fuel (sep : gostring) (n : nat) (s cur : gostring) :
  sep <> [] -> (length s <= n)%nat ->
  Z.of_nat (length (split_fuel (S n) s sep cur)) = count_fuel n s sep + 1.
Proof.
  intros Hsep. revert s cur. induction n as [|n IH]; intros s cur Hn.
  - destruct s; [reflexivity|simpl in Hn; lia].
  - destruct s as [|a t]; [reflexivity|].
    change (split_fuel (S (S n)) (a :: t) sep cur)
      with (if HasPrefix (a :: t) sep
            then rev cur :: split_fuel (S n) (skipn (length sep) (a :: t)) sep []
            else split_fuel (S n) t sep (a :: cur)).
    change (count_fuel (S n) (a :: t) sep)
      with (if HasPrefix (a :: t) sep
            then 1 + count_fuel n (skipn (length sep) (a :: t)) sep
            else count_fuel n t sep).
    destruct (HasPrefix (a :: t) sep).
    + cbn [length]. rewrite Nat2Z.inj_succ, IH; [lia|].
      rewrite length_skipn. simpl in *. destruct sep; [contradiction|simpl; lia].
    + apply IH. simpl in Hn. lia.
Qed.

(** A string has one part more than it has separators. *)
Lemma Split_length (s sep : gostring) :
  sep <> [] -> Z.of_nat (length (Split s sep)) = Count s sep + 1.
Proof.
  intros Hsep. unfold Split, Count. destruct sep; [contradiction|].
  now apply Split_length_fuel.
Qed.

Lemma parse_uint_loop_nonneg (s : gostring) (n : Z) :
  0 <= n -> 0 <= fst (parse_uint_loop s n).
Proof.
  revert n. induction s as [|c t IH]; intros n Hn; cbn [parse_uint_loop fst]; [exact Hn|].
  destruct (is_digit c) eqn:Hc; [|cbn; lia].
  destruct (_ <=? n); [cbn; lia|].
  destruct (max_uint64 <? _); [cbn; lia|].
  apply IH. unfold is_digit, in_range in Hc. apply andb_true_iff in Hc as [Hlo _].
  apply Z.leb_le in Hlo. unfold digit_val. lia.
Qed.

(** A numeral within 64 bits is read as its value. *)
Lemma parse_uint_loop_digits (s : gostring) (n : Z) :
  Forall (fun a => is_digit a = true) s -> 0 <= n ->
  digits_val n s <= max_uint64 ->
  parse_uint_loop s n = (digits_val n s, None).
Proof.
  revert n. induction s as [|c t IH]; intros n Hs Hn Hmax; [reflexivity|].
  inversion Hs as [|? ? Hc Ht]; subst. cbn [parse_uint_loop digits_val] in *.
  rewrite Hc.
  assert (Hd : 0 <= digit_val c).
  { unfold is_digit, in_range in Hc. apply andb_true_iff in Hc as [Hlo _].
    apply Z.leb_le in Hlo. unfold digit_val. lia. }
  assert (Hmono : forall u m, Forall (fun a => is_digit a = true) u -> 0 <= m ->
                              m <= digits_val m u).
  { clear. induction u as [|a u IHu]; intros m Hu Hm; cbn [digits_val]; [lia|].
    inversion Hu as [|? ? Ha Hu']; subst.
    unfold is_digit, in_range in Ha. apply andb_true_iff in Ha as [Hlo _].
    apply Z.leb_le in Hlo.
    specialize (IHu (10 * m + digit_val a) Hu'). unfold digit_val in *. lia. }
  pose proof (Hmono t (10 * n + digit_val c) Ht ltac:(lia)) as Hge.
  assert (Hcut : max_uint64 / 10 + 1 = 1844674407370955162) by reflexivity.
  rewrite Hcut. unfold max_uint64 in *.
  destruct (Z.leb_spec 1844674407370955162 n); [lia|].
  replace (n * 10 + digit_val c) with (10 * n + digit_val c) by lia.
  destruct (Z.ltb_spec (2 ^ 64 - 1) (10 * n + digit_val c)); [lia|].
  apply IH; auto; lia.
Qed.

Lemma Atoi_digits (s : gostring) :
  s <> [] -> Forall (fun a => is_digit a = true) s -> digits_val 0 s <= max_int64 ->
  Atoi s = (digits_val 0 s, None).
Proof.
  intros Hne Hs Hmax. unfold Atoi, ParseInt. destruct s as [|c t]; [contradiction|].
  assert (Hsign : split_sign (c :: t) = (false, c :: t)).
  { inversion Hs as [|? ? Hc _]; subst. unfold split_sign.
    destruct c as [[] [] [] [] [] [] [] []]; try reflexivity; discriminate. }
  rewrite Hsign. unfold ParseUint.
  rewrite parse_uint_loop_digits; auto; [|lia|unfold max_int64, max_uint64 in *; lia].
  cbn [negb andb]. unfold max_int64 in Hmax.
  destruct (Z.leb_spec (2 ^ 63) (digits_val 0 (c :: t))); [lia|reflexivity].
Qed.

(** What [Atoi] returns with each error. *)
Lemma Atoi_errors (part : gostring) :
  match snd (Atoi part) with
  | Some ErrSyntax => fst (Atoi part) = 0
  | Some ErrRange => fst (Atoi part) = max_int64 \/ fst (Atoi part) = min_int64
  | None => min_int64 <= fst (Atoi part) <= max_int64
  end.
Proof.
  unfold Atoi, ParseInt, max_int64, min_int64. destruct part as [|c t]; [reflexivity|].
  destruct (split_sign (c :: t)) as [neg body].
  assert (Hun : 0 <= fst (ParseUint body)).
  { unfold ParseUint. destruct body; [cbn; lia|]. now apply parse_uint_loop_nonneg. }
  destruct (ParseUint body) as [un err]. cbn [fst] in Hun.
  destruct err as [[|]|]; [reflexivity| |];
    (destruct neg; cbn [negb andb];
     [destruct (Z.ltb_spec (2 ^ 63) un)|destruct (Z.leb_spec (2 ^ 63) un)];
     cbn [fst snd]; lia).
Qed.

Lemma normalize_line_spec (line : OcrLine) :
  normalize_line line =
  match BoundingBox line with
  | Some box => if 3 <=? Count box "," then [materialized line box] else []
  | None => []
  end.
Proof.
  unfold normalize_line, parse_bounding_box, materialized, box_part.
  destruct (BoundingBox line) as [box|]; [|reflexivity].
  rewrite length_map.
  assert (Hlen := Split_length box "," ltac:(discriminate)).
  destruct (Z.leb_spec 3 (Count box ",")) as [H|H].
  - rewrite (proj2 (Nat.leb_le 4 _)) by lia.
    do 2 f_equal;
      change 0 with (fst (Atoi [])) at 1; apply (map_nth (fun part => fst (Atoi part))).
  - rewrite (proj2 (Nat.leb_gt 4 _)) by lia. reflexivity.
Qed.

(** ** The one-comma branch of [parseAmount] *)

Lemma count_fuel_char (c : ascii) (n : nat) (s : gostring) :
  (length s <= n)%nat ->
  count_fuel n s [c] = Z.of_nat (count_occ ascii_dec s c).
Proof.
  revert s. induction n as [|n IH]; intros s Hn.
  - destruct s; [reflexivity|simpl in Hn; lia].
  - destruct s as [|a t]; [reflexivity|].
    change (count_fuel (S n) (a :: t) [c])
      with (if HasPrefix (a :: t) [c]
            then 1 + count_fuel n (skipn 1 (a :: t)) [c]
            else count_fuel n t [c]).
    cbn [HasPrefix skipn count_occ]. rewrite andb_true_r.
    simpl in Hn. rewrite IH by lia.
    destruct (Ascii.eqb_spec a c) as [->|Hne].
    + destruct (ascii_dec c c); [lia|contradiction].
    + destruct (ascii_dec a c); [contradiction|reflexivity].
Qed.

Lemma Count_char (c : ascii) (s : gostring) :
  Count s [c] = Z.of_nat (count_occ ascii_dec s c).
Proof. unfold Count. now apply count_fuel_char. Qed.

Lemma last_index_absent (c : ascii) (s : gostring) (i found : Z) :
  ~ In c s -> last_index_from i s [c] found = found.
Proof.
  revert i found. induction s as [|a t IH]; intros i found Hc; [reflexivity|].
  cbn [last_index_from HasPrefix]. rewrite andb_true_r.
  destruct (Ascii.eqb_spec a c) as [->|_]; [elim Hc; now left|].
  apply IH. intros H. apply Hc. now right.
Qed.

Lemma last_index_split (c : ascii) (pre post : gostring) (i found : Z) :
  ~ In c post ->
  last_index_from i (pre ++ c :: post) [c] found = i + Z.of_nat (length pre).
Proof.
  intros Hpost. revert i found. induction pre as [|a pre IH]; intros i found.
  - cbn [app last_index_from HasPrefix length]. rewrite Ascii.eqb_refl. cbn [andb].
    rewrite last_index_absent by assumption. lia.
  - cbn [app last_index_from length]. rewrite IH. lia.
Qed.

(** With exactly one comma, the result is read from the text before the
    comma, its periods removed; the text after the comma plays no
    part. *)
Lemma parseAmount_one_comma (pre post : gostring) :
  ~ In ","%char pre -> ~ In ","%char post ->
  parseAmount (pre ++ "," ++ post) = ParseFloat (ReplaceAll pre "." "").
Proof.
  intros Hpre Hpost. unfold parseAmount.
  change (list_ascii_of_string ",") with [","%char].
  change (list_ascii_of_string ".") with ["."%char].
  cbn [app]. rewrite !Count_char.
  rewrite count_occ_app, (proj1 (count_occ_not_In ascii_dec pre ","%char) Hpre).
  cbn [count_occ]. destruct (ascii_dec ","%char ","%char) as [_|Hne]; [|contradiction].
  rewrite (proj1 (count_occ_not_In ascii_dec post ","%char) Hpost).
  cbn [Nat.add Z.of_nat Pos.of_succ_nat Z.eqb Pos.eqb andb].
  set (periods := Z.of_nat (count_occ ascii_dec (pre ++ ","%char :: post) "."%char)).
  assert (Hcond : (1 <=? periods) || (periods =? 0) = true).
  { destruct (Z.leb_spec 1 periods); [reflexivity|].
    destruct (Z.eqb_spec periods 0); [reflexivity|]. subst periods. lia. }
  rewrite Hcond. unfold LastIndex. rewrite last_index_split by assumption.
  cbn [Z.add]. destruct (Z.eqb_spec (Z.of_nat (length pre)) (-1)) as [E|_]; [lia|].
  cbn [negb]. unfold slice_to. rewrite Nat2Z.id.
  assert (Hfirst : forall r, firstn (length pre) (pre ++ r) = pre).
  { intros r. rewrite firstn_app, Nat.sub_diag, firstn_all. cbn [firstn]. apply app_nil_r. }
  now rewrite !Hfirst.
Qed.

(** * The properties of the engine *)

Lemma tally_nonneg (textLines : list TextLine) :
  0 <= tally usd_weight textLines /\ 0 <= tally eur_weight textLines /\
  0 <= tally gbp_weight textLines.
Proof.
  unfold tally. induction textLines as [|line rest (Hu & He & Hg)]; [cbn; lia|].
  cbn [fold_right]. unfold usd_weight at 1, eur_weight at 1, gbp_weight at 1, b2z.
  repeat match goal with |- context [if ?b then _ else _] => destruct b end; lia.
Qed.

Lemma weighted_count_nonneg (c : gostring) (textLines : list TextLine) :
  0 <= weighted_count c textLines.
Proof.
  unfold weighted_count. pose proof (tally_nonneg textLines).
  repeat match goal with |- context [if ?b then _ else _] => destruct b end; lia.
Qed.

(** No signal at all: the default. *)
Lemma detect_default (sched : schedule) (textLines : list TextLine) :
  weighted_count USD textLines = 0 -> weighted_count EUR textLines = 0 ->
  weighted_count GBP textLines = 0 ->
  detectDocumentCurrency sched textLines = EUR.
Proof.
  intros Hu He Hg. destruct (detect_spec sched textLines) as (Hr & _ & [H|H]); [exact H|].
  destruct Hr as [E|[E|E]]; rewrite E in H; lia.
Qed.

(** One code ahead of the two others: that code. *)
Lemma detect_unique (sched : schedule) (textLines : list TextLine) (c : gostring) :
  In c [USD; EUR; GBP] ->
  (forall c', In c' [USD; EUR; GBP] -> c' <> c ->
              weighted_count c' textLines < weighted_count c textLines) ->
  detectDocumentCurrency sched textLines = c.
Proof.
  intros Hc Hmax. destruct (detect_spec sched textLines) as (Hr & Hle & _).
  set (r := detectDocumentCurrency sched textLines) in *.
  destruct (list_eq_dec ascii_dec r c) as [E|E]; [exact E|exfalso].
  assert (Hin : In r [USD; EUR; GBP]) by (simpl; intuition).
  specialize (Hmax r Hin E). pose proof (weighted_count_nonneg r textLines).
  destruct (Hle c) as [H1|[_ H1]]; lia.
Qed.

(** C1. The separator rules of [parseAmount] on the five documented
    strings: a string with one comma loses everything from the comma on
    (lemma [parseAmount_one_comma] has the general rule), so ["1.234,56"]
    and ["1234,56"] give 1234 and ["1,234.56"] gives 1, not 1234.56;
    ["1234.56"] and ["12.34.56"] give 1234.56. *)
Theorem parseAmount_documented_strings :
  parseAmount "1.234,56" = Some (1234 # 1)%Q /\
  parseAmount "1,234.56" = Some (1 # 1)%Q /\
  parseAmount "1234,56" = Some (1234 # 1)%Q /\
  parseAmount "1234.56" = Some (float64_lit 123456 2) /\
  parseAmount "12.34.56" = Some (float64_lit 123456 2) /\
  float64_lit 123456 2 <> (1234 # 1)%Q /\
  float64_lit 123456 2 <> (1 # 1)%Q.
Proof. vm_compute. repeat split; discriminate. Qed.

(** C2. The record of the end-to-end scenario, under any order of the
    map iterations: vendor ["Acme Corp"], invoice number ["4521"],
    currency ["EUR"], but total amount 1234 and not 1234.50: the
    fraction of ["1.234,50"] is lost in [parseAmount]. *)
Theorem scenario_record (rt : runtime) :
  parseInvoiceTextWithPosition rt scenario =
  {| InvoiceNumber := "4521";
     Date := UNKNOWN;
     TotalAmount := (1234 # 1)%Q;
     Currency := EUR;
     VendorName := "Acme Corp" |}.
Proof. vm_compute. reflexivity. Qed.

(** C3. The empty line list gives the sentinels: vendor, invoice number
    and date ["UNKNOWN"], amount 0, currency ["EUR"], under any order
    of the map iterations. Every resolver is a total function, so none
    fails on it. *)
Theorem empty_document (rt : runtime) :
  extractVendorNameFromPosition (domain_range rt) [] = UNKNOWN /\
  extractInvoiceNumberFromPosition [] = UNKNOWN /\
  extractDateFromPosition [] = UNKNOWN /\
  extractAmountFromPosition (currency_range rt) [] = (0%Q, EUR) /\
  parseInvoiceTextWithPosition rt [] =
  {| InvoiceNumber := UNKNOWN;
     Date := UNKNOWN;
     TotalAmount := 0%Q;
     Currency := EUR;
     VendorName := UNKNOWN |}.
Proof.
  assert (Hamount : extractAmountFromPosition (currency_range rt) [] = (0%Q, EUR)).
  { rewrite (no_amount_match_result _ [] eq_refl).
    now rewrite (detect_default _ [] eq_refl eq_refl eq_refl). }
  repeat split; try reflexivity; try exact Hamount.
  unfold parseInvoiceTextWithPosition.
  change (GoSort.Slice by_Y []) with (@nil TextLine). now rewrite Hamount.
Qed.

(** C4 fails on the code: a tie between positive counts does not give
    ["EUR"]. The loop over the map keeps the first key it visits that
    has the greatest count. On the line ["$ £"] the dollar and the pound
    tie at 1 with the euro at 0: the result is never ["EUR"], it is
    ["USD"] when the keys are visited in their order and ["GBP"] when
    the visit starts with the third key. On the line ["$ € usd"] the
    euro and the dollar tie at 2: the result is ["USD"] when the keys
    are visited in their order, so the euro does not outweigh the
    dollar, and ["EUR"] when the visit starts with the second key. *)
Theorem currency_tie_follows_map_order :
  (weighted_count USD dollar_and_pound = 1 /\
   weighted_count GBP dollar_and_pound = 1 /\
   weighted_count EUR dollar_and_pound = 0 /\
   (forall sched, detectDocumentCurrency sched dollar_and_pound <> EUR) /\
   detectDocumentCurrency [] dollar_and_pound = USD /\
   detectDocumentCurrency [2%nat] dollar_and_pound = GBP) /\
  (weighted_count EUR euro_and_dollars = 2 /\
   weighted_count USD euro_and_dollars = 2 /\
   weighted_count GBP euro_and_dollars = 0 /\
   detectDocumentCurrency [] euro_and_dollars = USD /\
   detectDocumentCurrency [1%nat] euro_and_dollars = EUR).
Proof.
  split; [|vm_compute; repeat split].
  repeat split; try reflexivity.
  intros sched E. destruct (detect_spec sched dollar_and_pound) as (_ & Hle & _).
  rewrite E in Hle. destruct (Hle USD) as [H|[_ H]]; vm_compute in H; now apply H.
Qed.

(** Away from a tie the code does what is stated for it. The counts of
    the first loop are the weighted tallies: per line, 1 for [$] and 1
    for ["usd"] or ["dollar"], 2 for [€] and 2 for ["eur"] or ["euro"],
    1 for [£] and 1 for ["gbp"] or ["pound"]. The result is one of the
    three codes and no code has a greater count; hence it is the code
    with the highest count when one code is ahead of the others, and it
    is ["EUR"] when all counts are zero. *)
Theorem currency_detection_spec (sched : schedule) (textLines : list TextLine) :
  let r := detectDocumentCurrency sched textLines in
  count_currencies textLines =
    [(USD, tally usd_weight textLines); (EUR, tally eur_weight textLines);
     (GBP, tally gbp_weight textLines)] /\
  In r [USD; EUR; GBP] /\
  (forall c, In c [USD; EUR; GBP] ->
             weighted_count c textLines <= weighted_count r textLines) /\
  (forall c, In c [USD; EUR; GBP] ->
             (forall c', In c' [USD; EUR; GBP] -> c' <> c ->
                         weighted_count c' textLines < weighted_count c textLines) ->
             r = c) /\
  (weighted_count USD textLines = 0 -> weighted_count EUR textLines = 0 ->
   weighted_count GBP textLines = 0 -> r = EUR).
Proof.
  cbv zeta. destruct (detect_spec sched textLines) as (Hr & Hle & _).
  split; [apply count_currencies_tally|].
  split; [simpl; intuition|].
  split; [|split].
  - intros c _. destruct (Hle c) as [H|[E H]]; [exact H|].
    pose proof (weighted_count_nonneg (detectDocumentCurrency sched textLines) textLines). lia.
  - intros c Hc Hmax. now apply detect_unique.
  - apply detect_default.
Qed.

(** C5, as stated, fails: in [zero_at_bottom] no line has a keyword, the
    bottom zone yields one parsed amount, 0.00, and the resolver does
    not return it: it goes on to the whole document and returns 55. *)
Lemma zone_zero_is_passed_over :
  (forall cur,
      fst (tier_candidates patterns patternsNoCurrency has_amount_keyword
                           zero_at_bottom cur) = []) /\
  (forall cur,
      map fst (fst (tier_candidates patterns patternsNoCurrency
                                    (in_bottom_zone zero_at_bottom) zero_at_bottom cur))
      = [0%Q]) /\
  (forall sched, fst (extractAmountFromPosition sched zero_at_bottom) = (55 # 1)%Q).
Proof. repeat split; intros; vm_compute; reflexivity. Qed.

(** C5, amended. The resolver returns what the tiers prescribe
    ([amount_by_tiers]): the first candidate of the keyword lines, a
    candidate being a pattern match whose amount parses; failing that,
    the first of the largest candidates of the bottom 30% of the page,
    provided its amount is positive; failing that, the first of the
    largest candidates of the whole document, provided its amount is
    positive; failing that, 0. When no pattern matches any line, the
    result is 0 with the currency detected for the document. *)
Theorem amount_resolver_tiers (sched : schedule) (textLines : list TextLine) :
  extractAmountFromPosition sched textLines = amount_by_tiers sched textLines /\
  (no_amount_match textLines = true ->
   extractAmountFromPosition sched textLines =
   (0%Q, detectDocumentCurrency sched textLines)).
Proof.
  split; [apply extract_amount_by_tiers|apply no_amount_match_result].
Qed.

Lemma amount_resolver_tiers_witness :
  extractAmountFromPosition [] [line_at "Thank you" 0 0] =
  (0%Q, detectDocumentCurrency [] [line_at "Thank you" 0 0]).
Proof.
  apply (proj2 (amount_resolver_tiers [] [line_at "Thank you" 0 0])).
  vm_compute. reflexivity.
Defined.

(** C6 fails on the code: the resolver tests [len(result) > 1], which
    counts bytes, and under [(?i)] the class [[A-Za-z0-9-]] accepts the
    long s and the Kelvin sign, single characters of two and three
    bytes. On the lines [inv ſ] and [inv K] the first pattern captures
    that one character and the resolver returns it. *)
Theorem single_character_invoice_number :
  (extractInvoiceNumberFromPosition one_long_s = long_s /\
   RuneCountInString (extractInvoiceNumberFromPosition one_long_s) = 1 /\
   len (extractInvoiceNumberFromPosition one_long_s) = 2) /\
  (extractInvoiceNumberFromPosition one_kelvin = kelvin /\
   RuneCountInString (extractInvoiceNumberFromPosition one_kelvin) = 1 /\
   len (extractInvoiceNumberFromPosition one_kelvin) = 3) /\
  first_capture InvoicePatterns.patterns ("inv " ++ long_s) = Some long_s.
Proof. vm_compute. repeat split. Qed.

(** What the test of the code does ensure is a length in bytes: the
    result of the resolver has at least two bytes (the sentinel has
    seven); on a line, the loop over the patterns returns the first
    trimmed capture longer than one byte and passes over the shorter
    ones; so the lines ["#7"] and ["Invoice"], whose only captures are
    ["7"] and ["e"], give the sentinel. *)
Theorem invoice_number_length :
  (forall textLines, 2 <= len (extractInvoiceNumberFromPosition textLines)) /\
  (forall text,
      first_capture InvoicePatterns.patterns text =
      find (fun r => 1 <? len r) (trimmed_captures InvoicePatterns.patterns text)) /\
  extractInvoiceNumberFromPosition [line_at "#7" 0 0] = UNKNOWN /\
  extractInvoiceNumberFromPosition [line_at "Invoice" 0 0] = UNKNOWN.
Proof.
  split; [|split; [|split; vm_compute; reflexivity]].
  - intros textLines. apply invoice_number_ok.
    + intros text r H. apply first_capture_length in H. lia.
    + intros text r H. apply (first_run_chars _ _ (alphanumeric_runs text)) in H. lia.
    + vm_compute. discriminate.
  - intros text. apply first_capture_find, invoice_patterns_one_group.
Qed.

(** C7, as stated, fails: no part of the bounding box ["a,b,c,d"] parses
    as an integer, and the line is materialised all the same, at
    (0, 0) with size (0, 0). *)
Lemma unparsed_box_is_materialized :
  (forall part, In part (Split "a,b,c,d" ",") -> snd (Atoi part) = Some ErrSyntax) /\
  extractTextFromOCRResult {| Regions := [{| Lines := [letters_box] |}] |} =
  [{| Text := []; X := 0; Y := 0; Width := 0; Height := 0 |}].
Proof.
  split; [|vm_compute; reflexivity].
  intros part H. vm_compute in H.
  repeat (destruct H as [<-|H]; [reflexivity|]). destruct H.
Qed.

(** C7, amended. A line is materialised exactly when its bounding box
    is present and has at least four comma-separated parts, that is at
    least three commas, whether the parts parse or not; every other
    line is left out, and the lines kept stay in the order of the OCR
    result. Each of the first four parts contributes the value [Atoi]
    returns for it, its error dropped: 0 with a syntax error, the
    nearest 64-bit bound with a range error. *)
Theorem line_normalizer_spec (result : OcrResult) :
  extractTextFromOCRResult result =
  flat_map (fun region =>
              flat_map (fun line =>
                          match BoundingBox line with
                          | Some box =>
                            if 3 <=? Count box "," then [materialized line box] else []
                          | None => []
                          end)
                       (Lines region))
           (Regions result) /\
  forall part,
    match snd (Atoi part) with
    | Some ErrSyntax => fst (Atoi part) = 0
    | Some ErrRange => fst (Atoi part) = max_int64 \/ fst (Atoi part) = min_int64
    | None => min_int64 <= fst (Atoi part) <= max_int64
    end.
Proof.
  split; [|exact Atoi_errors].
  unfold extractTextFromOCRResult. apply flat_map_ext. intros region.
  apply flat_map_ext. intros line. apply normalize_line_spec.
Qed.

(** C8 fails on the code: on the one-line document ["$ £"] the currency
    of the record is ["USD"] when the map of counts is visited in the
    order of its keys and ["GBP"] when the visit starts with the third
    key, so two runs on the same lines can give different records. The
    vendor name depends on the order of the map of domains in the same
    way: ["Abc"] or ["Xyz"] for a line with two web sites. *)
Theorem record_depends_on_map_order :
  Currency (parseInvoiceTextWithPosition in_order dollar_and_pound) = USD /\
  Currency (parseInvoiceTextWithPosition third_first dollar_and_pound) = GBP /\
  parseInvoiceTextWithPosition in_order dollar_and_pound <>
  parseInvoiceTextWithPosition third_first dollar_and_pound /\
  VendorName (parseInvoiceTextWithPosition in_order two_sites) = "Abc" /\
  VendorName (parseInvoiceTextWithPosition second_first two_sites) = "Xyz".
Proof. vm_compute. repeat split. discriminate. Qed.

(** C9. The amount the resolver returns is never negative, whichever
    tier it comes from; so neither is the total amount of the record. *)
Theorem total_amount_nonneg (rt : runtime) (textLines : list TextLine) :
  (0 <= fst (extractAmountFromPosition (currency_range rt) textLines))%Q /\
  (0 <= TotalAmount (parseInvoiceTextWithPosition rt textLines))%Q.
Proof.
  split; [apply extract_amount_nonneg|].
  unfold parseInvoiceTextWithPosition.
  pose proof (extract_amount_nonneg (currency_range rt) (GoSort.Slice by_Y textLines)) as H.
  destruct (extractAmountFromPosition _ _) as [amount currency]. exact H.
Qed.




(** * Lemmas for the further functions *)

(** ** Completeness of the matcher *)
Lemma run_Star {A : Type} (r1 : regex) (s : gostring) (c : caps)
    (k : gostring -> caps -> option A) :
  run (Star r1) s c k = star_loop r1 k (length s) s c.
Proof. reflexivity. Qed.

Lemma Lang_nullable (r : regex) (u : gostring) :
  Lang r u -> u = [] -> nullable r = true.
Proof.
  induction 1; intros E; simpl; auto; try discriminate.
  - apply app_eq_nil in E as [-> ->]. now rewrite IHLang1, IHLang2.
  - now rewrite IHLang.
  - rewrite IHLang by assumption. apply orb_true_r.
Qed.

Lemma Lang_ends_in (p : ascii -> bool) (r : regex) (u : gostring) :
  Lang r u -> ends_in p r = true ->
  u = [] \/ exists w a, u = w ++ [a] /\ p a = true.
Proof.
  induction 1; simpl; intros He; auto.
  - right. exists [], a. split; [reflexivity|].
    apply check_bytes_spec with (a := a) in He. rewrite H in He. exact He.
  - apply andb_true_iff in He as [He2 He1].
    destruct (IHLang2 He2) as [->|(w & a & -> & Ha)].
    + rewrite app_nil_r. apply orb_true_iff in He1 as [Hn|He1]; [|auto].
      rewrite (Lang_nullable _ _ H0 eq_refl) in Hn. discriminate.
    + right. exists (u ++ w), a. now rewrite app_assoc.
  - apply andb_true_iff in He as [He1 _]. auto.
  - apply andb_true_iff in He as [_ He2]. auto.
  - destruct (IHLang2 He) as [->|(w & a & -> & Ha)].
    + rewrite app_nil_r. auto.
    + right. exists (u ++ w), a. now rewrite app_assoc.
Qed.

Lemma run_ext {A : Type} (r : regex) :
  forall s c (k1 k2 : gostring -> caps -> option A),
    (forall s1 c1, k1 s1 c1 = k2 s1 c1) -> run r s c k1 = run r s c k2.
Proof.
  induction r as [|p|r1 IH1 r2 IH2|r1 IH1 r2 IH2|r1 IH1|n r1 IH1]; intros s c k1 k2 Hk; simpl.
  - apply Hk.
  - destruct s as [|a t]; [reflexivity|]. destruct (p a); [apply Hk|reflexivity].
  - apply IH1. intros s1 c1. now apply IH2.
  - rewrite (IH1 s c k1 k2 Hk), (IH2 s c k1 k2 Hk). reflexivity.
  - change (star_loop r1 k1 (length s) s c = star_loop r1 k2 (length s) s c).
    generalize (length s). intros fuel. revert s c.
    induction fuel as [|f IHf]; intros s c; [apply Hk|].
    cbn [star_loop].
    rewrite (IH1 s c _ (fun s1 c1 =>
               if (length s1 <? length s)%nat then star_loop r1 k2 f s1 c1 else None)).
    + now rewrite Hk.
    + intros s1 c1. destruct (length s1 <? length s)%nat; [apply IHf|reflexivity].
  - apply IH1. intros s1 c1. apply Hk.
Qed.

Lemma run_none {A : Type} (r : regex) (s : gostring) (c : caps) :
  run r s c (fun _ _ => @None A) = None.
Proof.
  revert s c. induction r as [|p|r1 IH1 r2 IH2|r1 IH1 r2 IH2|r1 IH1|n r1 IH1]; intros s c; simpl.
  - reflexivity.
  - destruct s as [|a t]; [reflexivity|]. now destruct (p a).
  - rewrite (run_ext r1 s c _ (fun _ _ => None)); [apply IH1|]. intros s1 c1. apply IH2.
  - now rewrite IH1, IH2.
  - change (star_loop r1 (fun _ _ => @None A) (length s) s c = None).
    generalize (length s). intros fuel. revert s c.
    induction fuel as [|f IHf]; intros s c; [reflexivity|].
    cbn [star_loop].
    rewrite (run_ext r1 s c _ (fun _ _ => None)); [now rewrite IH1|].
    intros s1 c1. destruct (length s1 <? length s)%nat; [apply IHf|reflexivity].
  - apply IH1.
Qed.

(** The loop stops by itself: fuel beyond the length of the text changes
    nothing. *)
Lemma star_loop_fuel {A : Type} (r1 : regex) (k : gostring -> caps -> option A) (n : nat) :
  forall s f1 f2 c,
    (length s <= n)%nat -> (length s <= f1)%nat -> (length s <= f2)%nat ->
    star_loop r1 k f1 s c = star_loop r1 k f2 s c.
Proof.
  induction n as [|n IH]; intros s f1 f2 c Hn H1 H2.
  - destruct s; [|simpl in Hn; lia].
    assert (H0 : forall f, star_loop r1 k f [] c = k [] c).
    { intros [|f]; [reflexivity|]. cbn [star_loop].
      rewrite (run_ext r1 [] c _ (fun _ _ => None)); [now rewrite run_none|].
      intros s1 c1. reflexivity. }
    now rewrite !H0.
  - destruct f1 as [|f1], f2 as [|f2]; try (destruct s; [|simpl in *; lia]).
    + reflexivity.
    + cbn [star_loop].
      rewrite (run_ext r1 [] c _ (fun _ _ => None)); [now rewrite run_none|].
      intros s1 c1. reflexivity.
    + cbn [star_loop].
      rewrite (run_ext r1 [] c _ (fun _ _ => None)); [now rewrite run_none|].
      intros s1 c1. reflexivity.
    + cbn [star_loop].
      rewrite (run_ext r1 s c _ (fun s1 c1 =>
                 if (length s1 <? length s)%nat then star_loop r1 k f2 s1 c1 else None));
        [reflexivity|].
      intros s1 c1. destruct (Nat.ltb_spec (length s1) (length s)); [|reflexivity].
      apply IH; lia.
Qed.

(** Completeness of the matcher: a word of the language in front of the
    text is found, whatever follows. *)
Lemma run_complete (r : regex) (u : gostring) :
  Lang r u ->
  forall (A : Type) s' c (k : gostring -> caps -> option A),
    (forall c', k s' c' <> None) -> run r (u ++ s') c k <> None.
Proof.
  induction 1; intros A s' c k Hk.
  - apply Hk.
  - simpl. rewrite H. apply Hk.
  - rewrite <- app_assoc. simpl. apply IHLang1. intros c'. now apply IHLang2.
  - simpl. specialize (IHLang A s' c k Hk). now destruct (run r1 (u ++ s') c k).
  - simpl. destruct (run r1 (u ++ s') c k); [discriminate|]. now apply IHLang.
  - rewrite run_Star. cbn [app]. destruct (length s'); cbn [star_loop]; [apply Hk|].
    match goal with |- match ?x with _ => _ end <> _ => destruct x end;
      [discriminate|apply Hk].
  - destruct u as [|a u]; [now apply IHLang2|].
    rewrite run_Star, <- app_assoc. cbn [app length star_loop].
    match goal with |- match ?x with _ => _ end <> _ => assert (Hx : x <> None) end.
    { apply (IHLang1 A (v ++ s') c). intros c'.
      assert (Hlen : (length (v ++ s') <= length (u ++ v ++ s'))%nat)
        by (rewrite (length_app u); lia).
      destruct (Nat.ltb_spec (length (v ++ s')) (S (length (u ++ v ++ s')))); [|lia].
      rewrite (star_loop_fuel r k (length (v ++ s')) _ _ (length (v ++ s'))) by lia.
      rewrite <- run_Star. now apply IHLang2. }
    match goal with |- match ?x with _ => _ end <> _ => destruct x end;
      [discriminate|contradiction].
  - simpl. apply IHLang. intros c'. apply Hk.
Qed.

Lemma match_at_complete (r : regex) (u post : gostring) :
  Lang r u -> match_at r (u ++ post) <> None.
Proof. intros H. unfold match_at. apply run_complete; [exact H|discriminate]. Qed.

Lemma find_from_complete (r : regex) (pre u post : gostring) :
  Lang r u -> find_from r (pre ++ u ++ post) <> None.
Proof.
  intros H. induction pre as [|a pre IH].
  - cbn [app]. pose proof (match_at_complete r u post H) as Hm.
    destruct (u ++ post); simpl; destruct (match_at r _) as [[? ?]|]; try discriminate;
      contradiction.
  - cbn [app find_from]. destruct (match_at r _) as [[? ?]|]; [discriminate|exact IH].
Qed.

(** ** A match is a piece of the text *)
Lemma groups_sat_True (r : regex) : groups_sat (fun _ _ => True) r.
Proof. induction r; simpl; auto. Qed.

Lemma find_from_occurs (r : regex) (s whole rest : gostring) (c : caps) :
  find_from r s = Some (whole, rest, c) -> Lang r whole /\ occurs_in whole s.
Proof.
  intros H. destruct (find_from_sound _ r (groups_sat_True r) _ _ _ _ H) as (HL & _ & pre & E).
  split; [exact HL|]. now exists pre, rest.
Qed.

Lemma find_from_none (r : regex) (s : gostring) :
  find_from r s = None <-> (forall u, Lang r u -> ~ occurs_in u s).
Proof.
  split.
  - intros H u HL (pre & post & ->). now apply (find_from_complete r pre u post HL).
  - intros H. destruct (find_from r s) as [[[whole rest] c]|] eqn:E; [|reflexivity].
    apply find_from_occurs in E as [HL Ho]. elim (H whole HL Ho).
Qed.

(** ** Date resolver: the tiers *)
Lemma streq_eq (s t : gostring) : streq s t = true <-> s = t.
Proof.
  revert t. induction s as [|a s IH]; intros [|b t]; simpl; try (split; (discriminate || reflexivity)).
  rewrite andb_true_iff, IH. split.
  - intros [Hab ->]. apply Ascii.eqb_eq in Hab. now subst.
  - intros [= -> ->]. split; [apply Ascii.eqb_refl|reflexivity].
Qed.

(** What the loop over the date patterns returns on a line. *)
Lemma first_date_some (pats : list pattern) (text m : gostring) :
  first_date pats text = Some m ->
  m <> [] /\ occurs_in m text /\ exists p, In p pats /\ Lang (MustCompile p) m.
Proof.
  induction pats as [|p pats IH]; simpl; [discriminate|].
  unfold FindString. destruct (find_from (MustCompile p) text) as [[[whole rest] c]|] eqn:E.
  - simpl. destruct (streq whole []) eqn:Hs; cbn [negb].
    + intros H. destruct (IH H) as (? & ? & q & ? & ?). eauto 6.
    + intros [= <-]. apply find_from_occurs in E as [HL Ho].
      split; [|eauto]. intros ->. discriminate.
  - cbn. intros H. destruct (IH H) as (? & ? & q & ? & ?). eauto 6.
Qed.

Lemma first_date_none (pats : list pattern) (text : gostring) :
  Forall (fun p => nullable (MustCompile p) = false) pats ->
  (first_date pats text = None <->
   forall p u, In p pats -> Lang (MustCompile p) u -> ~ occurs_in u text).
Proof.
  induction 1 as [|p pats Hp Hpats IH]; simpl; [tauto|].
  unfold FindString. destruct (find_from (MustCompile p) text) as [[[whole rest] c]|] eqn:E.
  - apply find_from_occurs in E as [HL Ho].
    assert (Hne : streq whole [] = false).
    { destruct (streq whole []) eqn:Hs; [|reflexivity]. apply streq_eq in Hs. subst.
      rewrite (Lang_nullable _ _ HL eq_refl) in Hp. discriminate. }
    simpl. rewrite Hne. cbn. split; [discriminate|]. intros H. elim (H p whole (or_introl eq_refl) HL Ho).
  - cbn. rewrite IH. pose proof (proj1 (find_from_none _ _) E) as E'. split.
    + intros H q u [<-|Hq]; [apply E'|now apply H].
    + intros H q u Hq. apply H. now right.
Qed.

Lemma date_patterns_nonempty :
  Forall (fun p => nullable (MustCompile p) = false) DatePatterns.patterns.
Proof. repeat constructor. Qed.

Lemma date_patterns_end_in_digit :
  Forall (fun p => ends_in is_digit (MustCompile p) = true) DatePatterns.patterns.
Proof. repeat constructor. Qed.

Lemma date_of_here (line : TextLine) (rest : list TextLine) (m : gostring) :
  first_date DatePatterns.patterns (Text line) = Some m -> date_of (line :: rest) m.
Proof.
  intros E. apply first_date_some in E as (Hne & Ho & p & Hp & HL).
  split; [exact Hne|]. exists line, p. repeat split; auto. now left.
Qed.

Lemma date_of_cons (line : TextLine) (rest : list TextLine) (m : gostring) :
  date_of rest m -> date_of (line :: rest) m.
Proof.
  intros (Hne & l & p & Hl & Hp & Ho & HL).
  split; [exact Hne|]. exists l, p. repeat split; auto. now right.
Qed.

Lemma date_anywhere_some (textLines : list TextLine) (m : gostring) :
  date_anywhere textLines = Some m -> date_of textLines m.
Proof.
  induction textLines as [|line rest IH]; cbn [date_anywhere]; [discriminate|].
  destruct (first_date _ _) eqn:E.
  - intros [= <-]. now apply date_of_here.
  - intros H. now apply date_of_cons, IH.
Qed.

Lemma date_top_half_some (t : Z) (textLines : list TextLine) (m : gostring) :
  date_top_half t textLines = Some m -> date_of textLines m.
Proof.
  induction textLines as [|line rest IH]; cbn [date_top_half]; [discriminate|].
  destruct (Y line <? t); [|intros H; now apply date_of_cons, IH].
  destruct (first_date _ _) eqn:E.
  - intros [= <-]. now apply date_of_here.
  - intros H. now apply date_of_cons, IH.
Qed.

Lemma date_keyword_lines_some (textLines : list TextLine) (m : gostring) :
  date_keyword_lines textLines = Some m -> date_of textLines m.
Proof.
  induction textLines as [|line rest IH]; cbn [date_keyword_lines]; [discriminate|].
  destruct (existsb _ _); [|intros H; now apply date_of_cons, IH].
  destruct (first_date _ _) eqn:E.
  - intros [= <-]. now apply date_of_here.
  - intros H. now apply date_of_cons, IH.
Qed.

Lemma date_anywhere_none (textLines : list TextLine) :
  date_anywhere textLines = None <->
  forall line p u, In line textLines -> In p DatePatterns.patterns ->
                   Lang (MustCompile p) u -> ~ occurs_in u (Text line).
Proof.
  induction textLines as [|line rest IH]; cbn [date_anywhere In]; [tauto|].
  destruct (first_date _ _) as [m|] eqn:E.
  - split; [discriminate|]. intros H.
    apply first_date_some in E as (_ & Ho & p & Hp & HL).
    elim (H line p m (or_introl eq_refl) Hp HL Ho).
  - rewrite IH. pose proof (proj1 (first_date_none _ _ date_patterns_nonempty) E) as E'. split.
    + intros H l p u [<-|Hl]; [now apply E'|now apply H].
    + intros H l p u Hl. apply H. now right.
Qed.

Lemma date_of_ends_in_digit (textLines : list TextLine) (m : gostring) :
  date_of textLines m -> exists w d, m = w ++ [d] /\ is_digit d = true.
Proof.
  intros (Hne & line & p & _ & Hp & _ & HL).
  pose proof date_patterns_end_in_digit as He. rewrite Forall_forall in He.
  destruct (Lang_ends_in _ _ _ HL (He p Hp)) as [->|H]; [contradiction|exact H].
Qed.

(** ** Captures are pieces of the match *)
Lemma occurs_in_app_l (txt u v : gostring) : occurs_in txt u -> occurs_in txt (u ++ v).
Proof.
  intros (pre & post & ->). exists pre, (post ++ v). now rewrite <- !app_assoc.
Qed.

Lemma occurs_in_app_r (txt u v : gostring) : occurs_in txt v -> occurs_in txt (u ++ v).
Proof.
  intros (pre & post & ->). exists (u ++ pre), post. now rewrite <- !app_assoc.
Qed.

Lemma occurs_in_refl (u : gostring) : occurs_in u u.
Proof. exists [], []. now rewrite app_nil_r. Qed.

Lemma occurs_in_trans (a b c : gostring) : occurs_in a b -> occurs_in b c -> occurs_in a c.
Proof.
  intros (p1 & q1 & ->) (p2 & q2 & ->). exists (p2 ++ p1), (q1 ++ q2).
  now rewrite <- !app_assoc.
Qed.

Lemma occurs_in_Forall (P : ascii -> Prop) (u s : gostring) :
  occurs_in u s -> Forall P s -> Forall P u.
Proof.
  intros (pre & post & ->) H. apply Forall_app in H as [_ H]. now apply Forall_app in H as [H _].
Qed.

(** The groups a match sets: each is a piece of the matched text, and
    the groups that every match sets are among them. *)
Lemma run_bindings {A : Type} (r : regex) :
  forall s c (k : gostring -> caps -> option A) x,
    run r s c k = Some x ->
    exists u s' d,
      s = u ++ s' /\ k s' (d ++ c) = Some x /\
      (forall n txt, In (n, txt) d -> occurs_in txt u) /\
      (forall n, binds n r = true -> exists txt, In (n, txt) d).
Proof.
  induction r as [|p|r1 IH1 r2 IH2|r1 IH1 r2 IH2|r1 IH1|m r1 IH1]; intros s c k x Hrun.
  - exists [], s, []. repeat split; auto; [intros ? ? []|discriminate].
  - simpl in Hrun. destruct s as [|a t]; [discriminate|].
    destruct (p a); [|discriminate].
    exists [a], t, []. repeat split; auto; [intros ? ? []|discriminate].
  - simpl in Hrun.
    destruct (IH1 _ _ _ _ Hrun) as (u1 & s1 & d1 & -> & Hk1 & Ho1 & Hb1).
    destruct (IH2 _ _ _ _ Hk1) as (u2 & s2 & d2 & -> & Hk2 & Ho2 & Hb2).
    exists (u1 ++ u2), s2, (d2 ++ d1). rewrite <- !app_assoc. repeat split; auto.
    + intros n txt Hin. apply in_app_or in Hin as [Hin|Hin].
      * apply occurs_in_app_r. eauto.
      * apply occurs_in_app_l. eauto.
    + intros n Hn. simpl in Hn. apply orb_true_iff in Hn as [Hn|Hn].
      * destruct (Hb1 n Hn) as (txt & Hin). exists txt. apply in_or_app. now right.
      * destruct (Hb2 n Hn) as (txt & Hin). exists txt. apply in_or_app. now left.
  - simpl in Hrun. destruct (run r1 s c k) eqn:H1.
    + injection Hrun as ->.
      destruct (IH1 _ _ _ _ H1) as (u & s' & d & -> & Hk & Ho & Hb).
      exists u, s', d. repeat split; auto.
      intros n Hn. simpl in Hn. apply andb_true_iff in Hn as [Hn _]. auto.
    + destruct (IH2 _ _ _ _ Hrun) as (u & s' & d & -> & Hk & Ho & Hb).
      exists u, s', d. repeat split; auto.
      intros n Hn. simpl in Hn. apply andb_true_iff in Hn as [_ Hn]. auto.
  - rewrite run_Star in Hrun. revert Hrun. generalize (length s). intros fuel.
    revert s c. induction fuel as [|f IHf]; intros s c Hrun; cbn [star_loop] in Hrun.
    + exists [], s, []. repeat split; auto; [intros ? ? []|discriminate].
    + match type of Hrun with
      | match ?scrut with _ => _ end = _ => destruct scrut eqn:H1
      end.
      * injection Hrun as ->.
        destruct (IH1 _ _ _ _ H1) as (u1 & s1 & d1 & -> & Hk1 & Ho1 & _).
        destruct (length s1 <? length (u1 ++ s1))%nat; [|discriminate].
        destruct (IHf _ _ Hk1) as (u2 & s2 & d2 & -> & Hk2 & Ho2 & _).
        exists (u1 ++ u2), s2, (d2 ++ d1). rewrite <- !app_assoc. repeat split; auto.
        -- intros n txt Hin. apply in_app_or in Hin as [Hin|Hin].
           ++ apply occurs_in_app_r. eauto.
           ++ apply occurs_in_app_l. eauto.
        -- discriminate.
      * exists [], s, []. repeat split; auto; [intros ? ? []|discriminate].
  - simpl in Hrun.
    destruct (IH1 _ _ _ _ Hrun) as (u & s' & d & -> & Hk & Ho & Hb).
    rewrite consumed_app in Hk.
    exists u, s', ((m, u) :: d). repeat split; auto.
    + intros n txt [[= <- <-]|Hin]; [apply occurs_in_refl|eauto].
    + intros n Hn. simpl in Hn. apply orb_true_iff in Hn as [Hn|Hn].
      * apply Nat.eqb_eq in Hn as ->. exists u. now left.
      * destruct (Hb n Hn) as (txt & Hin). exists txt. now right.
Qed.

Lemma find_from_bindings (r : regex) (s whole rest : gostring) (c : caps) :
  find_from r s = Some (whole, rest, c) ->
  (forall n txt, In (n, txt) c -> occurs_in txt whole) /\
  (forall n, binds n r = true -> exists txt, In (n, txt) c).
Proof.
  revert whole rest c.
  assert (Hat : forall s whole rest c,
             match_at r s = Some (rest, c) -> whole = consumed s rest ->
             (forall n txt, In (n, txt) c -> occurs_in txt whole) /\
             (forall n, binds n r = true -> exists txt, In (n, txt) c)).
  { clear. intros s whole rest c Hm ->. unfold match_at in Hm.
    destruct (run_bindings r _ _ _ _ Hm) as (u & s' & d & -> & [= <- <-] & Ho & Hb).
    rewrite consumed_app, app_nil_r. auto. }
  induction s as [|a s IH]; intros whole rest c Hf; simpl in Hf.
  - destruct (match_at r []) as [[rest' c']|] eqn:Hm; [|discriminate].
    injection Hf as <- <- <-. now apply (Hat _ _ _ _ Hm).
  - destruct (match_at r (a :: s)) as [[rest' c']|] eqn:Hm.
    + injection Hf as <- <- <-. now apply (Hat _ _ _ _ Hm).
    + now apply IH in Hf.
Qed.

Lemma lookup_In (n : nat) (c : caps) :
  (exists txt, In (n, txt) c) -> In (n, lookup n c) c.
Proof.
  induction c as [|[m t] c IH]; intros (txt & Hin); [destruct Hin|].
  simpl. destruct (Nat.eqb_spec n m) as [->|Hne]; [now left|].
  right. apply IH. destruct Hin as [[= -> ->]|Hin]; [contradiction|eauto].
Qed.

Lemma lookup_occurs (n : nat) (c : caps) (whole : gostring) :
  (forall m txt, In (m, txt) c -> occurs_in txt whole) -> occurs_in (lookup n c) whole.
Proof.
  intros H. induction c as [|[m t] c IH]; simpl.
  - exists [], whole. reflexivity.
  - destruct (Nat.eqb_spec n m) as [->|_]; [apply (H m); now left|].
    apply IH. intros k txt Hin. apply (H k). now right.
Qed.

(** Every element of the slice of a match is a piece of the text. *)
Lemma FindStringSubmatch_occurs (r : regex) (s : gostring) (n : nat) :
  occurs_in (nth n (FindStringSubmatch r s) []) s.
Proof.
  unfold FindStringSubmatch.
  destruct (find_from r s) as [[[whole rest] c]|] eqn:Hf.
  - destruct (find_from_occurs _ _ _ _ _ Hf) as [_ Hw].
    destruct (find_from_bindings _ _ _ _ _ Hf) as [Ho _].
    unfold submatches. destruct n as [|n]; [exact Hw|]. cbn [nth].
    destruct (Nat.lt_ge_cases n (num_groups r)) as [Hlt|Hge].
    + rewrite (nth_indep _ [] (lookup 0 c)) by now rewrite length_map, length_seq.
      rewrite (map_nth (fun k => lookup k c)), seq_nth by assumption.
      eapply occurs_in_trans; [|exact Hw]. now apply lookup_occurs.
    + rewrite nth_overflow by now rewrite length_map, length_seq.
      exists [], s. reflexivity.
  - destruct n; exists [], s; reflexivity.
Qed.

(** A group that every match sets holds a word of its language. *)
Lemma FindStringSubmatch_bound (G : nat -> gostring -> Prop) (r : regex) (s : gostring)
    (n : nat) :
  groups_sat G r -> binds (S n) r = true -> (S n <= num_groups r)%nat ->
  FindStringSubmatch r s <> [] ->
  G (S n) (nth (S n) (FindStringSubmatch r s) []).
Proof.
  intros Hg Hb Hn. unfold FindStringSubmatch.
  destruct (find_from r s) as [[[whole rest] c]|] eqn:Hf; [intros _|intros H; now elim H].
  destruct (find_from_sound G r Hg _ _ _ _ Hf) as (_ & Hc & _).
  destruct (find_from_bindings _ _ _ _ _ Hf) as [_ Hbind].
  unfold submatches. cbn [nth].
  rewrite (nth_indep _ [] (lookup 0 c)) by (rewrite length_map, length_seq; lia).
  rewrite (map_nth (fun k => lookup k c)), seq_nth by lia.
  apply Hc. apply lookup_In. now apply Hbind.
Qed.

(** ** The currency is a code *)
Lemma map_currency_code (currencySymbol currency : gostring) :
  is_code currency -> is_code (map_currency currencySymbol currency).
Proof.
  intros H. unfold map_currency.
  destruct (map_get currencyMap currencySymbol) as [mapped|] eqn:E; [|exact H].
  unfold currencyMap in E. cbn [map_get] in E.
  repeat match type of E with
         | (if ?b then _ else _) = _ => destruct b; [injection E as <-; unfold is_code; simpl; tauto|]
         end.
  discriminate.
Qed.

Lemma line_currency_code (text otherwise : gostring) :
  is_code otherwise -> is_code (line_currency text otherwise).
Proof.
  intros H. unfold line_currency, is_code.
  repeat match goal with |- context [if ?b then _ else _] => destruct b end;
    simpl; tauto.
Qed.

Lemma keyword_tagged_code (pats : list pattern) (text currency : gostring) :
  is_code currency -> flow_code (keyword_tagged pats text currency).
Proof.
  revert currency. induction pats as [|p pats IH]; intros currency H; cbn [keyword_tagged]; [exact H|].
  destruct (_ <? _)%nat; [|now apply IH].
  destruct (tagged_groups p _) as [amountStr currencySymbol].
  pose proof (map_currency_code currencySymbol currency H).
  destruct (parseAmount amountStr); [assumption|now apply IH].
Qed.

Lemma keyword_untagged_code (pats : list pattern) (text currency : gostring) :
  is_code currency -> flow_code (keyword_untagged pats text currency).
Proof.
  intros H. induction pats as [|p pats IH]; cbn [keyword_untagged]; [exact H|].
  destruct (_ <? _)%nat; [|exact IH].
  destruct (parseAmount _); [|exact IH]. now apply line_currency_code.
Qed.

Lemma keyword_lines_code (pats nocur : list pattern) (textLines : list TextLine)
    (currency : gostring) :
  is_code currency -> flow_code (keyword_lines pats nocur textLines currency).
Proof.
  revert currency. induction textLines as [|line rest IH]; intros currency H;
    cbn [keyword_lines]; [exact H|].
  destruct (has_amount_keyword line); [|now apply IH].
  pose proof (keyword_tagged_code pats (Text line) currency H) as H1.
  destruct (keyword_tagged pats (Text line) currency) as [r|cur1]; [exact H1|].
  pose proof (keyword_untagged_code nocur (Text line) cur1 H1) as H2.
  destruct (keyword_untagged nocur (Text line) cur1) as [r|cur2]; [exact H2|].
  now apply IH.
Qed.

Lemma zone_tagged_code (pats : list pattern) (text : gostring) (st : zone_state) :
  zone_code st -> zone_code (zone_tagged pats text st).
Proof.
  revert st. induction pats as [|p pats IH]; intros [[largest cur0] currency] [Hc Hl];
    cbn [zone_tagged]; [now split|].
  destruct (_ <? _)%nat; [|apply IH; now split].
  destruct (tagged_groups p _) as [amountStr currencySymbol].
  pose proof (map_currency_code currencySymbol currency Hc).
  destruct (parseAmount amountStr) as [amount|];
    [destruct (Qgtb amount largest)|]; apply IH; now split.
Qed.

Lemma zone_untagged_code (pats : list pattern) (text : gostring) (st : zone_state) :
  zone_code st -> zone_code (zone_untagged pats text st).
Proof.
  revert st. induction pats as [|p pats IH]; intros [[largest cur0] currency] [Hc Hl];
    cbn [zone_untagged]; [now split|].
  destruct (_ <? _)%nat; [|apply IH; now split].
  destruct (parseAmount _) as [amount|];
    [destruct (Qgtb amount largest)|]; apply IH; split; auto.
  intros _. now apply line_currency_code.
Qed.

Lemma zone_lines_code (pats nocur : list pattern) (t : Z) (textLines : list TextLine)
    (st : zone_state) :
  zone_code st -> zone_code (zone_lines pats nocur t textLines st).
Proof.
  revert st. induction textLines as [|line rest IH]; intros st H; cbn [zone_lines]; [exact H|].
  destruct (Y line >? t); [|now apply IH].
  now apply IH, zone_untagged_code, zone_tagged_code.
Qed.

Lemma anywhere_match_code (text currency : gostring) (st : Q * gostring) (m : list gostring) :
  is_code currency -> largest_code st -> largest_code (anywhere_match text currency st m).
Proof.
  intros Hc Hst. unfold anywhere_match. destruct st as [largest cur0].
  destruct (anywhere_groups m) as [amountStr currencySymbol].
  destruct (parseAmount amountStr) as [amount|]; [|exact Hst].
  destruct (Qgtb amount largest); [|exact Hst].
  intros _. cbn [snd].
  destruct (negb _); [now apply map_currency_code|now apply line_currency_code].
Qed.

Lemma anywhere_lines_code (any : pattern) (textLines : list TextLine) (currency : gostring) :
  is_code currency -> largest_code (anywhere_lines any textLines currency).
Proof.
  intros Hc. unfold anywhere_lines.
  assert (H0 : largest_code (0%Q, [])) by (intros H; discriminate).
  revert H0. generalize (0%Q, @nil ascii). 
  induction textLines as [|line rest IH]; intros st Hst; cbn [fold_left]; [exact Hst|].
  apply IH. revert st Hst.
  induction (FindAllStringSubmatch (MustCompile any) (Text line)) as [|m ms IHm];
    intros st Hst; cbn [fold_left]; [exact Hst|].
  now apply IHm, anywhere_match_code.
Qed.

Lemma detect_code (sched : schedule) (textLines : list TextLine) :
  is_code (detectDocumentCurrency sched textLines).
Proof.
  destruct (detect_spec sched textLines) as (H & _). unfold is_code. cbn [In].
  destruct H as [E | [E | E]]; rewrite E; auto.
Qed.

(** ** [extractVendorName] *)
Lemma vendor_lines_spec (lines : list gostring) (i : Z) :
  0 <= i ->
  vendor_lines i lines =
  option_map TrimSpace (find vendor_like (firstn (Z.to_nat (5 - i)) lines)).
Proof.
  revert i. induction lines as [|line rest IH]; intros i Hi.
  - now rewrite firstn_nil.
  - cbn [vendor_lines]. rewrite (IH (i + 1)) by lia.
    destruct (Z.ltb_spec i 5) as [Hlt|Hge].
    + replace (Z.to_nat (5 - i)) with (S (Z.to_nat (5 - (i + 1)))) by lia.
      cbn [firstn find].
      assert (E : vendor_like line =
                  (0 <? len line) && ((3 <? len (TrimSpace line)) &&
                  negb (Contains (ToLower (TrimSpace line)) "invoice")))
        by (unfold vendor_like; now rewrite andb_assoc).
      rewrite E. destruct (0 <? len line); cbn [andb]; [|reflexivity].
      now destruct (_ && _).
    + cbn [andb]. replace (Z.to_nat (5 - i)) with 0%nat by lia.
      replace (Z.to_nat (5 - (i + 1))) with 0%nat by lia. reflexivity.
Qed.

(** ** Inversion of the language of a pattern *)
Lemma Lang_Cls_inv (p : ascii -> bool) (u : gostring) :
  Lang (Cls p) u -> exists a, u = [a] /\ p a = true.
Proof. inversion 1; subst; eauto. Qed.

Lemma Lang_Seq_inv (r1 r2 : regex) (u : gostring) :
  Lang (Seq r1 r2) u -> exists u1 u2, u = u1 ++ u2 /\ Lang r1 u1 /\ Lang r2 u2.
Proof. inversion 1; subst; eauto. Qed.

Lemma Lang_Star_Cls (p : ascii -> bool) (u : gostring) :
  Lang (Star (Cls p)) u -> Forall (fun a => p a = true) u.
Proof.
  intros H. remember (Star (Cls p)) as r eqn:Er. induction H; try discriminate.
  - constructor.
  - injection Er as ->. apply Lang_Cls_inv in H as (a & -> & Ha).
    constructor; auto.
Qed.

Lemma Lang_plus_Cls (p : ascii -> bool) (u : gostring) :
  Lang (plus (Cls p)) u -> u <> [] /\ Forall (fun a => p a = true) u.
Proof.
  intros H. apply Lang_Seq_inv in H as (u1 & u2 & -> & H1 & H2).
  apply Lang_Cls_inv in H1 as (a & -> & Ha). apply Lang_Star_Cls in H2.
  split; [discriminate|]. constructor; auto.
Qed.

(** ** The text-based extractors *)
Lemma lower_fuel_no_upper (fuel : nat) (s : gostring) :
  Forall (fun a => is_upper a = false) (lower_fuel fuel s).
Proof.
  revert s. induction fuel as [|f IH]; intros s; [constructor|].
  destruct s as [|a t]; [constructor|]. cbn [lower_fuel].
  destruct (HasPrefix (a :: t) dotted_I); [constructor; [reflexivity|apply IH]|].
  destruct (HasPrefix (a :: t) kelvin); [constructor; [reflexivity|apply IH]|].
  constructor; [|apply IH].
  apply negb_true_iff.
  exact (check_bytes_spec (fun a => negb (is_upper (ascii_lower a))) eq_refl a).
Qed.

Lemma ToLower_no_upper (s : gostring) : Forall (fun a => is_upper a = false) (ToLower s).
Proof. apply lower_fuel_no_upper. Qed.

(** The captures of the patterns of [extractInvoiceNumber]. *)
Lemma invoicePatterns_groups :
  Forall (fun p =>
            groups_sat (fun _ txt => txt <> [] /\ Forall (fun a => invoice_char a = true) txt)
                       (MustCompile p) /\
            binds 1 (MustCompile p) = true /\ num_groups (MustCompile p) = 1%nat)
         TextPatterns.invoicePatterns.
Proof.
  assert (Ht : groups_sat (fun _ txt => txt <> [] /\ Forall (fun a => invoice_char a = true) txt)
                          TextPatterns.token).
  { split; [|simpl; tauto]. intros txt. apply Lang_plus_Cls. }
  repeat constructor; simpl; auto; try apply Ht; auto.
Qed.

Lemma first_submatch_shape (pats : list pattern) (text number : gostring) :
  Forall (fun p =>
            groups_sat (fun _ txt => txt <> [] /\ Forall (fun a => invoice_char a = true) txt)
                       (MustCompile p) /\
            binds 1 (MustCompile p) = true /\ num_groups (MustCompile p) = 1%nat) pats ->
  first_submatch pats text = Some number ->
  number <> [] /\ Forall (fun a => invoice_char a = true) number /\
  occurs_in number (ToLower text).
Proof.
  induction 1 as [|p pats (Hg & Hb & Hn) _ IH]; cbn [first_submatch]; [discriminate|].
  destruct (Nat.ltb_spec 1 (length (FindStringSubmatch (MustCompile p) (ToLower text))))
    as [Hlen|_]; [|exact IH].
  intros [= <-].
  assert (Hne : FindStringSubmatch (MustCompile p) (ToLower text) <> [])
    by (intros E; rewrite E in Hlen; simpl in Hlen; lia).
  destruct (FindStringSubmatch_bound _ _ (ToLower text) 0 Hg Hb ltac:(lia) Hne) as [H1 H2].
  repeat split; auto. apply FindStringSubmatch_occurs.
Qed.

(** *** [extractAmount] *)
Lemma Lang_times2_dg (u : gostring) :
  Lang (times 2 dg) u -> exists d1 d2, u = [d1; d2] /\ is_digit d1 = true /\ is_digit d2 = true.
Proof.
  intros H. apply Lang_Seq_inv in H as (u1 & u2 & -> & H1 & H2).
  apply Lang_Cls_inv in H1 as (d1 & -> & Hd1). apply Lang_Cls_inv in H2 as (d2 & -> & Hd2).
  now exists d1, d2.
Qed.

Lemma Lang_decimal (txt : gostring) :
  Lang (seqs [plus dg; sep; times 2 dg]) txt -> two_decimals txt.
Proof.
  intros H. cbn [seqs] in H.
  apply Lang_Seq_inv in H as (ds & u & -> & Hds & H).
  apply Lang_Seq_inv in H as (u1 & u2 & -> & Hsp & H2).
  apply Lang_plus_Cls in Hds as [Hne Hds].
  apply Lang_Cls_inv in Hsp as (sp & -> & Hsp).
  apply Lang_times2_dg in H2 as (d1 & d2 & -> & Hd1 & Hd2).
  exists ds, sp, d1, d2. repeat split; auto.
  unfold one_of in Hsp. cbn [existsb list_ascii_of_string] in Hsp.
  rewrite orb_false_r in Hsp. apply orb_true_iff in Hsp as [E|E];
    apply Ascii.eqb_eq in E; auto.
Qed.

Lemma amountPatterns_groups :
  Forall (fun p =>
            groups_sat (fun _ txt => two_decimals txt) (MustCompile p) /\
            binds 1 (MustCompile p) = true /\ num_groups (MustCompile p) = 1%nat)
         TextPatterns.amountPatterns.
Proof.
  assert (Ht : groups_sat (fun _ txt => two_decimals txt) TextPatterns.decimal).
  { split; [|simpl; tauto]. intros txt. apply Lang_decimal. }
  repeat constructor; simpl; auto; try apply Ht; auto.
Qed.

Lemma span_digits_app (ds rest : gostring) :
  Forall (fun a => is_digit a = true) ds -> is_digit (hd " "%char rest) = false ->
  span_digits (ds ++ rest) = (ds, rest).
Proof.
  intros Hds Hrest. induction Hds as [|d ds Hd _ IH]; cbn [app span_digits].
  - destruct rest as [|a t]; [reflexivity|]. cbn [hd] in Hrest. cbn [span_digits].
    now rewrite Hrest.
  - now rewrite Hd, IH.
Qed.

Lemma digit_not_sign (d : ascii) (t : gostring) :
  is_digit d = true -> split_sign (d :: t) = (false, d :: t).
Proof.
  intros Hd. unfold split_sign.
  destruct d as [[] [] [] [] [] [] [] []]; try reflexivity; discriminate.
Qed.

(** A decimal number in plain notation is read as it is written. *)
Lemma ParseFloat_decimal (ip fp : gostring) :
  ip <> [] -> Forall (fun a => is_digit a = true) ip ->
  Forall (fun a => is_digit a = true) fp ->
  ParseFloat (ip ++ "." ++ fp) =
  binary64_of (digits_val 0 (ip ++ fp)) (10 ^ Z.of_nat (length fp)).
Proof.
  intros Hne Hip Hfp. unfold ParseFloat.
  destruct ip as [|d ip]; [contradiction|]. cbn [app].
  inversion Hip as [|? ? Hd Hip']; subst.
  rewrite (digit_not_sign d _ Hd).
  change (d :: ip ++ list_ascii_of_string "." ++ fp)
    with ((d :: ip) ++ "."%char :: fp).
  rewrite (span_digits_app (d :: ip) ("."%char :: fp) Hip eq_refl).
  replace (span_digits fp) with (fp, @nil ascii).
  - cbn [app]. now destruct (binary64_of _ _).
  - symmetry. rewrite <- (app_nil_r fp) at 1. now apply span_digits_app.
Qed.

Lemma digit_not_comma (d : ascii) : is_digit d = true -> (d =? ",")%char = false.
Proof. intros Hd. destruct (Ascii.eqb_spec d ","%char) as [->|_]; [discriminate|reflexivity]. Qed.

Lemma Replace_decimal (ds : gostring) (sp d1 d2 : ascii) :
  Forall (fun a => is_digit a = true) ds ->
  sp = "."%char \/ sp = ","%char -> is_digit d1 = true -> is_digit d2 = true ->
  Replace (ds ++ [sp; d1; d2]) "," "." 1 = ds ++ "." ++ [d1; d2].
Proof.
  intros Hds Hsp Hd1 Hd2. unfold Replace. cbn [Z.ltb Z.compare].
  change (Z.to_nat 1) with 1%nat.
  assert (H : forall fuel, (length (ds ++ [sp; d1; d2]) <= fuel)%nat ->
                           replace_first_fuel fuel 1 (ds ++ [sp; d1; d2]) "," "." =
                           ds ++ "." ++ [d1; d2]); [|now apply H].
  induction Hds as [|d ds Hd _ IH]; intros fuel Hfuel.
  - cbn [app length] in *. destruct fuel as [|[|[|fuel]]]; try lia.
    cbn [replace_first_fuel HasPrefix list_ascii_of_string].
    rewrite (digit_not_comma d1 Hd1), (digit_not_comma d2 Hd2).
    destruct Hsp as [->| ->]; cbn; [now destruct fuel|reflexivity].
  - cbn [app length] in *. destruct fuel as [|fuel]; [lia|].
    cbn [replace_first_fuel HasPrefix list_ascii_of_string].
    rewrite (digit_not_comma d Hd). cbn [andb]. f_equal. apply IH. lia.
Qed.

Lemma filter_two_decimals (ds : gostring) (sp d1 d2 : ascii) :
  Forall (fun a => is_digit a = true) ds ->
  sp = "."%char \/ sp = ","%char -> is_digit d1 = true -> is_digit d2 = true ->
  filter is_digit (ds ++ [sp; d1; d2]) = ds ++ [d1; d2].
Proof.
  intros Hds Hsp Hd1 Hd2. rewrite filter_app. f_equal.
  - apply forallb_filter_id. now apply forallb_forall, Forall_forall.
  - cbn [filter]. rewrite Hd1, Hd2. now destruct Hsp as [-> | ->].
Qed.

Lemma first_amount_spec (pats : list pattern) (text : gostring) :
  Forall (fun p =>
            groups_sat (fun _ txt => two_decimals txt) (MustCompile p) /\
            binds 1 (MustCompile p) = true /\ num_groups (MustCompile p) = 1%nat) pats ->
  match first_amount pats text with
  | None => forall p, In p pats -> no_amount p text
  | Some val =>
    exists before p after ds sp d1 d2,
      pats = before ++ p :: after /\
      (forall q, In q before -> no_amount q text) /\
      nth 1 (FindStringSubmatch (MustCompile p) (ToLower text)) [] = ds ++ [sp; d1; d2] /\
      ds <> [] /\ Forall (fun a => is_digit a = true) ds /\
      (sp = "."%char \/ sp = ","%char) /\ is_digit d1 = true /\ is_digit d2 = true /\
      binary64_of (digits_val 0 (ds ++ [d1; d2])) 100 = Some val
  end.
Proof.
  induction 1 as [|p pats (Hg & Hb & Hn) _ IH]; cbn [first_amount]; [intros p []|].
  assert (Hnext :
            no_amount p text ->
            match first_amount pats text with
            | None => forall q, In q (p :: pats) -> no_amount q text
            | Some val =>
              exists before p0 after ds sp d1 d2,
                p :: pats = before ++ p0 :: after /\
                (forall q, In q before -> no_amount q text) /\
                nth 1 (FindStringSubmatch (MustCompile p0) (ToLower text)) [] =
                ds ++ [sp; d1; d2] /\
                ds <> [] /\ Forall (fun a => is_digit a = true) ds /\
                (sp = "."%char \/ sp = ","%char) /\ is_digit d1 = true /\
                is_digit d2 = true /\
                binary64_of (digits_val 0 (ds ++ [d1; d2])) 100 = Some val
            end).
  { intros Hp. destruct (first_amount pats text) as [val|].
    - destruct IH as (before & p0 & after & ds & sp & d1 & d2 & -> & Hbefore & H).
      exists (p :: before), p0, after, ds, sp, d1, d2. split; [reflexivity|].
      split; [|exact H]. intros q [<-|Hq]; auto.
    - intros q [<-|Hq]; auto. }
  destruct (Nat.ltb_spec 1 (length (FindStringSubmatch (MustCompile p) (ToLower text))))
    as [Hlen|Hlen].
  - assert (Hne : FindStringSubmatch (MustCompile p) (ToLower text) <> [])
      by (intros E; rewrite E in Hlen; simpl in Hlen; lia).
    destruct (FindStringSubmatch_bound _ _ (ToLower text) 0 Hg Hb ltac:(lia) Hne)
      as (ds & sp & d1 & d2 & Ec & Hds0 & Hds & Hsp & Hd1 & Hd2).
    rewrite Ec, Replace_decimal by assumption.
    rewrite ParseFloat_decimal by (auto; repeat constructor; auto).
    change (10 ^ Z.of_nat (length [d1; d2])) with 100.
    destruct (binary64_of (digits_val 0 (ds ++ [d1; d2])) 100) as [q|] eqn:Eq.
    + exists [], p, pats, ds, sp, d1, d2. split; [reflexivity|].
      split; [intros q' []|]. repeat split; auto.
    + apply Hnext. right. unfold hundredths. rewrite Ec, filter_two_decimals; auto.
  - apply Hnext. left.
    destruct (FindStringSubmatch_length (MustCompile p) (ToLower text)) as [E|E]; [exact E|].
    rewrite E, Hn in Hlen. lia.
Qed.

(** *** [extractDate] *)
Lemma datePatterns_nonempty :
  Forall (fun p => nullable (MustCompile p) = false) TextPatterns.datePatterns.
Proof. repeat constructor. Qed.

Lemma datePatterns_end_in_digit :
  Forall (fun p => ends_in is_digit (MustCompile p) = true) TextPatterns.datePatterns.
Proof. repeat constructor. Qed.

(** ** Sorting by insertion *)
Section InsertionFacts.
Context {A : Type} (less : A -> A -> bool).

Lemma insert_left_perm (x : A) (l : list A) :
  Permutation (GoSort.insert_left less x l) (x :: l).
Proof.
  induction l as [|y l IH]; cbn [GoSort.insert_left]; [reflexivity|].
  destruct (less x y); [|reflexivity].
  rewrite IH. apply perm_swap.
Qed.

Lemma Slice_perm (data : list A) : Permutation (GoSort.Slice less data) data.
Proof.
  unfold GoSort.Slice. rewrite <- Permutation_rev.
  assert (H : forall acc,
             Permutation (fold_left (fun sorted_rev x => GoSort.insert_left less x sorted_rev)
                                    data acc)
                         (data ++ acc)).
  { induction data as [|x data IH]; intros acc; cbn [fold_left app]; [reflexivity|].
    rewrite IH, insert_left_perm. symmetry. apply Permutation_middle. }
  rewrite H. now rewrite app_nil_r.
Qed.

Lemma Slice_In (data : list A) (x : A) : In x (GoSort.Slice less data) <-> In x data.
Proof.
  split; apply Permutation_in; [apply Slice_perm|symmetry; apply Slice_perm].
Qed.
End InsertionFacts.

(** *** Sorting by a key *)
Lemma StronglySorted_snoc {A : Type} (R : A -> A -> Prop) (l : list A) (a : A) :
  StronglySorted R l -> Forall (fun b => R b a) l -> StronglySorted R (l ++ [a]).
Proof.
  induction 1 as [|b l Hl IH Hb]; intros Ha; cbn [app].
  - repeat constructor.
  - inversion Ha as [|? ? Hba Ha']; subst. constructor; [now apply IH|].
    apply Forall_app. split; [exact Hb|]. now constructor.
Qed.

Lemma StronglySorted_rev {A : Type} (R : A -> A -> Prop) (l : list A) :
  StronglySorted (fun a b => R b a) l -> StronglySorted R (rev l).
Proof.
  induction 1 as [|b l Hl IH Hb]; cbn [rev]; [constructor|].
  apply StronglySorted_snoc; [exact IH|]. apply Forall_rev. exact Hb.
Qed.

Section SortedByKey.
Context {A : Type} (key : A -> Z).

Lemma insert_left_sorted (x : A) (l : list A) :
  StronglySorted (fun a b => key b <= key a) l ->
  StronglySorted (fun a b => key b <= key a) (GoSort.insert_left (by_key key) x l).
Proof.
  induction 1 as [|y l Hl IH Hy]; cbn [GoSort.insert_left]; [repeat constructor|].
  unfold by_key at 1. destruct (Z.ltb_spec (key x) (key y)) as [Hlt|Hge].
  - constructor; [exact IH|].
    rewrite Forall_forall in *. intros a Ha.
    apply (Permutation_in _ (insert_left_perm (by_key key) x l)) in Ha as [<-|Ha]; [lia|auto].
  - constructor; [now constructor|]. constructor; [exact Hge|].
    eapply Forall_impl; [|exact Hy]. cbv beta. intros a Ha. lia.
Qed.

(** The slice comes out in the order of the keys. *)
Lemma Slice_sorted (data : list A) :
  StronglySorted (fun a b => key a <= key b) (GoSort.Slice (by_key key) data).
Proof.
  unfold GoSort.Slice. apply StronglySorted_rev.
  assert (H : forall acc, StronglySorted (fun a b => key b <= key a) acc ->
                          StronglySorted (fun a b => key b <= key a)
                            (fold_left (fun sorted_rev x => GoSort.insert_left (by_key key) x sorted_rev)
                                       data acc)).
  { induction data as [|x data IH]; intros acc Hacc; cbn [fold_left]; [exact Hacc|].
    now apply IH, insert_left_sorted. }
  apply H. constructor.
Qed.

(** Two slices in the order of the keys, with the same elements and no
    key twice, are equal. *)
Lemma sorted_by_key_unique (l1 l2 : list A) :
  StronglySorted (fun a b => key a <= key b) l1 ->
  StronglySorted (fun a b => key a <= key b) l2 ->
  Permutation l1 l2 -> NoDup (map key l1) -> l1 = l2.
Proof.
  intros H1. revert l2. induction H1 as [|a l1 Hl1 IH Ha]; intros l2 H2 Hp Hnd.
  - now apply Permutation_nil in Hp.
  - destruct H2 as [|b l2 Hl2 Hb].
    + symmetry in Hp. now apply Permutation_nil_cons in Hp.
    + cbn [map] in Hnd. inversion Hnd as [|? ? Hnotin Hnd']; subst.
      assert (a = b).
      { assert (Hab : In a (b :: l2)) by (apply (Permutation_in _ Hp); now left).
        assert (Hba : In b (a :: l1)) by (apply (Permutation_in _ (Permutation_sym Hp)); now left).
        rewrite Forall_forall in Ha, Hb.
        destruct Hab as [->|Hab]; [reflexivity|]. destruct Hba as [<-|Hba]; [reflexivity|].
        specialize (Ha b Hba). specialize (Hb a Hab).
        elim Hnotin. replace (key a) with (key b) by lia. now apply in_map. }
      subst b. f_equal. apply IH; auto. now apply Permutation_cons_inv in Hp.
Qed.
End SortedByKey.

(** ** The vendor name resolver of [main.go] *)
(** The invariant of the loop that keeps the longest line. *)
Lemma longest_step_fold (lines : list TextLine) (st : gostring * Z) :
  snd st = len (fst st) ->
  (fst st = [] \/ TopLines.is_name (fst st) = true) ->
  let st' := fold_left TopLines.longest_step lines st in
  snd st' = len (fst st') /\
  (fst st' = fst st \/
   exists line, In line lines /\ fst st' = TrimSpace (Text line)) /\
  (fst st' = [] \/ TopLines.is_name (fst st') = true) /\
  len (fst st) <= len (fst st') /\
  (forall line, In line lines -> TopLines.is_name (TrimSpace (Text line)) = true ->
                len (TrimSpace (Text line)) <= len (fst st')).
Proof.
  revert st. cbv zeta.
  induction lines as [|line rest IH]; intros [txt n] Hn Hv; cbn [fold_left fst snd] in *.
  - split; [exact Hn|]. split; [now left|]. split; [exact Hv|]. split; [lia|]. intros ? [].
  - assert (E : TopLines.longest_step (txt, n) line =
                if TopLines.is_name (TrimSpace (Text line))
                then if len (TrimSpace (Text line)) >? n
                     then (TrimSpace (Text line), len (TrimSpace (Text line)))
                     else (txt, n)
                else (txt, n)) by reflexivity.
    rewrite E. clear E.
    destruct (TopLines.is_name (TrimSpace (Text line))) eqn:Hname.
    + destruct (Z.gtb_spec (len (TrimSpace (Text line))) n) as [Hgt|Hle].
      * destruct (IH (TrimSpace (Text line), len (TrimSpace (Text line))) eq_refl
                     (or_intror Hname)) as (H1 & H2 & H3 & H4 & H5).
        cbn [fst snd] in *.
        split; [exact H1|]. split; [|split; [exact H3|split; [lia|]]].
        -- right. destruct H2 as [E|(l & Hl & E)];
             [exists line; split; [now left|exact E]|exists l; split; [now right|exact E]].
        -- intros l [<-|Hl] Hl'; auto.
      * destruct (IH (txt, n) Hn Hv) as (H1 & H2 & H3 & H4 & H5).
        cbn [fst snd] in *.
        split; [exact H1|]. split; [|split; [exact H3|split; [lia|]]].
        -- destruct H2 as [E|(l & Hl & E)]; [now left|right; exists l; split; [now right|exact E]].
        -- intros l [<-|Hl] Hl'; [lia|auto].
    + destruct (IH (txt, n) Hn Hv) as (H1 & H2 & H3 & H4 & H5).
      cbn [fst snd] in *.
      split; [exact H1|]. split; [|split; [exact H3|split; [lia|]]].
      * destruct H2 as [E|(l & Hl & E)]; [now left|right; exists l; split; [now right|exact E]].
      * intros l [<-|Hl] Hl'; [congruence|auto].
Qed.

Lemma is_name_long (text : gostring) : TopLines.is_name text = true -> 3 < len text.
Proof.
  unfold TopLines.is_name. rewrite !andb_true_iff. intros [[[[[H _] _] _] _] _]. now apply Z.ltb_lt.
Qed.

(** ** The invoice number resolver that looks for a label *)
Lemma Lang_times_Cls (p : ascii -> bool) (n : nat) (u : gostring) :
  Lang (times n (Cls p)) u -> length u = n /\ Forall (fun a => p a = true) u.
Proof.
  revert u. induction n as [|[|n] IH]; intros u H.
  - inversion H; subst. split; [reflexivity|constructor].
  - apply Lang_Cls_inv in H as (a & -> & Ha). split; [reflexivity|]. now constructor.
  - change (times (S (S n)) (Cls p)) with (Seq (Cls p) (times (S n) (Cls p))) in H.
    apply Lang_Seq_inv in H as (u1 & u2 & -> & H1 & H2).
    apply Lang_Cls_inv in H1 as (a & -> & Ha). apply IH in H2 as [Hl Hf].
    cbn [app length]. split; [now rewrite Hl|now constructor].
Qed.

Lemma Lang_at_least_Cls (p : ascii -> bool) (n : nat) (u : gostring) :
  Lang (at_least n (Cls p)) u -> (n <= length u)%nat /\ Forall (fun a => p a = true) u.
Proof.
  intros H. apply Lang_Seq_inv in H as (u1 & u2 & -> & H1 & H2).
  apply Lang_times_Cls in H1 as [Hl H1]. apply Lang_Star_Cls in H2.
  rewrite length_app. split; [lia|]. apply Forall_app. now split.
Qed.

Lemma digits_submatch (text : gostring) :
  (0 < length (FindStringSubmatch (MustCompile NumberLabel.digits) text))%nat ->
  let r := nth 1 (FindStringSubmatch (MustCompile NumberLabel.digits) text) [] in
  5 <= len r /\ Forall (fun a => is_digit a = true) r /\ occurs_in r text.
Proof.
  intros Hlen. cbv zeta.
  assert (Hne : FindStringSubmatch (MustCompile NumberLabel.digits) text <> [])
    by (intros E; rewrite E in Hlen; simpl in Hlen; lia).
  assert (Hg : groups_sat (fun _ txt => (5 <= length txt)%nat /\
                                        Forall (fun a => is_digit a = true) txt)
                          (MustCompile NumberLabel.digits)).
  { split; [|simpl; tauto]. intros txt. apply Lang_at_least_Cls. }
  destruct (FindStringSubmatch_bound _ _ text 0 Hg eq_refl (le_n 1) Hne) as [H5 Hd].
  split; [unfold len; lia|]. split; [exact Hd|]. apply FindStringSubmatch_occurs.
Qed.

Lemma near_label_number (numberLine : TextLine) (textLines : list TextLine) (r : gostring) :
  NumberLabel.near_label numberLine textLines = Some r -> long_number textLines r.
Proof.
  induction textLines as [|line rest IH]; cbn [NumberLabel.near_label]; [discriminate|].
  assert (Hrest : NumberLabel.near_label numberLine rest = Some r -> long_number (line :: rest) r).
  { intros H. destruct (IH H) as (H5 & Hd & l & Hl & Ho).
    repeat split; auto. exists l. split; [now right|exact Ho]. }
  destruct (_ && _); [|exact Hrest]. destruct (_ && _); [|exact Hrest].
  destruct (Nat.ltb_spec 0 (length (FindStringSubmatch (MustCompile NumberLabel.digits) (Text line))))
    as [Hlen|_]; [|exact Hrest].
  intros [= <-]. destruct (digits_submatch _ Hlen) as (H5 & Hd & Ho).
  repeat split; auto. exists line. split; [now left|exact Ho].
Qed.

Lemma docket_lines_number (textLines : list TextLine) (r : gostring) :
  NumberLabel.docket_lines textLines = Some r -> long_number textLines r.
Proof.
  induction textLines as [|line rest IH]; cbn [NumberLabel.docket_lines]; [discriminate|].
  assert (Hrest : NumberLabel.docket_lines rest = Some r -> long_number (line :: rest) r).
  { intros H. destruct (IH H) as (H5 & Hd & l & Hl & Ho).
    repeat split; auto. exists l. split; [now right|exact Ho]. }
  destruct (_ || _); [|exact Hrest].
  destruct (Nat.ltb_spec 0 (length (FindStringSubmatch (MustCompile NumberLabel.digits) (Text line))))
    as [Hlen|_]; [|exact Hrest].
  intros [= <-]. destruct (digits_submatch _ Hlen) as (H5 & Hd & Ho).
  repeat split; auto. exists line. split; [now left|exact Ho].
Qed.

(** ** Sorted slices *)
Lemma sort_Ints_sorted (a : list Z) : StronglySorted Z.le (sort_Ints a).
Proof. exact (Slice_sorted (fun z => z) a). Qed.

Lemma sort_Ints_perm (a : list Z) : Permutation (sort_Ints a) a.
Proof. apply Slice_perm. Qed.

(** Two sorted slices of integers with the same elements are equal. *)
Lemma sorted_unique (l1 l2 : list Z) :
  StronglySorted Z.le l1 -> StronglySorted Z.le l2 -> Permutation l1 l2 -> l1 = l2.
Proof.
  intros H1. revert l2. induction H1 as [|a l1 Hl1 IH Ha]; intros l2 H2 Hp.
  - now apply Permutation_nil in Hp.
  - destruct H2 as [|b l2 Hl2 Hb].
    + symmetry in Hp. now apply Permutation_nil_cons in Hp.
    + assert (a = b).
      { assert (Hab : In a (b :: l2)) by (apply (Permutation_in _ Hp); now left).
        assert (Hba : In b (a :: l1)) by (apply (Permutation_in _ (Permutation_sym Hp)); now left).
        rewrite Forall_forall in Ha, Hb.
        destruct Hab as [->|Hab]; [reflexivity|]. destruct Hba as [<-|Hba]; [reflexivity|].
        specialize (Ha b Hba). specialize (Hb a Hab). lia. }
      subst b. f_equal. apply IH; [exact Hl2|]. now apply Permutation_cons_inv in Hp.
Qed.

Lemma nth_split_at {A : Type} (l : list A) (i : nat) (d : A) :
  (i < length l)%nat -> l = firstn i l ++ nth i l d :: skipn (S i) l.
Proof.
  revert i. induction l as [|y l IH]; intros [|i] H; simpl in *; try lia; [reflexivity|].
  f_equal. apply IH. lia.
Qed.

Lemma range_order_perm {A : Type} (sched : schedule) (entries : list A) :
  Permutation (range_order sched entries) entries.
Proof.
  revert entries. induction sched as [|n sched IH]; intros [|e0 l]; try reflexivity.
  cbn [range_order].
  set (i := (n mod length (e0 :: l))%nat).
  assert (Hi : (i < length (e0 :: l))%nat) by (apply Nat.mod_upper_bound; discriminate).
  rewrite IH. rewrite (nth_split_at (e0 :: l) i e0 Hi) at 4.
  apply Permutation_middle.
Qed.

(** ** Lines that lie close together *)
Lemma intmap_set_keys (m : intmap) (k g : Z) (v : bool) :
  In g (map fst (intmap_set m k v)) <-> In g (map fst m) \/ g = k.
Proof.
  induction m as [|[k0 w] m IH]; cbn [intmap_set map fst In].
  - intuition.
  - destruct (Z.eqb_spec k0 k) as [->|Hne]; cbn [map fst In]; [intuition|].
    rewrite IH. tauto.
Qed.

Lemma intmap_set_true (m : intmap) (k : Z) :
  Forall (fun e => snd e = true) m -> Forall (fun e => snd e = true) (intmap_set m k true).
Proof.
  induction 1 as [|[k0 w] m Hw Hm IH]; cbn [intmap_set]; [repeat constructor|].
  destruct (k0 =? k); constructor; auto.
Qed.

Lemma consolidate_from_keys (threshold : Z) (positions : list Z) (cur g : Z) (m : intmap) :
  In g (map fst (consolidate_from threshold positions cur m)) <->
  In g (map fst m) \/ In g (leaders threshold cur positions).
Proof.
  revert cur m. induction positions as [|pos rest IH]; intros cur m;
    cbn [consolidate_from leaders]; [cbn [In]; tauto|].
  destruct (wrap64 (pos - cur) >? threshold).
  - rewrite IH, intmap_set_keys. cbn [In]. intuition.
  - apply IH.
Qed.

Lemma consolidate_from_true (threshold : Z) (positions : list Z) (cur : Z) (m : intmap) :
  Forall (fun e => snd e = true) m ->
  Forall (fun e => snd e = true) (consolidate_from threshold positions cur m).
Proof.
  revert cur m. induction positions as [|pos rest IH]; intros cur m Hm;
    cbn [consolidate_from]; [exact Hm|].
  destruct (wrap64 (pos - cur) >? threshold); apply IH; auto. now apply intmap_set_true.
Qed.

Lemma leaders_incl (threshold cur g : Z) (positions : list Z) :
  In g (leaders threshold cur positions) -> In g positions.
Proof.
  revert cur. induction positions as [|pos rest IH]; intros cur; cbn [leaders]; [tauto|].
  destruct (wrap64 (pos - cur) >? threshold); cbn [In]; intros H.
  - destruct H as [H|H]; [now left|right; eauto].
  - right. eauto.
Qed.

Lemma wrap64_small (z : Z) : - 2 ^ 63 <= z < 2 ^ 63 -> wrap64 z = z.
Proof. intros H. unfold wrap64. rewrite Z.mod_small; lia. Qed.

Lemma leaders_cover (threshold : Z) (positions : list Z) (cur : Z) :
  StronglySorted Z.le (cur :: positions) -> Forall on_page (cur :: positions) ->
  forall k, In k positions ->
            exists g, In g (cur :: leaders threshold cur positions) /\
                      g <= k /\ (k = g \/ k - g <= threshold).
Proof.
  revert cur. induction positions as [|pos rest IH]; intros cur Hs Hr k Hk; [destruct Hk|].
  inversion Hs as [|? ? Hs' Hcur]; subst. inversion Hcur as [|? ? Hcp Hcr]; subst.
  inversion Hr as [|? ? Hrc Hr']; subst. inversion Hr' as [|? ? Hrp Hrr]; subst.
  inversion Hs' as [|? ? Hsr Hpr]; subst.
  cbn [leaders]. unfold on_page in Hrc, Hrp. rewrite wrap64_small by lia.
  destruct (Z.gtb_spec (pos - cur) threshold) as [Hgt|Hle].
  - destruct Hk as [<-|Hk].
    + exists pos. cbn [In]. repeat split; auto; lia.
    + destruct (IH pos Hs' Hr' k Hk) as (g & Hg & Hgk & Hd).
      exists g. split; [now right|auto].
  - destruct Hk as [<-|Hk].
    + exists cur. cbn [In]. repeat split; auto.
    + apply (IH cur); auto; constructor; auto.
Qed.

Lemma leaders_apart (threshold : Z) (positions : list Z) (cur : Z) :
  StronglySorted Z.le (cur :: positions) -> Forall on_page (cur :: positions) ->
  (forall g, In g (leaders threshold cur positions) -> threshold < g - cur) /\
  (forall g1 g2, In g1 (leaders threshold cur positions) ->
                 In g2 (leaders threshold cur positions) ->
                 g1 < g2 -> threshold < g2 - g1).
Proof.
  revert cur. induction positions as [|pos rest IH]; intros cur Hs Hr; [split; intros; contradiction|].
  inversion Hs as [|? ? Hs' Hcur]; subst. inversion Hcur as [|? ? Hcp Hcr]; subst.
  inversion Hr as [|? ? Hrc Hr']; subst. inversion Hr' as [|? ? Hrp Hrr]; subst.
  inversion Hs' as [|? ? Hsr Hpr]; subst.
  cbn [leaders]. unfold on_page in Hrc, Hrp. rewrite wrap64_small by lia.
  destruct (Z.gtb_spec (pos - cur) threshold) as [Hgt|Hle].
  - destruct (IH pos Hs' Hr') as [H1 H2]. split.
    + intros g [<-|Hg]; [lia|]. specialize (H1 g Hg). lia.
    + intros g1 g2 [<-|Hg1] [<-|Hg2] Hlt; try lia; auto.
      apply leaders_incl in Hg1. rewrite Forall_forall in Hpr. specialize (Hpr g1 Hg1). lia.
  - apply IH; constructor; auto.
Qed.

Lemma positions_perm (sched : schedule) (lines : intmap) :
  Permutation (sort_Ints (map fst (range_order sched lines))) (map fst lines).
Proof.
  rewrite sort_Ints_perm. apply Permutation_map, range_order_perm.
Qed.

(** ** [cleanTextForComparison] *)
Lemma replace_outside_keep (keep : ascii -> bool) (fuel : nat) (s : gostring) :
  Forall (fun a => keep a = true) (replace_outside_fuel fuel keep [] s).
Proof.
  revert s. induction fuel as [|f IH]; intros s; [constructor|].
  destruct s as [|a t]; [constructor|]. cbn [replace_outside_fuel].
  destruct (keep a) eqn:Ha; [constructor; auto|]. cbn [app]. apply IH.
Qed.

Lemma replace_outside_id (keep : ascii -> bool) (repl s : gostring) (fuel : nat) :
  Forall (fun a => keep a = true) s -> (length s <= fuel)%nat ->
  replace_outside_fuel fuel keep repl s = s.
Proof.
  revert s. induction fuel as [|f IH]; intros s Hs Hlen.
  - destruct s; [reflexivity|simpl in Hlen; lia].
  - destruct s as [|a t]; [reflexivity|]. inversion Hs as [|? ? Ha Ht]; subst.
    cbn [replace_outside_fuel]. rewrite Ha. f_equal. apply IH; auto. simpl in Hlen. lia.
Qed.

Lemma lower_fuel_plain (s : gostring) (fuel : nat) :
  Forall (fun a => plain_char a = true) s -> (length s <= fuel)%nat ->
  lower_fuel fuel s = s.
Proof.
  revert s. induction fuel as [|f IH]; intros s Hs Hlen.
  - destruct s; [reflexivity|simpl in Hlen; lia].
  - destruct s as [|a t]; [reflexivity|]. inversion Hs as [|? ? Ha Ht]; subst.
    cbn [lower_fuel].
    assert (Hd : HasPrefix (a :: t) dotted_I = false).
    { apply not_true_iff_false. intros H. apply (HasPrefix_Forall _ _ _ H) in Hs.
      inversion Hs as [|? ? Hbad _]. discriminate. }
    assert (Hk : HasPrefix (a :: t) kelvin = false).
    { apply not_true_iff_false. intros H. apply (HasPrefix_Forall _ _ _ H) in Hs.
      inversion Hs as [|? ? Hbad _]. discriminate. }
    rewrite Hd, Hk.
    assert (Hl : ascii_lower a = a).
    { unfold ascii_lower.
      assert (Hu : is_upper a = false).
      { pose proof (check_bytes_spec (fun a => implb (plain_char a) (negb (is_upper a))) eq_refl a)
          as Hc. cbv beta in Hc. rewrite Ha in Hc. now apply negb_true_iff in Hc. }
      now rewrite Hu. }
    rewrite Hl. f_equal. apply IH; auto. simpl in Hlen. lia.
Qed.

Lemma TrimSuffix_plain (s suffix : gostring) :
  Forall (fun a => plain_char a = true) s -> hd "a"%char suffix = " "%char ->
  TrimSuffix s suffix = s.
Proof.
  intros Hs Hhd. unfold TrimSuffix.
  destruct (HasSuffix s suffix) eqn:H; [exfalso|reflexivity].
  apply (HasSuffix_Forall _ _ _ H) in Hs.
  destruct suffix as [|b w]; [discriminate|]. cbn [hd] in Hhd. subst b.
  inversion Hs as [|? ? Hbad _]. discriminate.
Qed.

(** ** The branches of [parseAmount] *)
Lemma firstn_length_app {A : Type} (pre r : list A) : firstn (length pre) (pre ++ r) = pre.
Proof. rewrite firstn_app, Nat.sub_diag, firstn_all. cbn [firstn]. apply app_nil_r. Qed.

(** With two commas or more and no period, the result is read from the
    text before the last comma, its commas removed. *)
Lemma parseAmount_many_commas (pre post : gostring) :
  In ","%char pre -> ~ In "."%char pre -> ~ In ","%char post -> ~ In "."%char post ->
  parseAmount (pre ++ "," ++ post) = ParseFloat (ReplaceAll pre "," "").
Proof.
  intros Hpre Hdot Hpost Hdot'. unfold parseAmount.
  change (list_ascii_of_string ",") with [","%char].
  change (list_ascii_of_string ".") with ["."%char].
  cbn [app]. rewrite !Count_char.
  assert (Hp : count_occ ascii_dec (pre ++ ","%char :: post) "."%char = 0%nat).
  { apply count_occ_not_In. intros H. apply in_app_or in H as [H|[H|H]]; auto. discriminate. }
  assert (Hc : (2 <= count_occ ascii_dec (pre ++ ","%char :: post) ","%char)%nat).
  { rewrite count_occ_app. cbn [count_occ].
    destruct (ascii_dec ","%char ","%char) as [_|Hne]; [|contradiction].
    apply (count_occ_In ascii_dec) in Hpre. lia. }
  rewrite Hp. set (commas := count_occ ascii_dec (pre ++ ","%char :: post) ","%char) in *.
  destruct (Z.eqb_spec (Z.of_nat commas) 1) as [E|_]; [lia|].
  destruct (Z.eqb_spec (Z.of_nat commas) 0) as [E|_]; [lia|].
  destruct (Z.ltb_spec 1 (Z.of_nat commas)) as [_|E]; [|lia].
  cbn [andb orb Z.of_nat Z.eqb Z.ltb Z.compare].
  unfold LastIndex. rewrite last_index_split by assumption.
  cbn [Z.add]. destruct (Z.eqb_spec (Z.of_nat (length pre)) (-1)) as [E|_]; [lia|].
  cbn [negb]. unfold slice_to. rewrite Nat2Z.id.
  now rewrite !firstn_length_app.
Qed.

(** ** [parseAmount] on the text of an amount *)
Lemma replace_fuel_remove (c : ascii) (fuel : nat) (u : gostring) :
  (length u <= fuel)%nat ->
  replace_fuel fuel u [c] [] = filter (fun a => negb (Ascii.eqb a c)) u.
Proof.
  revert u. induction fuel as [|f IH]; intros u Hlen.
  - destruct u; [reflexivity|simpl in Hlen; lia].
  - destruct u as [|a t]; [reflexivity|]. simpl in Hlen.
    cbn [replace_fuel HasPrefix filter length skipn app]. rewrite andb_true_r.
    destruct (Ascii.eqb a c); cbn [negb]; rewrite IH by lia; reflexivity.
Qed.

Lemma ReplaceAll_remove (c : ascii) (u : gostring) :
  ReplaceAll u [c] [] = filter (fun a => negb (Ascii.eqb a c)) u.
Proof. unfold ReplaceAll. now apply replace_fuel_remove. Qed.

(** The last instance of a byte in a text. *)
Lemma last_occurrence (c : ascii) (s : gostring) :
  In c s -> exists pre post, s = pre ++ c :: post /\ ~ In c post.
Proof.
  induction s as [|a s IH]; intros Hin; [destruct Hin|].
  destruct (in_dec ascii_dec c s) as [Hs|Hs].
  - destruct (IH Hs) as (pre & post & -> & Hpost). now exists (a :: pre), post.
  - destruct Hin as [->|Hin]; [|contradiction]. now exists [], s.
Qed.

Lemma LastIndex_split (c : ascii) (pre post : gostring) :
  ~ In c post -> LastIndex (pre ++ c :: post) [c] = Z.of_nat (length pre).
Proof. intros H. unfold LastIndex. now rewrite last_index_split. Qed.

Lemma span_digits_all (x : gostring) : digits_only x -> span_digits x = (x, []).
Proof.
  intros H. rewrite <- (app_nil_r x) at 1. now apply span_digits_app.
Qed.

Lemma ParseFloat_digits (x : gostring) :
  x <> [] -> digits_only x -> ParseFloat x = binary64_of (digits_val 0 x) 1.
Proof.
  intros Hne Hx. unfold ParseFloat. destruct x as [|d x]; [contradiction|].
  inversion Hx as [|? ? Hd _]; subst.
  rewrite (digit_not_sign d x Hd), (span_digits_all _ Hx). rewrite app_nil_r.
  cbn [length Z.of_nat Z.pow]. now destruct (binary64_of _ _).
Qed.

(** No overflow below [2^1000]. *)
Lemma binary64_of_some (n d : Z) :
  0 <= n < 2 ^ 1000 -> 1 <= d -> binary64_of n d <> None.
Proof.
  intros Hn Hd. unfold binary64_of. destruct (Z.eqb_spec n 0) as [_|Hn0]; [discriminate|].
  unfold binary64_of_pos.
  set (e0 := Z.log2 n - Z.log2 d).
  set (e := if _ <? _ then e0 - 1 else e0).
  set (p := Z.max (e - 52) (-1074)).
  set (N := n * 2 ^ Z.max 0 (- p)). set (D := d * 2 ^ Z.max 0 p).
  set (m := if _ : bool then N / D + 1 else N / D).
  destruct (Z.leb_spec 0 p) as [Hp|Hp]; [|discriminate]. cbn [andb].
  destruct (Z.leb_spec (2 ^ 1024) (m * 2 ^ p)) as [Hbig|_]; [exfalso|discriminate].
  assert (He : e <= e0) by (subst e; destruct (_ <? _); lia).
  assert (Hlog : 0 <= Z.log2 d) by apply Z.log2_nonneg.
  assert (Hpn : p <= Z.log2 n) by (subst p e0; lia).
  assert (H2p : 0 < 2 ^ p) by (apply Z.pow_pos_nonneg; lia).
  assert (H2n : 2 ^ p <= n).
  { transitivity (2 ^ Z.log2 n); [apply Z.pow_le_mono_r; lia|]. apply Z.log2_spec. lia. }
  assert (HN : N = n) by (subst N; rewrite Z.max_l by lia; cbn; lia).
  assert (HD : D = d * 2 ^ p) by (subst D; now rewrite Z.max_r by lia).
  assert (Hm : m <= N / D + 1) by (subst m; destruct (_ || _); lia).
  assert (Hdiv : N / D * 2 ^ p <= n).
  { rewrite HN, HD.
    assert (n / (d * 2 ^ p) <= n / 2 ^ p) by (apply Z.div_le_compat_l; nia).
    pose proof (Z.mul_div_le n (2 ^ p) H2p). nia. }
  assert (Hle : m * 2 ^ p <= 2 * n).
  { apply Z.le_trans with ((N / D + 1) * 2 ^ p);
      [apply Z.mul_le_mono_nonneg_r; lia|rewrite Z.mul_add_distr_r; lia]. }
  assert (2 ^ 1024 = 2 ^ 1000 * 2 ^ 24) by (rewrite <- Z.pow_add_r; [reflexivity|lia|lia]).
  assert (1 < 2 ^ 24) by reflexivity. nia.
Qed.

Lemma digits_val_bound (x : gostring) (acc : Z) :
  digits_only x -> 0 <= acc ->
  digits_val acc x < (acc + 1) * 10 ^ Z.of_nat (length x).
Proof.
  intros Hx. revert acc. induction Hx as [|d x Hd _ IH]; intros acc Hacc.
  - cbn. lia.
  - cbn [digits_val length]. rewrite Nat2Z.inj_succ, Z.pow_succ_r by lia.
    unfold is_digit, in_range in Hd. apply andb_true_iff in Hd as [Hlo Hhi].
    apply Z.leb_le in Hlo, Hhi.
    assert (Hv : 0 <= digit_val d <= 9) by (unfold digit_val; lia).
    specialize (IH (10 * acc + digit_val d) ltac:(lia)).
    assert (0 < 10 ^ Z.of_nat (length x)) by (apply Z.pow_pos_nonneg; lia). nia.
Qed.

Lemma digits_val_small (x : gostring) :
  digits_only x -> (length x <= 300)%nat -> 0 <= digits_val 0 x < 2 ^ 1000.
Proof.
  intros Hx Hlen. split; [apply digits_val_nonneg; [exact Hx|lia]|].
  pose proof (digits_val_bound x 0 Hx ltac:(lia)) as Hb.
  assert (10 ^ Z.of_nat (length x) <= 10 ^ 300) by (apply Z.pow_le_mono_r; lia).
  assert (10 ^ 300 < 2 ^ 1000) by reflexivity. lia.
Qed.

(** The two notations that [parseAmount] hands to [ParseFloat] are read. *)
Lemma ParseFloat_digits_some (x : gostring) :
  x <> [] -> digits_only x -> (length x <= 300)%nat -> exists q, ParseFloat x = Some q.
Proof.
  intros Hne Hx Hlen. rewrite ParseFloat_digits by assumption.
  destruct (binary64_of _ 1) as [q|] eqn:E; [now exists q|].
  elim (binary64_of_some _ 1 (digits_val_small x Hx Hlen) ltac:(lia) E).
Qed.

Lemma ParseFloat_decimal_some (x y : gostring) :
  x <> [] -> digits_only x -> digits_only y -> (length x + length y <= 300)%nat ->
  exists q, ParseFloat (x ++ "." ++ y) = Some q.
Proof.
  intros Hne Hx Hy Hlen. rewrite ParseFloat_decimal by assumption.
  destruct (binary64_of _ _) as [q|] eqn:E; [now exists q|].
  assert (Hxy : digits_only (x ++ y)) by (apply Forall_app; now split).
  assert (Hl : (length (x ++ y) <= 300)%nat) by (rewrite length_app; lia).
  assert (Hd : 1 <= 10 ^ Z.of_nat (length y)) by (apply Z.lt_pred_le, Z.pow_pos_nonneg; lia).
  elim (binary64_of_some _ _ (digits_val_small _ Hxy Hl) Hd E).
Qed.

Lemma Lang_amount_text (s : gostring) : Lang AmountPatterns.amount s -> amount_text s.
Proof.
  intros H. pose proof (Lang_alphabet _ _ H) as Hab.
  assert (Hchars : Forall (fun a => amount_char a = true) s).
  { eapply Forall_impl; [|exact Hab]. intros a Ha.
    pose proof (check_bytes_spec
                  (fun a => implb (alphabet AmountPatterns.amount a) (amount_char a))
                  eq_refl a) as Hc.
    cbv beta in Hc. now rewrite Ha in Hc. }
  unfold AmountPatterns.amount in H. cbn [seqs] in H.
  apply Lang_Seq_inv in H as (u0 & u & -> & H0 & H).
  apply Lang_Seq_inv in H0 as (u00 & u01 & -> & H00 & _).
  apply Lang_Cls_inv in H00 as (d0 & -> & Hd0).
  apply Lang_Seq_inv in H as (u1 & u2 & -> & _ & H).
  apply Lang_Seq_inv in H as (u3 & u4 & -> & H3 & _).
  apply Lang_Cls_inv in H3 as (sp & -> & Hsp).
  cbn [app] in *. inversion Hchars as [|? ? _ Hrest]; subst.
  exists d0, (u01 ++ u1 ++ [sp] ++ u4). repeat split; auto.
  unfold one_of in Hsp. cbn [existsb list_ascii_of_string] in Hsp.
  rewrite orb_false_r in Hsp.
  assert (Hin : In sp (d0 :: u01 ++ u1 ++ [sp] ++ u4)).
  { right. apply in_or_app. right. apply in_or_app. right. now left. }
  apply orb_true_iff in Hsp as [E|E]; apply Ascii.eqb_eq in E; subst sp; auto.
Qed.

Lemma filter_digits (u : gostring) (c1 c2 : ascii) :
  Forall (fun a => amount_char a = true) u ->
  (c1 = "."%char /\ c2 = ","%char) \/ (c1 = ","%char /\ c2 = "."%char) ->
  ~ In c2 u -> digits_only (filter (fun a => negb (Ascii.eqb a c1)) u).
Proof.
  intros Hu Hc Hno. apply Forall_forall. intros a Ha.
  apply filter_In in Ha as [Ha Hne]. apply negb_true_iff, Ascii.eqb_neq in Hne.
  rewrite Forall_forall in Hu. specialize (Hu a Ha).
  assert (a <> c2) by (intros ->; contradiction).
  unfold amount_char, one_of in Hu. cbn [existsb list_ascii_of_string] in Hu.
  rewrite orb_false_r in Hu.
  apply orb_true_iff in Hu as [Hd|Hs]; [exact Hd|].
  apply orb_true_iff in Hs as [E|E]; apply Ascii.eqb_eq in E;
    destruct Hc as [[-> ->]|[-> ->]]; congruence.
Qed.

Lemma filter_filter_digits (u : gostring) :
  Forall (fun a => amount_char a = true) u ->
  digits_only (filter (fun a => negb (Ascii.eqb a ","%char))
                      (filter (fun a => negb (Ascii.eqb a "."%char)) u)).
Proof.
  intros Hu. apply Forall_forall. intros a Ha.
  apply filter_In in Ha as [Ha Hc]. apply filter_In in Ha as [Ha Hp].
  apply negb_true_iff, Ascii.eqb_neq in Hc, Hp.
  rewrite Forall_forall in Hu. specialize (Hu a Ha).
  unfold amount_char, one_of in Hu. cbn [existsb list_ascii_of_string] in Hu.
  rewrite orb_false_r in Hu.
  apply orb_true_iff in Hu as [Hd|Hs]; [exact Hd|].
  apply orb_true_iff in Hs as [E|E]; apply Ascii.eqb_eq in E; congruence.
Qed.

Lemma filter_length_le {A : Type} (f : A -> bool) (l : list A) :
  (length (filter f l) <= length l)%nat.
Proof. induction l as [|a l IH]; simpl; [lia|]. destruct (f a); simpl; lia. Qed.

Lemma filter_head_digit (c d0 : ascii) (rest : gostring) :
  is_digit d0 = true -> is_digit c = false ->
  filter (fun a => negb (Ascii.eqb a c)) (d0 :: rest) =
  d0 :: filter (fun a => negb (Ascii.eqb a c)) rest.
Proof.
  intros Hd Hc. cbn [filter].
  destruct (Ascii.eqb_spec d0 c) as [->|_]; [congruence|reflexivity].
Qed.

Lemma count_occ_filter_other (u : gostring) (c x : ascii) :
  x <> c ->
  count_occ ascii_dec (filter (fun a => negb (Ascii.eqb a c)) u) x = count_occ ascii_dec u x.
Proof.
  intros Hx. induction u as [|a u IH]; [reflexivity|]. cbn [filter count_occ].
  destruct (Ascii.eqb_spec a c) as [->|Hac]; cbn [negb count_occ].
  - destruct (ascii_dec c x); [congruence|exact IH].
  - destruct (ascii_dec a x); now rewrite IH.
Qed.

(** The text before a separator of an amount. *)
Lemma amount_prefix (s pre post : gostring) (c : ascii) :
  amount_text s -> s = pre ++ c :: post -> is_digit c = false ->
  exists d0 rest, pre = d0 :: rest /\ is_digit d0 = true /\
                  Forall (fun a => amount_char a = true) pre.
Proof.
  intros (d0 & rest & -> & Hd0 & Hrest & _) E Hc.
  destruct pre as [|a pre]; cbn [app] in E.
  - injection E as <- _. congruence.
  - injection E as <- ->. exists d0, pre. repeat split; auto.
    constructor; [unfold amount_char; now rewrite Hd0|].
    now apply Forall_app in Hrest as [H _].
Qed.

Lemma amount_text_chars (s : gostring) :
  amount_text s -> Forall (fun a => amount_char a = true) s.
Proof.
  intros (d0 & rest & -> & Hd0 & Hrest & _).
  constructor; [unfold amount_char; now rewrite Hd0|exact Hrest].
Qed.

Lemma sep_free_digits (u : gostring) :
  Forall (fun a => amount_char a = true) u ->
  ~ In "."%char u -> ~ In ","%char u -> digits_only u.
Proof.
  intros Hu Hp Hc. apply Forall_forall. intros a Ha.
  rewrite Forall_forall in Hu. specialize (Hu a Ha).
  unfold amount_char, one_of in Hu. cbn [existsb list_ascii_of_string] in Hu.
  rewrite orb_false_r in Hu.
  apply orb_true_iff in Hu as [Hd|Hs]; [exact Hd|].
  apply orb_true_iff in Hs as [E|E]; apply Ascii.eqb_eq in E; subst a; contradiction.
Qed.

Lemma filter_not_In (c : ascii) (u : gostring) :
  ~ In c (filter (fun a => negb (Ascii.eqb a c)) u).
Proof.
  intros H. apply filter_In in H as [_ H]. now rewrite Ascii.eqb_refl in H.
Qed.

Lemma Forall_filter {A : Type} (P : A -> Prop) (f : A -> bool) (l : list A) :
  Forall P l -> Forall P (filter f l).
Proof.
  intros H. apply Forall_forall. intros a Ha. apply filter_In in Ha as [Ha _].
  rewrite Forall_forall in H. auto.
Qed.

Lemma skipn_length_app {A : Type} (pre r : list A) : skipn (length pre) (pre ++ r) = r.
Proof. rewrite skipn_app, Nat.sub_diag, skipn_all. reflexivity. Qed.

Lemma not_In_count (c : ascii) (u v : gostring) (n : nat) :
  count_occ ascii_dec (u ++ c :: v) c = S n -> ~ In c v -> count_occ ascii_dec u c = n.
Proof.
  intros H Hv. rewrite count_occ_app in H. cbn [count_occ] in H.
  destruct (ascii_dec c c) as [_|Hne]; [|contradiction].
  rewrite (proj1 (count_occ_not_In ascii_dec v c) Hv) in H. lia.
Qed.

Lemma match_at_Lang (r : regex) (s : gostring) (c : caps) :
  match_at r s = Some ([], c) -> Lang r s.
Proof.
  intros H. unfold match_at in H.
  destruct (run_sound (fun _ _ => True) r (groups_sat_True r) _ _ _ _
                      (fun _ _ (H : In _ []) => match H with end) H)
    as (u & s' & c' & -> & HL & _ & [= -> _]).
  now rewrite app_nil_r.
Qed.

(** ** The order of the lines *)
Lemma sorted_lines_unique (lines1 lines2 : list TextLine) :
  Permutation lines1 lines2 -> NoDup (map Y lines1) ->
  GoSort.Slice by_Y lines1 = GoSort.Slice by_Y lines2.
Proof.
  intros Hp Hnd. change by_Y with (by_key Y).
  apply (sorted_by_key_unique Y); try apply Slice_sorted.
  - rewrite !Slice_perm. exact Hp.
  - eapply Permutation_NoDup; [|exact Hnd].
    apply Permutation_map. symmetry. apply Slice_perm.
Qed.

(** ** [TrimSpace] *)
Lemma space_runes_nonempty (w : gostring) : In w space_runes -> w <> [].
Proof.
  intros Hw ->.
  assert (H : forallb (fun w => negb (Nat.eqb (length w) 0)) space_runes = true) by reflexivity.
  rewrite forallb_forall in H. specialize (H [] Hw). discriminate.
Qed.

Lemma HasPrefix_length (s w : gostring) : HasPrefix s w = true -> (length w <= length s)%nat.
Proof.
  revert s. induction w as [|b w IH]; intros [|a s] H; simpl in *; try lia; try discriminate.
  apply andb_true_iff in H as [_ H]. apply IH in H. lia.
Qed.

Lemma HasPrefix_firstn (s w : gostring) (n : nat) :
  HasPrefix (firstn n s) w = true -> HasPrefix s w = true.
Proof.
  revert s n. induction w as [|b w IH]; intros s n H; [reflexivity|].
  destruct n as [|n], s as [|a s]; simpl in *; try discriminate.
  apply andb_true_iff in H as [Hab H]. rewrite Hab. simpl. eauto.
Qed.

Lemma space_len_zero (s : gostring) :
  space_len s = 0%nat -> forall w, In w space_runes -> HasPrefix s w = false.
Proof.
  unfold space_len. intros H w Hw.
  destruct (find (HasPrefix s) space_runes) as [w0|] eqn:Hf.
  - apply find_some in Hf as [Hw0 _]. apply space_runes_nonempty in Hw0.
    destruct w0; [contradiction|discriminate].
  - apply (find_none _ _ Hf w Hw).
Qed.

Lemma space_len_le (s : gostring) : (space_len s <= length s)%nat.
Proof.
  unfold space_len. destruct (find (HasPrefix s) space_runes) as [w0|] eqn:Hf; [|lia].
  apply find_some in Hf as [_ H]. now apply HasPrefix_length.
Qed.

Lemma trim_left_no_space (fuel : nat) (s : gostring) :
  (length s <= fuel)%nat ->
  forall w, In w space_runes -> HasPrefix (trim_left_fuel fuel s) w = false.
Proof.
  revert s. induction fuel as [|f IH]; intros s Hlen w Hw.
  - destruct s; [|simpl in Hlen; lia]. cbn [trim_left_fuel].
    destruct w; [now apply space_runes_nonempty in Hw|reflexivity].
  - cbn [trim_left_fuel]. destruct (space_len s) as [|n] eqn:Hs.
    + now apply space_len_zero.
    + apply IH; [|exact Hw]. pose proof (space_len_le s). rewrite length_skipn. lia.
Qed.

Lemma trim_right_prefix (fuel : nat) (s : gostring) :
  exists n, trim_right_fuel fuel s = firstn n s.
Proof.
  revert s. induction fuel as [|f IH]; intros s; [exists (length s); now rewrite firstn_all|].
  cbn [trim_right_fuel]. destruct (find (HasSuffix s) space_runes) as [w|].
  - destruct (IH (firstn (length s - length w) s)) as (n & ->).
    exists (Nat.min n (length s - length w)). apply firstn_firstn.
  - exists (length s). now rewrite firstn_all.
Qed.

Lemma trim_right_no_space (fuel : nat) (s : gostring) :
  (length s <= fuel)%nat ->
  forall w, In w space_runes -> HasSuffix (trim_right_fuel fuel s) w = false.
Proof.
  revert s. induction fuel as [|f IH]; intros s Hlen w Hw.
  - destruct s; [|simpl in Hlen; lia]. cbn [trim_right_fuel]. unfold HasSuffix.
    destruct (rev w) eqn:E; [|reflexivity].
    apply (f_equal (@rev ascii)) in E. rewrite rev_involutive in E. subst w.
    now apply space_runes_nonempty in Hw.
  - cbn [trim_right_fuel]. destruct (find (HasSuffix s) space_runes) as [w0|] eqn:Hf.
    + apply IH; [|exact Hw]. apply find_some in Hf as [Hw0 Hs].
      apply space_runes_nonempty in Hw0. rewrite length_firstn.
      unfold HasSuffix in Hs. apply HasPrefix_length in Hs. rewrite !length_rev in Hs.
      destruct w0; [contradiction|]. simpl in *. lia.
    + apply (find_none _ _ Hf w Hw).
Qed.

(** What [TrimSpace] returns has no white space at either end. *)
Lemma TrimSpace_trimmed (s : gostring) : trimmed (TrimSpace s).
Proof.
  intros w Hw. unfold TrimSpace, TrimRightSpace. split.
  - destruct (trim_right_prefix (length (TrimLeftSpace s)) (TrimLeftSpace s)) as (n & ->).
    apply not_true_iff_false. intros H. apply HasPrefix_firstn in H.
    unfold TrimLeftSpace in H. rewrite trim_left_no_space in H; auto. discriminate.
  - now apply trim_right_no_space.
Qed.

(** ** The line normaliser: bounds *)
Lemma Atoi_int64 (part : gostring) : is_int64 (fst (Atoi part)).
Proof.
  pose proof (Atoi_errors part) as H. unfold is_int64.
  destruct (snd (Atoi part)) as [[|]|].
  - rewrite H. unfold min_int64, max_int64. lia.
  - unfold min_int64, max_int64 in *. lia.
  - exact H.
Qed.

Lemma nth_Atoi_int64 (i : nat) (parts : list gostring) :
  is_int64 (nth i (map (fun part => fst (Atoi part)) parts) 0).
Proof.
  destruct (Nat.lt_ge_cases i (length parts)) as [Hlt|Hge].
  - rewrite (nth_indep _ 0 (fst (Atoi []))) by now rewrite length_map.
    rewrite (map_nth (fun part => fst (Atoi part))). apply Atoi_int64.
  - rewrite nth_overflow by now rewrite length_map.
    unfold is_int64, min_int64, max_int64. lia.
Qed.

Lemma normalize_line_ok (line : OcrLine) (t : TextLine) :
  In t (normalize_line line) ->
  trimmed (Text t) /\
  is_int64 (X t) /\ is_int64 (Y t) /\ is_int64 (Width t) /\ is_int64 (Height t).
Proof.
  unfold normalize_line, parse_bounding_box.
  destruct (BoundingBox line) as [box|]; [|intros []].
  destruct (4 <=? _)%nat; [|intros []].
  intros [<-|[]]. cbn [Text X Y Width Height].
  split; [apply TrimSpace_trimmed|]. repeat split; apply nth_Atoi_int64.
Qed.

(** ** [convertDomainToReadableName] *)
Lemma replace_outside_chars (fuel : nat) (s : gostring) :
  Forall (fun a => word_char a = true) (replace_outside_fuel fuel is_alnum " " s).
Proof.
  revert s. induction fuel as [|f IH]; intros s; [constructor|].
  destruct s as [|a t]; [constructor|]. cbn [replace_outside_fuel].
  destruct (is_alnum a) eqn:Ha.
  - constructor; [unfold word_char; now rewrite Ha|apply IH].
  - cbn [app list_ascii_of_string]. constructor; [reflexivity|apply IH].
Qed.

Lemma find_from_chars (P : ascii -> Prop) (r : regex) (s whole rest : gostring) (c : caps) :
  Forall P s -> find_from r s = Some (whole, rest, c) ->
  Forall P rest /\ forall n, Forall P (nth n (submatches r whole c) []).
Proof.
  intros Hs Hf.
  destruct (find_from_sound _ r (groups_sat_True r) _ _ _ _ Hf) as (_ & _ & pre & E).
  destruct (find_from_bindings _ _ _ _ _ Hf) as [Ho _].
  rewrite E in Hs. apply Forall_app in Hs as [_ Hs]. apply Forall_app in Hs as [Hw Hr].
  split; [exact Hr|]. intros n. unfold submatches. destruct n as [|n]; [exact Hw|]. cbn [nth].
  destruct (Nat.lt_ge_cases n (num_groups r)) as [Hlt|Hge].
  - rewrite (nth_indep _ [] (lookup 0 c)) by now rewrite length_map, length_seq.
    rewrite (map_nth (fun k => lookup k c)), seq_nth by assumption.
    eapply occurs_in_Forall; [|exact Hw]. now apply lookup_occurs.
  - rewrite nth_overflow by now rewrite length_map, length_seq. constructor.
Qed.

Lemma replace_matches_chars (P : ascii -> Prop) (r : regex) (repl : list gostring -> gostring)
    (fuel : nat) (s : gostring) :
  (forall m, (forall n, Forall P (nth n m [])) -> Forall P (repl m)) ->
  Forall P s -> Forall P (replace_matches_fuel fuel r repl s).
Proof.
  intros Hrepl. revert s. induction fuel as [|f IH]; intros s Hs; [exact Hs|].
  cbn [replace_matches_fuel].
  destruct (find_from r s) as [[[[|a w] rest] c]|] eqn:Hf; try exact Hs.
  destruct (find_from_chars P _ _ _ _ _ Hs Hf) as [Hrest Hm].
  apply Forall_app. split; [now apply Forall_firstn|].
  apply Forall_app. split; [now apply Hrepl|now apply IH].
Qed.

Lemma trim_left_chars (P : ascii -> Prop) (fuel : nat) (s : gostring) :
  Forall P s -> Forall P (trim_left_fuel fuel s).
Proof.
  revert s. induction fuel as [|f IH]; intros s Hs; [exact Hs|].
  cbn [trim_left_fuel]. destruct (space_len s); [exact Hs|]. now apply IH, Forall_skipn.
Qed.

Lemma trim_right_chars (P : ascii -> Prop) (fuel : nat) (s : gostring) :
  Forall P s -> Forall P (trim_right_fuel fuel s).
Proof.
  intros Hs. destruct (trim_right_prefix fuel s) as (n & ->). now apply Forall_firstn.
Qed.

Lemma TrimSpace_chars (P : ascii -> Prop) (s : gostring) :
  Forall P s -> Forall P (TrimSpace s).
Proof. intros Hs. now apply trim_right_chars, trim_left_chars. Qed.

Lemma space_len_space (t : gostring) : space_len (" "%char :: t) <> 0%nat.
Proof.
  unfold space_len.
  destruct (find (HasPrefix (" "%char :: t)) space_runes) as [w|] eqn:Hf.
  - apply find_some in Hf as [Hw _]. apply space_runes_nonempty in Hw.
    destruct w; [contradiction|discriminate].
  - assert (Hin : In (" " : gostring) space_runes) by (vm_compute; tauto).
    pose proof (find_none _ _ Hf _ Hin) as H. discriminate.
Qed.

Lemma fields_fuel_words (fuel : nat) (s cur : gostring) :
  Forall (fun a => word_char a = true) s -> Forall (fun a => is_alnum a = true) cur ->
  Forall plain_word (fields_fuel fuel s cur).
Proof.
  assert (Hflush : forall cur rest,
             Forall (fun a => is_alnum a = true) cur -> Forall plain_word rest ->
             Forall plain_word (match cur with [] => rest | _ => rev cur :: rest end)).
  { intros [|a c] rest Hc Hrest; [exact Hrest|]. constructor; [|exact Hrest].
    split; [|now apply Forall_rev].
    intros E. apply (f_equal (@length ascii)) in E. rewrite length_rev in E. discriminate. }
  revert s cur. induction fuel as [|f IH]; intros s cur Hs Hcur; cbn [fields_fuel].
  - apply Hflush; [exact Hcur|constructor].
  - destruct s as [|a t]; [apply Hflush; [exact Hcur|constructor]|].
    inversion Hs as [|? ? Ha Ht]; subst.
    destruct (space_len (a :: t)) as [|n] eqn:Hsp.
    + apply IH; [exact Ht|]. constructor; [|exact Hcur].
      unfold word_char in Ha. apply orb_true_iff in Ha as [Ha|Ha]; [exact Ha|].
      apply Ascii.eqb_eq in Ha. subst a. now apply space_len_space in Hsp.
    + apply Hflush; [exact Hcur|]. apply IH; [|constructor]. now apply Forall_skipn.
Qed.

Lemma lower_fuel_alnum (s : gostring) (fuel : nat) :
  Forall (fun a => is_alnum a = true) s -> (length s <= fuel)%nat ->
  lower_fuel fuel s = map ascii_lower s.
Proof.
  revert s. induction fuel as [|f IH]; intros s Hs Hlen.
  - destruct s; [reflexivity|simpl in Hlen; lia].
  - destruct s as [|a t]; [reflexivity|]. inversion Hs as [|? ? Ha Ht]; subst.
    cbn [lower_fuel map].
    assert (Hd : HasPrefix (a :: t) dotted_I = false).
    { apply not_true_iff_false. intros H. apply (HasPrefix_Forall _ _ _ H) in Hs.
      inversion Hs as [|? ? Hbad _]. discriminate. }
    assert (Hk : HasPrefix (a :: t) kelvin = false).
    { apply not_true_iff_false. intros H. apply (HasPrefix_Forall _ _ _ H) in Hs.
      inversion Hs as [|? ? Hbad _]. discriminate. }
    rewrite Hd, Hk. f_equal. apply IH; auto. simpl in Hlen. lia.
Qed.

Lemma capitalize_word (w : gostring) : plain_word w -> capitalized (capitalize w).
Proof.
  intros [Hne Hw]. destruct w as [|a t]; [contradiction|].
  inversion Hw as [|? ? Ha Ht]; subst.
  unfold capitalize. assert (Hlen : (0 <? len (a :: t)) = true) by (apply Z.ltb_lt; unfold len; simpl; lia).
  rewrite Hlen. unfold slice_to, slice_from. change (Z.to_nat 1) with 1%nat.
  cbn [firstn skipn ToUpper map app]. unfold ToLower. rewrite lower_fuel_alnum by auto.
  exists (ascii_upper a), (map ascii_lower t). split; [reflexivity|].
  pose proof (check_bytes_spec
                (fun a => implb (is_alnum a)
                                (is_alnum (ascii_upper a) && negb (is_lower (ascii_upper a)) &&
                                 is_alnum (ascii_lower a) && negb (is_upper (ascii_lower a))))
                eq_refl) as Hc.
  cbv beta in Hc.
  assert (Hall : forall b, is_alnum b = true ->
                           is_alnum (ascii_upper b) = true /\ is_lower (ascii_upper b) = false /\
                           is_alnum (ascii_lower b) = true /\ is_upper (ascii_lower b) = false).
  { intros b Hb. specialize (Hc b). rewrite Hb in Hc. cbn [implb] in Hc.
    rewrite !andb_true_iff, !negb_true_iff in Hc. tauto. }
  destruct (Hall a Ha) as (H1 & H2 & _). repeat split; auto.
  apply Forall_map. eapply Forall_impl; [|exact Ht]. intros b Hb. cbv beta.
  destruct (Hall b Hb) as (_ & _ & H3 & H4). auto.
Qed.

Lemma readable_name_words (domain : gostring) :
  exists words,
    convertDomainToReadableName domain = Join words " " /\ Forall capitalized words.
Proof.
  unfold convertDomainToReadableName.
  set (d1 := strip_first_prefix _ domain).
  set (d2 := ReplaceAllOutside is_alnum d1 " ").
  set (d3 := ReplaceAllString _ d2 _).
  assert (H2 : Forall (fun a => word_char a = true) d2) by apply replace_outside_chars.
  assert (H3 : Forall (fun a => word_char a = true) d3).
  { subst d3. unfold ReplaceAllString. apply replace_matches_chars; [|exact H2].
    intros m Hm. apply Forall_app. split; [apply Hm|].
    apply Forall_app. split; [repeat constructor|apply Hm]. }
  exists (map capitalize (Fields (TrimSpace d3))). split; [reflexivity|].
  apply Forall_map.
  eapply Forall_impl; [|apply fields_fuel_words; [now apply TrimSpace_chars|constructor]].
  intros w Hw. now apply capitalize_word.
Qed.

Lemma last_app_nonempty {A : Type} (l l' : list A) (d : A) :
  l' <> [] -> last (l ++ l') d = last l' d.
Proof.
  intros Hne. induction l as [|a l IH]; [reflexivity|].
  cbn [app]. destruct (l ++ l') as [|b r] eqn:E.
  - apply app_eq_nil in E as [_ ->]. contradiction.
  - cbn [last]. exact IH.
Qed.

(** ** The vendor name has no white space around it *)
Lemma alnum_edges_trimmed (s : gostring) :
  s = [] \/ (is_alnum (hd " "%char s) = true /\ is_alnum (last s " "%char) = true) ->
  trimmed s.
Proof.
  intros Hs w Hw.
  assert (Hne := space_runes_nonempty w Hw).
  assert (Hedges : is_alnum (hd " "%char w) = false /\ is_alnum (last w " "%char) = false).
  { assert (H : forallb (fun w => negb (is_alnum (hd " "%char w)) &&
                                  negb (is_alnum (last w " "%char))) space_runes = true)
      by (vm_compute; reflexivity).
    rewrite forallb_forall in H. specialize (H w Hw).
    apply andb_true_iff in H as [H1 H2]. now rewrite !negb_true_iff in H1, H2. }
  destruct Hedges as [Hhd Hlast].
  destruct Hs as [->|[Hh Hl]].
  - split; [destruct w; [contradiction|reflexivity]|].
    unfold HasSuffix. destruct (rev w) eqn:E; [|reflexivity].
    apply (f_equal (@rev ascii)) in E. rewrite rev_involutive in E. contradiction.
  - split; apply not_true_iff_false; intros H.
    + destruct w as [|b w]; [contradiction|]. destruct s as [|a s]; [discriminate|].
      cbn [HasPrefix hd] in *. apply andb_true_iff in H as [E _].
      apply Ascii.eqb_eq in E. congruence.
    + unfold HasSuffix in H.
      destruct (rev w) as [|b w'] eqn:Ew.
      { apply (f_equal (@rev ascii)) in Ew. rewrite rev_involutive in Ew. contradiction. }
      destruct (rev s) as [|a s'] eqn:Es; [discriminate|].
      cbn [HasPrefix] in H. apply andb_true_iff in H as [E _]. apply Ascii.eqb_eq in E.
      apply (f_equal (@rev ascii)) in Ew, Es. rewrite rev_involutive in Ew, Es.
      cbn [rev] in Ew, Es. subst w s. rewrite last_last in Hlast, Hl. congruence.
Qed.

Lemma capitalized_edges (w : gostring) :
  capitalized w ->
  w <> [] /\ is_alnum (hd " "%char w) = true /\ is_alnum (last w " "%char) = true.
Proof.
  intros (a & t & -> & Ha & _ & Ht). split; [discriminate|]. split; [exact Ha|].
  destruct t as [|b t] using rev_ind; [exact Ha|].
  rewrite app_comm_cons, last_last. apply Forall_app in Ht as [_ Ht].
  inversion Ht as [|? ? [Hb _] _]. exact Hb.
Qed.

Lemma Join_edges (ws : list gostring) :
  Forall capitalized ws ->
  ws = [] \/
  (Join ws " " <> [] /\ hd " "%char (Join ws " ") = hd " "%char (hd [] ws) /\
   is_alnum (last (Join ws " ") " "%char) = true).
Proof.
  induction 1 as [|w ws Hw Hws IH]; [now left|right].
  destruct (capitalized_edges w Hw) as (Hne & Hh & Hl).
  destruct ws as [|w2 ws]; cbn [Join hd].
  - repeat split; auto.
  - destruct IH as [E|(Hne2 & _ & Hl2)]; [discriminate|].
    set (rest := Join (w2 :: ws) " ") in *.
    split; [destruct w; [contradiction|discriminate]|].
    split; [destruct w; [contradiction|reflexivity]|].
    rewrite app_assoc, last_app_nonempty; auto.
Qed.

Lemma readable_name_trimmed (domain : gostring) :
  trimmed (convertDomainToReadableName domain).
Proof.
  destruct (readable_name_words domain) as (ws & -> & Hws).
  apply alnum_edges_trimmed.
  destruct (Join_edges ws Hws) as [->|(Hne & Hh & Hl)]; [now left|right].
  split; [|exact Hl]. rewrite Hh. destruct ws as [|w ws]; [now elim Hne|].
  inversion Hws as [|? ? Hw _]; subst. now apply capitalized_edges.
Qed.

Lemma match_logo_In (cleanDomainPart : gostring) (candidates : list gostring) (r : gostring) :
  match_logo cleanDomainPart candidates = Some r -> In r candidates.
Proof.
  induction candidates as [|c cs IH]; cbn [match_logo]; [discriminate|].
  destruct (Contains _ _); [intros [= <-]; now left|].
  destruct (_ && _); [intros [= <-]; now left|]. intros H. right. auto.
Qed.

Lemma match_domains_In (parts candidates : list gostring) (r : gostring) :
  match_domains parts candidates = Some r -> In r candidates.
Proof.
  induction parts as [|p ps IH]; cbn [match_domains]; [discriminate|].
  destruct (match_logo _ candidates) eqn:E; [|exact IH].
  intros [= <-]. eapply match_logo_In; eauto.
Qed.

Lemma company_above_address_trimmed (parts : list gostring) (above : TextLine) (r : gostring) :
  company_above_address parts above = Some r -> trimmed r.
Proof.
  unfold company_above_address.
  destruct (existsb _ _); [intros [= <-]; apply TrimSpace_trimmed|].
  destruct (_ && _); [intros [= <-]; apply TrimSpace_trimmed|discriminate].
Qed.

Lemma trimmed_texts (f : gostring -> bool) (lines : list TextLine) :
  Forall trimmed (filter f (map (fun line => TrimSpace (Text line)) lines)).
Proof.
  apply Forall_forall. intros r Hr. apply filter_In in Hr as [Hr _].
  apply in_map_iff in Hr as (line & <- & _). apply TrimSpace_trimmed.
Qed.

Lemma UNKNOWN_trimmed : trimmed UNKNOWN.
Proof. apply alnum_edges_trimmed. right. split; reflexivity. Qed.

(** ** Where the amount comes from *)
Lemma amount_in_free (n : nat) (r : regex) : has_group r = false -> amount_in n r.
Proof. apply groups_free. Qed.

Lemma before_amount (label : regex) : has_group label = false -> amount_in 2 (before label).
Proof.
  intros H. unfold before. apply seqs_sat. repeat constructor; try (now apply amount_in_free).
  - intros txt _ E. discriminate.
  - now intros txt Htxt _.
Qed.

Lemma after_amount (label : regex) : has_group label = false -> amount_in 1 (after label).
Proof.
  intros H. unfold after. apply seqs_sat. repeat constructor; try (now apply amount_in_free).
  - now intros txt Htxt _.
  - intros txt _ E. discriminate.
Qed.

Lemma bare_amount (label : regex) : has_group label = false -> amount_in 1 (bare label).
Proof.
  intros H. unfold bare. apply seqs_sat. repeat constructor; try (now apply amount_in_free).
  now intros txt Htxt _.
Qed.

Lemma patterns_amount_in :
  Forall (fun p => amount_in (amount_group p) (MustCompile p)) patterns.
Proof.
  unfold patterns.
  repeat (apply Forall_cons;
          [first [apply before_amount; reflexivity | apply after_amount; reflexivity]|]).
  apply Forall_nil.
Qed.

Lemma patternsNoCurrency_amount_in :
  Forall (fun p => amount_in 1 (MustCompile p)) patternsNoCurrency.
Proof.
  unfold patternsNoCurrency.
  repeat (apply Forall_cons; [apply bare_amount; reflexivity|]).
  apply Forall_nil.
Qed.

Lemma anywhere_amount_in : amount_in 2 (MustCompile anywhere).
Proof.
  cbn [MustCompile anywhere]. apply seqs_sat. repeat constructor; try (now apply amount_in_free).
  - intros txt _ E. discriminate.
  - now intros txt Htxt _.
  - intros txt _ E. discriminate.
Qed.

Lemma parseAmount_nil : parseAmount [] = None.
Proof. reflexivity. Qed.

(** An amount parsed from a group of a match on a line. *)
Lemma submatch_amount (textLines : list TextLine) (line : TextLine) (r : regex) (n : nat)
    (q : Q) :
  In line textLines -> amount_in (S n) r ->
  parseAmount (nth (S n) (FindStringSubmatch r (Text line)) []) = Some q ->
  amount_of_line textLines q.
Proof.
  intros Hin Hr Hq. exists line, (nth (S n) (FindStringSubmatch r (Text line)) []).
  split; [exact Hin|]. split; [apply FindStringSubmatch_occurs|]. split; [|exact Hq].
  destruct (FindStringSubmatch_group _ r (Text line) Hr n) as [E|H]; [|now apply H].
  rewrite E, parseAmount_nil in Hq. discriminate.
Qed.

Lemma keyword_tagged_found (textLines : list TextLine) (line : TextLine)
    (pats : list pattern) (currency : gostring) :
  In line textLines ->
  Forall (fun p => amount_in (amount_group p) (MustCompile p)) pats ->
  flow_found textLines (keyword_tagged pats (Text line) currency).
Proof.
  intros Hin Hp. revert currency. induction Hp as [|p pats Hp _ IH]; intros currency;
    cbn [keyword_tagged]; [exact I|].
  destruct (_ <? _)%nat; [|apply IH].
  pose proof (tagged_groups_amount p (FindStringSubmatch (MustCompile p) (Text line))) as Hg.
  destruct (tagged_groups p _) as [amountStr currencySymbol]. cbn [fst] in Hg.
  destruct (parseAmount amountStr) as [q|] eqn:Hq; [|apply IH].
  cbn [flow_found fst]. rewrite Hg in Hq.
  destruct (amount_group_succ p) as (n & En). rewrite En in Hq, Hp.
  eapply submatch_amount; eauto.
Qed.

Lemma keyword_untagged_found (textLines : list TextLine) (line : TextLine)
    (pats : list pattern) (currency : gostring) :
  In line textLines ->
  Forall (fun p => amount_in 1 (MustCompile p)) pats ->
  flow_found textLines (keyword_untagged pats (Text line) currency).
Proof.
  intros Hin Hp. induction Hp as [|p pats Hp _ IH]; cbn [keyword_untagged]; [exact I|].
  destruct (_ <? _)%nat; [|apply IH].
  destruct (parseAmount _) as [q|] eqn:Hq; [|apply IH].
  cbn [flow_found fst]. eapply submatch_amount; eauto.
Qed.

Lemma amount_of_line_cons (line : TextLine) (rest : list TextLine) (q : Q) :
  amount_of_line rest q -> amount_of_line (line :: rest) q.
Proof.
  intros (l & s & Hl & H). exists l, s. split; [now right|exact H].
Qed.

Lemma keyword_lines_found (pats nocur : list pattern) (textLines : list TextLine)
    (currency : gostring) :
  Forall (fun p => amount_in (amount_group p) (MustCompile p)) pats ->
  Forall (fun p => amount_in 1 (MustCompile p)) nocur ->
  flow_found textLines (keyword_lines pats nocur textLines currency).
Proof.
  intros Hp Hn. revert currency. induction textLines as [|line rest IH]; intros currency;
    cbn [keyword_lines]; [exact I|].
  assert (Hrest : forall cur, flow_found (line :: rest) (keyword_lines pats nocur rest cur)).
  { intros cur. specialize (IH cur). destruct (keyword_lines pats nocur rest cur); [|exact I].
    now apply amount_of_line_cons. }
  destruct (has_amount_keyword line); [|apply Hrest].
  pose proof (keyword_tagged_found (line :: rest) line pats currency (or_introl eq_refl) Hp) as H1.
  destruct (keyword_tagged pats (Text line) currency) as [r|cur1]; [exact H1|].
  pose proof (keyword_untagged_found (line :: rest) line nocur cur1 (or_introl eq_refl) Hn) as H2.
  destruct (keyword_untagged nocur (Text line) cur1) as [r|cur2]; [exact H2|].
  apply Hrest.
Qed.

Lemma zone_tagged_found (textLines : list TextLine) (line : TextLine) (pats : list pattern)
    (st : zone_state) :
  In line textLines ->
  Forall (fun p => amount_in (amount_group p) (MustCompile p)) pats ->
  largest_found textLines (fst (fst st)) ->
  largest_found textLines (fst (fst (zone_tagged pats (Text line) st))).
Proof.
  intros Hin Hp. revert st. induction Hp as [|p pats Hp _ IH];
    intros [[largest cur0] currency] Hst; cbn [zone_tagged]; [exact Hst|].
  destruct (_ <? _)%nat; [|now apply IH].
  pose proof (tagged_groups_amount p (FindStringSubmatch (MustCompile p) (Text line))) as Hg.
  destruct (tagged_groups p _) as [amountStr currencySymbol]. cbn [fst] in Hg.
  destruct (parseAmount amountStr) as [q|] eqn:Hq; [|now apply IH].
  destruct (Qgtb q largest); [|now apply IH].
  apply IH. right. cbn [fst]. rewrite Hg in Hq.
  destruct (amount_group_succ p) as (n & En). rewrite En in Hq, Hp.
  eapply submatch_amount; eauto.
Qed.

Lemma zone_untagged_found (textLines : list TextLine) (line : TextLine) (pats : list pattern)
    (st : zone_state) :
  In line textLines ->
  Forall (fun p => amount_in 1 (MustCompile p)) pats ->
  largest_found textLines (fst (fst st)) ->
  largest_found textLines (fst (fst (zone_untagged pats (Text line) st))).
Proof.
  intros Hin Hp. revert st. induction Hp as [|p pats Hp _ IH];
    intros [[largest cur0] currency] Hst; cbn [zone_untagged]; [exact Hst|].
  destruct (_ <? _)%nat; [|now apply IH].
  destruct (parseAmount _) as [q|] eqn:Hq; [|now apply IH].
  destruct (Qgtb q largest); [|now apply IH].
  apply IH. right. cbn [fst]. eapply submatch_amount; eauto.
Qed.

Lemma zone_lines_found (all : list TextLine) (pats nocur : list pattern) (t : Z)
    (textLines : list TextLine) (st : zone_state) :
  (forall line, In line textLines -> In line all) ->
  Forall (fun p => amount_in (amount_group p) (MustCompile p)) pats ->
  Forall (fun p => amount_in 1 (MustCompile p)) nocur ->
  largest_found all (fst (fst st)) ->
  largest_found all (fst (fst (zone_lines pats nocur t textLines st))).
Proof.
  intros Hsub Hp Hn. revert st. induction textLines as [|line rest IH]; intros st Hst;
    cbn [zone_lines]; [exact Hst|].
  assert (Hrest : forall l, In l rest -> In l all) by (intros l Hl; apply Hsub; now right).
  destruct (Y line >? t); [|now apply IH].
  apply IH; [exact Hrest|].
  apply zone_untagged_found; auto; [apply Hsub; now left|].
  apply zone_tagged_found; auto. apply Hsub. now left.
Qed.

(** Each match of a scan for all matches is the first match of a rest of
    the text. *)
Lemma find_all_fuel_suffix (r : regex) (fuel : nat) (s : gostring) :
  Forall (fun m => exists pre s', s = pre ++ s' /\ m = FindStringSubmatch r s')
         (find_all_fuel fuel r s).
Proof.
  revert s. induction fuel as [|f IH]; intros s; cbn [find_all_fuel]; [constructor|].
  destruct (find_from r s) as [[[[|a w] rest] c]|] eqn:Hf; try constructor.
  - exists [], s. split; [reflexivity|]. unfold FindStringSubmatch. now rewrite Hf.
  - destruct (find_from_sound _ r (groups_sat_True r) _ _ _ _ Hf) as (_ & _ & pre & E).
    eapply Forall_impl; [|apply IH].
    intros m (pre' & s' & E' & Hm). exists (pre ++ (a :: w) ++ pre'), s'.
    split; [|exact Hm]. rewrite E, E'. now rewrite <- !app_assoc.
Qed.

Lemma anywhere_groups_amount (m : list gostring) :
  length m = 4%nat -> fst (anywhere_groups m) = nth 2 m [].
Proof.
  intros H. unfold anywhere_groups. rewrite H.
  change (3 <? 4)%nat with true. change (2 <? 4)%nat with true. cbn [andb].
  destruct (negb (streq (nth 3 m []) _)); [reflexivity|].
  destruct (negb (streq (nth 1 m []) _)); reflexivity.
Qed.

Lemma anywhere_match_found (textLines : list TextLine) (line : TextLine)
    (currency : gostring) (st : Q * gostring) (m : list gostring) :
  In line textLines ->
  In m (FindAllStringSubmatch (MustCompile anywhere) (Text line)) ->
  largest_found textLines (fst st) ->
  largest_found textLines (fst (anywhere_match (Text line) currency st m)).
Proof.
  intros Hin Hm Hst. unfold anywhere_match. destruct st as [largest cur0].
  pose proof (anywhere_groups_amount m) as Hg.
  destruct (anywhere_groups m) as [amountStr currencySymbol]. cbn [fst] in Hg.
  destruct (parseAmount amountStr) as [q|] eqn:Hq; [|exact Hst].
  destruct (Qgtb q largest); [|exact Hst].
  right. cbn [fst].
  unfold FindAllStringSubmatch in Hm.
  pose proof (find_all_fuel_length (MustCompile anywhere) (length (Text line)) (Text line)) as Hl.
  pose proof (find_all_fuel_suffix (MustCompile anywhere) (length (Text line)) (Text line)) as Hs.
  rewrite Forall_forall in Hl, Hs.
  specialize (Hl m Hm). rewrite anywhere_three_groups in Hl.
  destruct (Hs m Hm) as (pre & s' & E & Em).
  rewrite (Hg Hl) in Hq.
  exists line, (nth 2 m []). split; [exact Hin|]. split.
  - rewrite Em, E. apply occurs_in_trans with s'; [apply FindStringSubmatch_occurs|].
    exists pre, []. now rewrite app_nil_r.
  - split; [|exact Hq]. rewrite Em in Hq |- *.
    destruct (FindStringSubmatch_group _ _ s' anywhere_amount_in 1) as [E0|H]; [|now apply H].
    rewrite E0, parseAmount_nil in Hq. discriminate.
Qed.

Lemma anywhere_matches_found (textLines : list TextLine) (line : TextLine)
    (currency : gostring) (ms : list (list gostring)) (st : Q * gostring) :
  In line textLines ->
  (forall m, In m ms -> In m (FindAllStringSubmatch (MustCompile anywhere) (Text line))) ->
  largest_found textLines (fst st) ->
  largest_found textLines (fst (fold_left (anywhere_match (Text line) currency) ms st)).
Proof.
  intros Hline. revert st.
  induction ms as [|m ms IHm]; intros st Hms Hst; cbn [fold_left]; [exact Hst|].
  apply IHm; [intros k Hk; apply Hms; now right|].
  apply anywhere_match_found; auto. apply Hms. now left.
Qed.

Lemma anywhere_fold_found (all lines : list TextLine) (currency : gostring)
    (st : Q * gostring) :
  (forall l, In l lines -> In l all) ->
  largest_found all (fst st) ->
  largest_found all
    (fst (fold_left
            (fun st line =>
               fold_left (anywhere_match (Text line) currency)
                         (FindAllStringSubmatch (MustCompile anywhere) (Text line)) st)
            lines st)).
Proof.
  revert st. induction lines as [|line rest IH]; intros st Hsub Hst; cbn [fold_left];
    [exact Hst|].
  apply IH; [intros l Hl; apply Hsub; now right|].
  apply anywhere_matches_found; auto. apply Hsub. now left.
Qed.

Lemma anywhere_lines_found (textLines : list TextLine) (currency : gostring) :
  largest_found textLines (fst (anywhere_lines anywhere textLines currency)).
Proof.
  unfold anywhere_lines. apply anywhere_fold_found; [auto|now left].
Qed.

(** ** Where the invoice number comes from *)
Lemma trim_left_suffix (fuel : nat) (s : gostring) :
  exists k, trim_left_fuel fuel s = skipn k s.
Proof.
  revert s. induction fuel as [|f IH]; intros s; [now exists 0%nat|].
  cbn [trim_left_fuel]. destruct (space_len s) as [|w]; [now exists 0%nat|].
  destruct (IH (skipn (S w) s)) as (k & ->). exists (k + S w)%nat. apply skipn_skipn.
Qed.

Lemma TrimSpace_occurs (s : gostring) : occurs_in (TrimSpace s) s.
Proof.
  unfold TrimSpace, TrimRightSpace, TrimLeftSpace.
  destruct (trim_left_suffix (length s) s) as (k & ->).
  destruct (trim_right_prefix (length (skipn k s)) (skipn k s)) as (n & ->).
  exists (firstn k s), (skipn n (skipn k s)).
  now rewrite firstn_skipn, firstn_skipn.
Qed.

Lemma first_capture_occurs (pats : list pattern) (text r : gostring) :
  first_capture pats text = Some r -> occurs_in r text.
Proof.
  induction pats as [|p pats IH]; [discriminate|]. cbn [first_capture].
  destruct (_ <? _)%nat; [|exact IH].
  destruct (1 <? len _); [|exact IH].
  intros [= <-]. eapply occurs_in_trans; [apply TrimSpace_occurs|].
  apply FindStringSubmatch_occurs.
Qed.

Lemma first_run_In (matches : list gostring) (r : gostring) :
  first_run matches = Some r -> In r matches.
Proof.
  induction matches as [|m rest IH]; [discriminate|]. cbn [first_run].
  destruct (_ && _); [intros [= <-]; now left|]. intros H. right. now apply IH.
Qed.

Lemma FindAllString_occurs (r : regex) (s m : gostring) :
  In m (FindAllString r s) -> occurs_in m s.
Proof.
  unfold FindAllString, FindAllStringSubmatch. intros H.
  apply in_map_iff in H as (ms & <- & Hms).
  pose proof (find_all_fuel_suffix r (length s) s) as Hs. rewrite Forall_forall in Hs.
  destruct (Hs ms Hms) as (pre & s' & -> & ->).
  apply occurs_in_trans with s'; [apply FindStringSubmatch_occurs|].
  exists pre, []. now rewrite app_nil_r.
Qed.

Lemma text_of_line_cons (line : TextLine) (rest : list TextLine) (r : gostring) :
  text_of_line rest r -> text_of_line (line :: rest) r.
Proof. intros (l & Hl & H). exists l. split; [now right|exact H]. Qed.

Lemma text_of_line_here (line : TextLine) (rest : list TextLine) (r : gostring) :
  occurs_in r (Text line) -> text_of_line (line :: rest) r.
Proof. intros H. exists line. split; [now left|exact H]. Qed.

Lemma invoice_top_right_line (t h : Z) (textLines : list TextLine) (r : gostring) :
  invoice_top_right t h textLines = Some r -> text_of_line textLines r.
Proof.
  induction textLines as [|line rest IH]; [discriminate|].
  cbn [invoice_top_right].
  assert (Hrest : invoice_top_right t h rest = Some r -> text_of_line (line :: rest) r)
    by (intros H; now apply text_of_line_cons, IH).
  destruct ((Y line <? t) && (X line >? h)); [|exact Hrest].
  destruct (_ || _); [|exact Hrest].
  destruct (first_capture InvoicePatterns.patterns (Text line)) as [c|] eqn:Ec.
  - intros [= <-]. now apply text_of_line_here, (first_capture_occurs _ _ _ Ec).
  - destruct (first_run _) as [m|] eqn:Em; [|exact Hrest].
    intros [= <-]. apply text_of_line_here.
    now apply (FindAllString_occurs (MustCompile InvoicePatterns.alphanumeric)), first_run_In.
Qed.

Lemma invoice_keyword_lines_line (textLines : list TextLine) (r : gostring) :
  invoice_keyword_lines textLines = Some r -> text_of_line textLines r.
Proof.
  induction textLines as [|line rest IH]; [discriminate|].
  cbn [invoice_keyword_lines].
  assert (Hrest : invoice_keyword_lines rest = Some r -> text_of_line (line :: rest) r)
    by (intros H; now apply text_of_line_cons, IH).
  destruct (_ || _); [|exact Hrest].
  destruct (first_capture InvoicePatterns.patterns (Text line)) as [c|] eqn:Ec; [|exact Hrest].
  intros [= <-]. now apply text_of_line_here, (first_capture_occurs _ _ _ Ec).
Qed.

Lemma invoice_top_half_line (t : Z) (textLines : list TextLine) (r : gostring) :
  invoice_top_half t textLines = Some r -> text_of_line textLines r.
Proof.
  induction textLines as [|line rest IH]; [discriminate|].
  cbn [invoice_top_half].
  assert (Hrest : invoice_top_half t rest = Some r -> text_of_line (line :: rest) r)
    by (intros H; now apply text_of_line_cons, IH).
  destruct (Y line <? t); [|exact Hrest].
  destruct (first_capture InvoicePatterns.patterns (Text line)) as [c|] eqn:Ec; [|exact Hrest].
  intros [= <-]. now apply text_of_line_here, (first_capture_occurs _ _ _ Ec).
Qed.

Lemma invoice_anywhere_line (textLines : list TextLine) (r : gostring) :
  invoice_anywhere textLines = Some r -> text_of_line textLines r.
Proof.
  induction textLines as [|line rest IH]; [discriminate|].
  cbn [invoice_anywhere].
  destruct (first_capture InvoicePatterns.patterns (Text line)) as [c|] eqn:Ec.
  - intros [= <-]. now apply text_of_line_here, (first_capture_occurs _ _ _ Ec).
  - intros H. now apply text_of_line_cons, IH.
Qed.

(** When the last tier finds nothing, no pattern captures two bytes or
    more on any line. *)
Lemma invoice_anywhere_none (textLines : list TextLine) :
  invoice_anywhere textLines = None ->
  forall line, In line textLines -> first_capture InvoicePatterns.patterns (Text line) = None.
Proof.
  induction textLines as [|l rest IH]; intros H line Hin; [destruct Hin|].
  cbn [invoice_anywhere] in H.
  destruct (first_capture InvoicePatterns.patterns (Text l)) as [c|] eqn:Ec; [discriminate|].
  destruct Hin as [<-|Hin]; [exact Ec|now apply IH].
Qed.

(** * Further properties of the engine *)

(** X1. The date resolver returns the sentinel or a date it found: a
    non-empty piece of the text of one of the lines that one of the six
    patterns matches; such a piece ends with a digit. *)
Theorem date_is_found_text (textLines : list TextLine) :
  let r := extractDateFromPosition textLines in
  r = UNKNOWN \/
  (r <> [] /\
   (exists line p,
       In line textLines /\ In p DatePatterns.patterns /\
       occurs_in r (Text line) /\ Lang (MustCompile p) r) /\
   exists w d, r = w ++ [d] /\ is_digit d = true).
Proof.
  cbv zeta.
  assert (H : extractDateFromPosition textLines = UNKNOWN \/
              date_of textLines (extractDateFromPosition textLines)).
  { unfold extractDateFromPosition.
    destruct (date_keyword_lines textLines) eqn:E1;
      [right; now apply date_keyword_lines_some|].
    destruct (date_top_half _ textLines) eqn:E2;
      [right; now apply date_top_half_some in E2|].
    destruct (date_anywhere textLines) eqn:E3;
      [right; now apply date_anywhere_some|now left]. }
  destruct H as [H|H]; [now left|right].
  pose proof (date_of_ends_in_digit _ _ H) as He. destruct H as (Hne & Hex). auto.
Qed.

(** X2. The date resolver returns the sentinel exactly when no line
    contains a match of any of the six patterns. *)
Theorem date_unknown_iff_no_match (textLines : list TextLine) :
  extractDateFromPosition textLines = UNKNOWN <->
  (forall line p u,
      In line textLines -> In p DatePatterns.patterns ->
      Lang (MustCompile p) u -> ~ occurs_in u (Text line)).
Proof.
  rewrite <- date_anywhere_none. split.
  - intros H.
    destruct (date_anywhere textLines) as [m|] eqn:E; [exfalso|reflexivity].
    assert (Hd : date_of textLines (extractDateFromPosition textLines)).
    { unfold extractDateFromPosition.
      destruct (date_keyword_lines textLines) eqn:E1; [now apply date_keyword_lines_some|].
      destruct (date_top_half _ textLines) eqn:E2; [now apply date_top_half_some in E2|].
      rewrite E. now apply date_anywhere_some. }
    rewrite H in Hd. apply date_of_ends_in_digit in Hd as (w & d & Hw & Hd).
    assert (d = "N"%char).
    { change UNKNOWN with (("UNKNOW" : gostring) ++ ["N"%char]) in Hw.
      now apply app_inj_tail in Hw as [_ <-]. }
    subst d. discriminate.
  - intros E. unfold extractDateFromPosition.
    pose proof (proj1 (date_anywhere_none textLines) E) as Hno.
    destruct (date_keyword_lines textLines) as [m|] eqn:E1.
    { apply date_keyword_lines_some in E1 as (_ & l & p & Hl & Hp & Ho & HL).
      elim (Hno l p m Hl Hp HL Ho). }
    destruct (date_top_half _ textLines) as [m|] eqn:E2.
    { apply date_top_half_some in E2 as (_ & l & p & Hl & Hp & Ho & HL).
      elim (Hno l p m Hl Hp HL Ho). }
    now rewrite E.
Qed.

(** X3. The currency of the amount resolver, and of the record, is
    always one of the three codes USD, EUR and GBP. *)
Theorem currency_is_a_code (rt : runtime) (textLines : list TextLine) :
  In (snd (extractAmountFromPosition (currency_range rt) textLines)) [USD; EUR; GBP] /\
  In (Currency (parseInvoiceTextWithPosition rt textLines)) [USD; EUR; GBP].
Proof.
  assert (H : forall sched lines, is_code (snd (extractAmountFromPosition sched lines))).
  { intros sched lines. unfold extractAmountFromPosition.
    generalize patterns, patternsNoCurrency, anywhere. intros pats nocur any.
    pose proof (detect_code sched lines) as Hd.
    set (cur0 := if negb (streq (detectDocumentCurrency sched lines) "")
                 then detectDocumentCurrency sched lines else EUR).
    assert (H0 : is_code cur0).
    { subst cur0. destruct (negb _); [exact Hd|unfold is_code; simpl; tauto]. }
    pose proof (keyword_lines_code pats nocur lines cur0 H0) as H1.
    destruct (keyword_lines pats nocur lines cur0) as [r|cur1]; [exact H1|].
    assert (Hz : zone_code (0%Q, [], cur1)) by (split; [exact H1|discriminate]).
    apply (zone_lines_code pats nocur (Z.quot (wrap64 (max_of Y lines * 7)) 10) lines) in Hz.
    destruct (zone_lines _ _ _ _ _) as [[largest cur2] cur3]. destruct Hz as [Hc Hl].
    destruct (Qgtb largest 0) eqn:Hq; [now apply Hl|].
    pose proof (anywhere_lines_code any lines cur3 Hc) as Ha.
    destruct (anywhere_lines any lines cur3) as [dec cur4].
    destruct (Qgtb dec 0) eqn:Hq2; [now apply Ha|exact Hc]. }
  split; [apply H|].
  unfold parseInvoiceTextWithPosition.
  specialize (H (currency_range rt) (GoSort.Slice by_Y textLines)).
  destruct (extractAmountFromPosition _ _) as [amount currency]. exact H.
Qed.

(** X4. [extractVendorName] reads the first five lines only, blank ones
    included: it returns the trimmed text of the first of them that is
    not empty, has more than three bytes once trimmed and does not
    contain the word "invoice" in any case, and the sentinel when there
    is none. *)
Theorem vendor_of_first_five_lines (lines : list gostring) :
  extractVendorName lines =
  match find vendor_like (firstn 5 lines) with
  | Some line => TrimSpace line
  | None => UNKNOWN
  end /\
  extractVendorName lines = extractVendorName (firstn 5 lines).
Proof.
  assert (H : forall l, extractVendorName l =
                        match find vendor_like (firstn 5 l) with
                        | Some line => TrimSpace line
                        | None => UNKNOWN
                        end).
  { intros l. unfold extractVendorName. rewrite vendor_lines_spec by lia.
    change (Z.to_nat (5 - 0)) with 5%nat. now destruct (find _ _). }
  split; [apply H|]. rewrite (H (firstn 5 lines)), H. now rewrite firstn_firstn.
Qed.

(** X5. [extractInvoiceNumber] returns the sentinel or a piece of the
    lowered text: one or more lower-case letters, digits and hyphens. So
    a number it finds is never mistaken for the sentinel. *)
Theorem text_invoice_number_shape (text : gostring) :
  let r := extractInvoiceNumber text in
  r = UNKNOWN \/
  (r <> [] /\ occurs_in r (ToLower text) /\
   Forall (fun a => is_lower a || is_digit a || Ascii.eqb a "-" = true) r /\
   r <> UNKNOWN).
Proof.
  cbv zeta. unfold extractInvoiceNumber.
  destruct (first_submatch _ text) as [number|] eqn:E; [right|now left].
  apply (first_submatch_shape _ _ _ invoicePatterns_groups) in E as (Hne & Hc & Ho).
  assert (Hl : Forall (fun a => is_lower a || is_digit a || Ascii.eqb a "-" = true) number).
  { pose proof (occurs_in_Forall _ _ _ Ho (ToLower_no_upper text)) as Hu.
    rewrite Forall_forall in *. intros a Ha.
    specialize (Hc a Ha). specialize (Hu a Ha). cbv beta in Hu.
    unfold invoice_char, is_alnum, is_letter in Hc. rewrite Hu in Hc. exact Hc. }
  repeat split; auto.
  intros ->. inversion Hl as [|? ? Hu _]. discriminate.
Qed.

(** X6. [extractAmount] returns the value of the first of its three
    patterns, in their order, that gives an amount on the lowered text:
    the capture of that pattern is a run of digits, a period or a
    comma, and two digits, and the result is the float64 nearest to the
    number that the digits write, counted in hundredths; so the two
    digits are kept as the fraction whether the separator is a period
    or a comma, as in ["Total: 12,50"] and ["Total: 12.50"], which both
    give 12.5. A pattern gives no amount when it finds no match or when
    that number is too large for a float64; when no pattern gives an
    amount the result is 0. The result is never negative. *)
Theorem text_amount_is_hundredths (text : gostring) :
  ((extractAmount text = 0%Q /\
    forall p, In p TextPatterns.amountPatterns -> no_amount p text) \/
   (exists before p after ds sp d1 d2,
       TextPatterns.amountPatterns = before ++ p :: after /\
       (forall q, In q before -> no_amount q text) /\
       nth 1 (FindStringSubmatch (MustCompile p) (ToLower text)) [] = ds ++ [sp; d1; d2] /\
       ds <> [] /\ Forall (fun a => is_digit a = true) ds /\
       (sp = "."%char \/ sp = ","%char) /\ is_digit d1 = true /\ is_digit d2 = true /\
       binary64_of (digits_val 0 (ds ++ [d1; d2])) 100 = Some (extractAmount text))) /\
  (0 <= extractAmount text)%Q /\
  extractAmount "Total: 12,50" = (25 # 2)%Q /\
  extractAmount "Total: 12.50" = (25 # 2)%Q.
Proof.
  split; [|split; [|split; vm_compute; reflexivity]].
  - unfold extractAmount.
    pose proof (first_amount_spec _ text amountPatterns_groups) as H.
    destruct (first_amount TextPatterns.amountPatterns text) as [val|];
      [right; exact H|left; split; [reflexivity|exact H]].
  - unfold extractAmount.
    pose proof (first_amount_spec _ text amountPatterns_groups) as H.
    destruct (first_amount TextPatterns.amountPatterns text) as [val|]; [|discriminate].
    destruct H as (_ & _ & _ & ds & sp & d1 & d2 & _ & _ & _ & _ & Hds & _ & Hd1 & Hd2 & Hb).
    apply (binary64_of_nonneg (digits_val 0 (ds ++ [d1; d2])) 100); [|lia|exact Hb].
    apply digits_val_nonneg; [|lia]. apply Forall_app. split; auto.
Qed.

(** X7. [extractDate] returns the sentinel exactly when the text
    contains no match of its three patterns; what it returns otherwise
    is a non-empty piece of the text that one of the patterns matches. *)
Theorem text_date_unknown_iff_no_match (text : gostring) :
  let r := extractDate text in
  (r = UNKNOWN <->
   forall p u, In p TextPatterns.datePatterns -> Lang (MustCompile p) u ->
               ~ occurs_in u text) /\
  (r = UNKNOWN \/
   (r <> [] /\ occurs_in r text /\
    exists p, In p TextPatterns.datePatterns /\ Lang (MustCompile p) r)).
Proof.
  cbv zeta. unfold extractDate.
  rewrite <- (first_date_none _ _ datePatterns_nonempty).
  destruct (first_date TextPatterns.datePatterns text) as [m|] eqn:E.
  - apply first_date_some in E as (Hne & Ho & p & Hp & HL).
    split; [|right; eauto]. split; [|discriminate].
    intros ->. exfalso.
    pose proof datePatterns_end_in_digit as He. rewrite Forall_forall in He.
    destruct (Lang_ends_in _ _ _ HL (He p Hp)) as [E|(w & d & Hw & Hd)]; [discriminate|].
    change UNKNOWN with (("UNKNOW" : gostring) ++ ["N"%char]) in Hw.
    apply app_inj_tail in Hw as [_ <-]. discriminate.
  - split; [tauto|now left].
Qed.

(** X8. The resolver of [main.go] returns the trimmed text of a line of
    the top 30% of the page with more than three bytes, and the
    sentinel when there is none. When one of these lines is no header,
    the result is such a line, and no such line is longer. *)
Theorem vendor_of_top_lines (textLines : list TextLine) :
  let r := TopLines.extractVendorNameFromPosition textLines in
  ((forall line, TopLines.in_top textLines line -> len (TrimSpace (Text line)) <= 3) -> r = UNKNOWN) /\
  ((exists line, TopLines.in_top textLines line /\ 3 < len (TrimSpace (Text line))) ->
   exists line, TopLines.in_top textLines line /\ 3 < len r /\ r = TrimSpace (Text line)) /\
  (forall line, TopLines.in_top textLines line -> TopLines.is_name (TrimSpace (Text line)) = true ->
                TopLines.is_name r = true /\ len (TrimSpace (Text line)) <= len r).
Proof.
  cbv zeta. unfold TopLines.extractVendorNameFromPosition.
  destruct textLines as [|l0 ls].
  { split; [intros _; reflexivity|]. split.
    - intros (line & [[] _] & _).
    - intros line [[] _]. }
  cbn [length Nat.eqb].
  set (lines := l0 :: ls).
  set (thr := Z.quot (wrap64 (max_of Y lines * 3)) 10).
  set (top := GoSort.Slice by_Y (filter (fun line => Y line <? thr) lines)).
  assert (Htop : forall line, In line top <-> TopLines.in_top lines line).
  { intros line. subst top. rewrite Slice_In, filter_In. unfold TopLines.in_top. fold thr.
    now rewrite Z.ltb_lt. }
  pose proof (longest_step_fold top ([], 0) eq_refl (or_introl eq_refl)) as Hfold.
  cbv zeta in Hfold.
  destruct (fold_left TopLines.longest_step top ([], 0)) as [longest n].
  cbn [fst snd] in Hfold. destruct Hfold as (Hn & Hfrom & Hvalid & _ & Hmax).
  destruct (streq longest "") eqn:Hs; cbn [negb].
  - apply streq_eq in Hs. change (list_ascii_of_string "") with (@nil ascii) in Hs. subst longest.
    assert (Hnone : forall line, TopLines.in_top lines line -> TopLines.is_name (TrimSpace (Text line)) = false).
    { intros line Hl. destruct (TopLines.is_name (TrimSpace (Text line))) eqn:E; [|reflexivity].
      apply Htop in Hl. specialize (Hmax line Hl E). apply is_name_long in E.
      change (len []) with 0 in Hmax. lia. }
    destruct (find _ top) as [line|] eqn:Hf.
    + apply find_some in Hf as [Hin Hlen]. apply Z.ltb_lt in Hlen. apply Htop in Hin.
      split; [|split].
      * intros H. specialize (H line Hin). lia.
      * intros _. exists line. auto.
      * intros l Hl Hl'. rewrite (Hnone l Hl) in Hl'. discriminate.
    + split; [intros _; reflexivity|split].
      * intros (line & Hl & Hlen). apply Htop in Hl.
        apply (find_none _ _ Hf) in Hl. apply Z.ltb_ge in Hl. lia.
      * intros l Hl Hl'. rewrite (Hnone l Hl) in Hl'. discriminate.
  - assert (Hne : longest <> []).
    { intros ->. discriminate. }
    destruct Hfrom as [E|(line & Hin & E)]; [contradiction|].
    destruct Hvalid as [E'|Hvalid]; [contradiction|].
    pose proof (is_name_long _ Hvalid) as Hlong. apply Htop in Hin.
    split; [|split].
    + intros H. specialize (H line Hin). rewrite <- E in H. lia.
    + intros _. exists line. auto.
    + intros l Hl Hl'. split; [exact Hvalid|]. apply Hmax; auto. now apply Htop.
Qed.

(** X9. The resolver that looks for the label "Number:" returns the
    sentinel or a run of at least five digits, and nothing but digits,
    taken from the text of one of the lines. *)
Theorem labelled_invoice_number_is_digits (textLines : list TextLine) :
  let r := NumberLabel.extractInvoiceNumberFromPosition textLines in
  r = UNKNOWN \/
  (5 <= len r /\ Forall (fun a => is_digit a = true) r /\
   exists line, In line textLines /\ occurs_in r (Text line)).
Proof.
  cbv zeta. unfold NumberLabel.extractInvoiceNumberFromPosition.
  destruct (find _ textLines) as [numberLine|].
  - destruct (NumberLabel.near_label numberLine textLines) as [r|] eqn:E;
      [right; now apply (near_label_number numberLine)|].
    destruct (NumberLabel.docket_lines textLines) as [r|] eqn:E2;
      [right; now apply docket_lines_number|now left].
  - destruct (NumberLabel.docket_lines textLines) as [r|] eqn:E2;
      [right; now apply docket_lines_number|now left].
Qed.

(** X10. [consolidateLines] keeps one position of every group of
    positions that lie close together: what it returns are positions
    of the input, all marked [true]; every position of the input has
    one at or before it, itself or at most [threshold] away; and two
    of them are more than [threshold] apart. The positions are those
    of a page: their differences do not overflow. *)
Theorem consolidated_lines_are_groups (sched : schedule) (lines : intmap) (threshold : Z) :
  (forall k, In k (map fst lines) -> - 2 ^ 62 <= k < 2 ^ 62) ->
  let consolidated := consolidateLines sched lines threshold in
  (forall e, In e consolidated -> snd e = true /\ In (fst e) (map fst lines)) /\
  (forall k, In k (map fst lines) ->
             exists g, In g (map fst consolidated) /\ g <= k /\
                       (k = g \/ k - g <= threshold)) /\
  (forall g1 g2, In g1 (map fst consolidated) -> In g2 (map fst consolidated) ->
                 g1 < g2 -> threshold < g2 - g1).
Proof.
  intros Hpage. cbv zeta. unfold consolidateLines.
  pose proof (positions_perm sched lines) as Hperm.
  pose proof (sort_Ints_sorted (map fst (range_order sched lines))) as Hsorted.
  destruct (sort_Ints (map fst (range_order sched lines))) as [|first rest].
  - split; [intros e []|]. split; [|intros g1 g2 []].
    intros k Hk. apply (Permutation_in _ (Permutation_sym Hperm)) in Hk. destruct Hk.
  - assert (Hin : forall k, In k (first :: rest) <-> In k (map fst lines)).
    { intros k. split; apply Permutation_in; [exact Hperm|now symmetry]. }
    assert (Hr : Forall on_page (first :: rest)).
    { apply Forall_forall. intros k Hk. apply Hpage. now apply Hin. }
    assert (Hkeys : forall g,
               In g (map fst (consolidate_from threshold rest first (intmap_set [] first true)))
               <-> In g (first :: leaders threshold first rest)).
    { intros g. rewrite consolidate_from_keys. cbn [intmap_set map fst In]. intuition. }
    split; [|split].
    + intros e He. split.
      * pose proof (consolidate_from_true threshold rest first (intmap_set [] first true)
                      ltac:(repeat constructor)) as Ht.
        rewrite Forall_forall in Ht. now apply Ht.
      * apply Hin. apply (in_map fst) in He. apply Hkeys in He as [<-|He]; [now left|].
        right. eapply leaders_incl; eauto.
    + intros k Hk. apply Hin in Hk as [<-|Hk].
      * exists first. rewrite Hkeys. cbn [In]. repeat split; auto; lia.
      * destruct (leaders_cover threshold rest first Hsorted Hr k Hk) as (g & Hg & Hgk).
        exists g. now rewrite Hkeys.
    + intros g1 g2 Hg1 Hg2 Hlt. apply Hkeys in Hg1, Hg2.
      destruct (leaders_apart threshold rest first Hsorted Hr) as [H1 H2].
      inversion Hsorted as [|? ? _ Hfirst]; subst. rewrite Forall_forall in Hfirst.
      destruct Hg1 as [<-|Hg1], Hg2 as [<-|Hg2]; try lia; auto.
      apply leaders_incl in Hg1. specialize (Hfirst g1 Hg1). lia.
Qed.

Lemma consolidated_lines_witness :
  let lines := [(100, true); (5, true); (12, true); (95, true)] in
  let consolidated := consolidateLines [] lines 10 in
  (forall e, In e consolidated -> snd e = true /\ In (fst e) (map fst lines)) /\
  (forall k, In k (map fst lines) ->
             exists g, In g (map fst consolidated) /\ g <= k /\ (k = g \/ k - g <= 10)) /\
  (forall g1 g2, In g1 (map fst consolidated) -> In g2 (map fst consolidated) ->
                 g1 < g2 -> 10 < g2 - g1).
Proof.
  apply (consolidated_lines_are_groups [] [(100, true); (5, true); (12, true); (95, true)] 10).
  intros k [<-|[<-|[<-|[<-|[]]]]]; split; (apply Z.leb_le || apply Z.ltb_lt); reflexivity.
Defined.

(** X11. The result of [consolidateLines] does not depend on the order
    in which the [range] loop visits the map: the positions are sorted
    before they are grouped. *)
Theorem consolidated_lines_any_order (sched1 sched2 : schedule) (lines : intmap)
    (threshold : Z) :
  consolidateLines sched1 lines threshold = consolidateLines sched2 lines threshold.
Proof.
  unfold consolidateLines.
  replace (sort_Ints (map fst (range_order sched2 lines)))
    with (sort_Ints (map fst (range_order sched1 lines))); [reflexivity|].
  apply sorted_unique; try apply sort_Ints_sorted.
  rewrite !positions_perm. reflexivity.
Qed.

(** X12. The text [cleanTextForComparison] returns is made of lower-case
    letters and digits only, and cleaning it again changes nothing. *)
Theorem clean_text_is_plain (text : gostring) :
  Forall (fun a => is_lower a || is_digit a = true) (cleanTextForComparison text) /\
  cleanTextForComparison (cleanTextForComparison text) = cleanTextForComparison text.
Proof.
  assert (H : Forall (fun a => plain_char a = true) (cleanTextForComparison text)).
  { unfold cleanTextForComparison, ReplaceAllOutside. apply replace_outside_keep. }
  split; [exact H|].
  set (x := cleanTextForComparison text) in *.
  unfold cleanTextForComparison at 1.
  unfold ToLower. rewrite (lower_fuel_plain x) by auto.
  cbn [fold_left]. rewrite !(TrimSuffix_plain x) by (auto; reflexivity).
  unfold ReplaceAllOutside. now apply replace_outside_id.
Qed.

(** X13. When the text has two commas or more and no period, [parseAmount]
    reads the text before the last comma with its commas removed; what
    follows the last comma plays no part in the result. So ["1,234,56"]
    gives 1234. *)
Theorem parseAmount_drops_after_last_comma (pre post post' : gostring) :
  In ","%char pre -> ~ In "."%char pre ->
  ~ In ","%char post -> ~ In "."%char post ->
  ~ In ","%char post' -> ~ In "."%char post' ->
  parseAmount (pre ++ "," ++ post) = ParseFloat (ReplaceAll pre "," "") /\
  parseAmount (pre ++ "," ++ post) = parseAmount (pre ++ "," ++ post').
Proof.
  intros. split; [now apply parseAmount_many_commas|].
  now rewrite !parseAmount_many_commas.
Qed.

Lemma parseAmount_drops_after_last_comma_witness :
  parseAmount ("1,234" ++ "," ++ "56") = Some (1234 # 1)%Q /\
  parseAmount ("1,234" ++ "," ++ "56") = parseAmount ("1,234" ++ "," ++ "99").
Proof.
  assert (Hno : forall c s, forallb (fun a => negb (Ascii.eqb a c)) s = true -> ~ In c s).
  { intros c s H Hin. rewrite forallb_forall in H. specialize (H c Hin).
    now rewrite Ascii.eqb_refl in H. }
  destruct (parseAmount_drops_after_last_comma "1,234" "56" "99") as [H1 H2].
  - cbn. auto.
  - now apply Hno.
  - now apply Hno.
  - now apply Hno.
  - now apply Hno.
  - now apply Hno.
  - split; [|exact H2]. rewrite H1. vm_compute. reflexivity.
Defined.

(** X14. [parseAmount] reads every text that the amount pattern
    [\d{1,3}(?:[.,]\d{3})*[.,]\d{2}] matches, up to 300 bytes: for such
    a text it returns a number and no error. *)
Theorem parseAmount_reads_every_amount (s : gostring) :
  Lang AmountPatterns.amount s -> (length s <= 300)%nat ->
  exists q, parseAmount s = Some q.
Proof.
  intros HL Hlen. apply Lang_amount_text in HL.
  pose proof (amount_text_chars _ HL) as Hchars.
  remember (count_occ ascii_dec s ","%char) as cs eqn:Ecs.
  remember (count_occ ascii_dec s "."%char) as ps eqn:Eps.
  assert (Hcomma : is_digit ","%char = false) by reflexivity.
  assert (Hperiod : is_digit "."%char = false) by reflexivity.
  destruct (Nat.eq_dec cs 1) as [Hc1|Hc1].
  - (* one comma *)
    assert (Hin : In ","%char s) by (apply (count_occ_In ascii_dec); lia).
    destruct (last_occurrence _ _ Hin) as (pre & post & E & Hpost).
    destruct (amount_prefix s pre post _ HL E Hcomma) as (d0 & rest & Epre & Hd0 & Hprec).
    assert (Hpre : ~ In ","%char pre).
    { apply (count_occ_not_In ascii_dec). apply (not_In_count _ _ post); [|exact Hpost].
      rewrite <- E. lia. }
    rewrite E in Hlen |- *. rewrite length_app in Hlen.
    change (pre ++ ","%char :: post) with (pre ++ "," ++ post).
    rewrite parseAmount_one_comma by assumption.
    change (list_ascii_of_string ".") with ["."%char].
    change (list_ascii_of_string "") with (@nil ascii). rewrite ReplaceAll_remove.
    apply ParseFloat_digits_some.
    + rewrite Epre, filter_head_digit by assumption. discriminate.
    + apply (filter_digits _ _ ","%char); auto.
    + pose proof (filter_length_le (fun a => negb (Ascii.eqb a "."%char)) pre). lia.
  - destruct (Nat.eq_dec ps 0) as [Hp0|Hp0].
    + (* no period: two commas or more *)
      assert (Hin : In ","%char s).
      { destruct HL as (_ & _ & _ & _ & _ & [H|H]); [|exact H].
        apply (count_occ_In ascii_dec) in H. lia. }
      destruct (last_occurrence _ _ Hin) as (pre & post & E & Hpost).
      destruct (amount_prefix s pre post _ HL E Hcomma) as (d0 & rest & Epre & Hd0 & Hprec).
      assert (Hnop : ~ In "."%char s) by (apply (count_occ_not_In ascii_dec); lia).
      assert (Hpre : In ","%char pre).
      { apply (count_occ_In ascii_dec).
        destruct cs as [|[|cs]]; [apply (count_occ_In ascii_dec) in Hin; lia|lia|].
        rewrite (not_In_count _ pre post (S cs)); [lia| |exact Hpost]. now rewrite <- E. }
      rewrite E in Hlen, Hnop |- *. rewrite length_app in Hlen.
      change (pre ++ ","%char :: post) with (pre ++ "," ++ post).
      rewrite parseAmount_many_commas; auto.
      * change (list_ascii_of_string ",") with [","%char].
        change (list_ascii_of_string "") with (@nil ascii). rewrite ReplaceAll_remove.
        apply ParseFloat_digits_some.
        -- rewrite Epre, filter_head_digit by assumption. discriminate.
        -- apply (filter_digits _ _ "."%char); auto.
           intros H. apply Hnop. apply in_or_app. now left.
        -- pose proof (filter_length_le (fun a => negb (Ascii.eqb a ","%char)) pre). lia.
      * intros H. apply Hnop. apply in_or_app. now left.
      * intros H. apply Hnop. apply in_or_app. right. now right.
    + (* a period, and no single comma *)
      assert (Hin : In "."%char s) by (apply (count_occ_In ascii_dec); lia).
      unfold parseAmount.
      change (list_ascii_of_string ",") with [","%char].
      change (list_ascii_of_string ".") with ["."%char].
      change (list_ascii_of_string "") with (@nil ascii).
      rewrite !Count_char, <- Ecs, <- Eps.
      destruct (Z.eqb_spec (Z.of_nat cs) 1) as [Hx|_]; [lia|]. cbn [andb orb].
      destruct (Z.eqb_spec (Z.of_nat ps) 0) as [Hx|_]; [lia|]. rewrite andb_false_r.
      destruct (Z.eqb_spec (Z.of_nat ps) 1) as [Hp1|Hp1].
      * (* one period *)
        rewrite ReplaceAll_remove.
        set (s' := filter (fun a => negb (Ascii.eqb a ","%char)) s).
        assert (Hcount : count_occ ascii_dec s' "."%char = 1%nat).
        { subst s'. rewrite count_occ_filter_other by discriminate. lia. }
        assert (Hin' : In "."%char s') by (apply (count_occ_In ascii_dec); lia).
        destruct (last_occurrence _ _ Hin') as (x & y & E & Hy).
        assert (Hx : ~ In "."%char x).
        { apply (count_occ_not_In ascii_dec). apply (not_In_count _ _ y); [|exact Hy].
          now rewrite <- E. }
        assert (Hs' : Forall (fun a => amount_char a = true) s')
          by (subst s'; now apply Forall_filter).
        assert (Hnc : ~ In ","%char s') by (subst s'; apply filter_not_In).
        rewrite E in Hs', Hnc. apply Forall_app in Hs' as [Hxs Hys].
        inversion Hys as [|? ? _ Hys']; subst.
        assert (Hdx : digits_only x).
        { apply sep_free_digits; auto. intros H. apply Hnc. apply in_or_app. now left. }
        assert (Hdy : digits_only y).
        { apply sep_free_digits; auto. intros H. apply Hnc. apply in_or_app. right. now right. }
        rewrite E.
        change (x ++ "."%char :: y) with (x ++ "." ++ y).
        apply ParseFloat_decimal_some; auto.
        -- intros ->. cbn [app] in E.
           destruct HL as (d0 & rest & -> & Hd0 & _).
           subst s'. rewrite filter_head_digit in E by assumption.
           injection E as -> _. discriminate.
        -- pose proof (filter_length_le (fun a => negb (Ascii.eqb a ","%char)) s) as Hl.
           fold s' in Hl. rewrite E, length_app in Hl. cbn [length] in Hl. lia.
      * (* two periods or more *)
        assert (Hp2 : (2 <= ps)%nat) by lia.
        destruct (Z.ltb_spec 1 (Z.of_nat ps)) as [_|Hx]; [|lia].
        destruct (last_occurrence _ _ Hin) as (pre & post & E & Hpost).
        destruct (amount_prefix s pre post _ HL E Hperiod) as (d0 & rest & Epre & Hd0 & Hprec).
        rewrite E. rewrite LastIndex_split by assumption.
        destruct (Z.eqb_spec (Z.of_nat (length pre)) (-1)) as [Hx|_]; [lia|].
        cbn [negb]. unfold slice_to, slice_from. rewrite Nat2Z.id.
        rewrite firstn_length_app, skipn_length_app.
        rewrite !ReplaceAll_remove, filter_app.
        assert (Hpostc : Forall (fun a => amount_char a = true) post).
        { rewrite E in Hchars. apply Forall_app in Hchars as [_ H].
          now inversion H. }
        cbn [filter Ascii.eqb Bool.eqb negb].
        change (?a ++ "."%char :: ?b) with (a ++ "." ++ b).
        rewrite E, length_app in Hlen. cbn [length] in Hlen.
        apply ParseFloat_decimal_some.
        -- rewrite Epre, (filter_head_digit "."%char) by assumption.
           rewrite (filter_head_digit ","%char) by assumption. discriminate.
        -- now apply filter_filter_digits.
        -- apply sep_free_digits; [now apply Forall_filter| |apply filter_not_In].
           intros H. apply filter_In in H as [H _]. contradiction.
        -- pose proof (filter_length_le (fun a => negb (Ascii.eqb a ","%char))
                         (filter (fun a => negb (Ascii.eqb a "."%char)) pre)).
           pose proof (filter_length_le (fun a => negb (Ascii.eqb a "."%char)) pre).
           pose proof (filter_length_le (fun a => negb (Ascii.eqb a ","%char)) post).
           lia.
Qed.

Lemma parseAmount_reads_every_amount_witness :
  exists q, parseAmount "1.234.567,89" = Some q.
Proof.
  apply parseAmount_reads_every_amount.
  - apply (match_at_Lang _ _ []).
    vm_compute. reflexivity.
  - apply Nat.leb_le. reflexivity.
Defined.

(** X15. When no two lines have the same [Y], the record does not depend
    on the order in which the lines are given: the aggregator sorts
    them by [Y] before it resolves the fields. *)
Theorem record_ignores_line_order (rt : runtime) (lines1 lines2 : list TextLine) :
  Permutation lines1 lines2 -> NoDup (map Y lines1) ->
  parseInvoiceTextWithPosition rt lines1 = parseInvoiceTextWithPosition rt lines2.
Proof.
  intros Hp Hnd. unfold parseInvoiceTextWithPosition.
  now rewrite (sorted_lines_unique lines1 lines2 Hp Hnd).
Qed.

Lemma record_ignores_line_order_witness :
  parseInvoiceTextWithPosition in_order scenario =
  parseInvoiceTextWithPosition in_order (rev scenario).
Proof.
  apply record_ignores_line_order.
  - apply Permutation_rev.
  - unfold scenario. cbn [map Y line_at].
    repeat (constructor; [cbn [In]; intuition discriminate|]). constructor.
Defined.

(** X16. Every line the normaliser produces has a text without white
    space at either end, and coordinates and sizes within the 64-bit
    integers; it produces at most one line for each line of the OCR
    result. *)
Theorem normalized_lines_are_trimmed (result : OcrResult) :
  (forall t, In t (extractTextFromOCRResult result) ->
             (forall w, In w space_runes ->
                        HasPrefix (Text t) w = false /\ HasSuffix (Text t) w = false) /\
             min_int64 <= X t <= max_int64 /\ min_int64 <= Y t <= max_int64 /\
             min_int64 <= Width t <= max_int64 /\ min_int64 <= Height t <= max_int64) /\
  (length (extractTextFromOCRResult result) <=
   length (flat_map Lines (Regions result)))%nat.
Proof.
  split.
  - intros t Ht. unfold extractTextFromOCRResult in Ht.
    apply in_flat_map in Ht as (region & _ & Ht).
    apply in_flat_map in Ht as (line & _ & Ht).
    now apply normalize_line_ok in Ht.
  - unfold extractTextFromOCRResult.
    induction (Regions result) as [|region regions IH]; cbn [flat_map]; [reflexivity|].
    rewrite !length_app.
    assert (H : (length (flat_map normalize_line (Lines region)) <= length (Lines region))%nat).
    { induction (Lines region) as [|line lines IHl]; cbn [flat_map length]; [lia|].
      rewrite length_app.
      assert (length (normalize_line line) <= 1)%nat; [|lia].
      unfold normalize_line. destruct (_ <=? _)%nat; simpl; lia. }
    lia.
Qed.

(** X17. [convertDomainToReadableName] returns capitalised words joined
    by single spaces: each word is made of letters and digits, starts
    with a digit or an upper-case letter and has no upper-case letter
    after it. *)
Theorem readable_name_is_capitalized (domain : gostring) :
  exists words,
    convertDomainToReadableName domain = Join words " " /\
    Forall (fun w =>
              exists a t,
                w = a :: t /\ is_alnum a = true /\ is_lower a = false /\
                Forall (fun b => is_alnum b = true /\ is_upper b = false) t)
           words.
Proof. exact (readable_name_words domain). Qed.

(** X18. The vendor name the resolver returns, whichever strategy it
    comes from, has no white space at either end. *)
Theorem vendor_name_has_no_outer_space (sched : schedule) (textLines : list TextLine) :
  Forall (fun w =>
            HasPrefix (extractVendorNameFromPosition sched textLines) w = false /\
            HasSuffix (extractVendorNameFromPosition sched textLines) w = false)
         space_runes.
Proof.
  apply Forall_forall.
  change (trimmed (extractVendorNameFromPosition sched textLines)).
  unfold extractVendorNameFromPosition.
  destruct (length textLines =? 0)%nat; [apply UNKNOWN_trimmed|].
  set (st := fold_left _ textLines _).
  set (topLeft := GoSort.Slice by_Y (topLeftLines st)).
  set (top := GoSort.Slice by_Y (topLines st)).
  assert (Hcand : Forall trimmed (logo_candidates topLeft)).
  { unfold logo_candidates. apply trimmed_texts. }
  rewrite Forall_forall in Hcand.
  match goal with
  | |- trimmed (match ?x with _ => _ end) => destruct x as [logoText|] eqn:E1
  end.
  { match type of E1 with (if ?b then _ else _) = _ => destruct b; [|discriminate] end.
    apply Hcand. eapply match_domains_In; eauto. }
  match goal with
  | |- trimmed (match ?x with _ => _ end) => destruct x as [name|] eqn:E2
  end.
  { match type of E2 with (if ?b then _ else _) = _ => destruct b; [|discriminate] end.
    destruct (map Text _) as [|addressLine ?]; [discriminate|].
    destruct topLeft as [|first rest]; [discriminate|].
    destruct (line_before addressLine first rest) as [above|]; [|discriminate].
    eapply company_above_address_trimmed; eauto. }
  destruct (find _ (logo_candidates topLeft)) as [logoText|] eqn:E3.
  { apply find_some in E3 as [Hin _]. now apply Hcand. }
  match goal with
  | |- trimmed (match ?x with _ => _ end) => destruct x as [name|] eqn:E4
  end.
  { match type of E4 with (if ?b then _ else _) = _ => destruct b; [|discriminate] end.
    destruct (GoSort.Slice longer_first _) as [|name' ?] eqn:Es; [discriminate|].
    injection E4 as <-.
    assert (Hin : In name' (GoSort.Slice longer_first
                          (flat_map domain_name
                             (range_order sched (unique (websiteDomains st ++ emailDomains st))))))
      by (rewrite Es; now left).
    apply Slice_In, in_flat_map in Hin as (domain & _ & Hin).
    unfold domain_name in Hin. destruct (Split domain ".") as [|mainPart ?]; [destruct Hin|].
    destruct Hin as [<-|[]]. apply readable_name_trimmed. }
  set (names := filter _ (map (fun line => TrimSpace (Text line)) topLeft)).
  assert (Hnames : Forall trimmed names) by apply trimmed_texts.
  destruct (GoSort.Slice longer_first names) as [|longest others] eqn:Es.
  - destruct (find _ top) as [line|]; [apply TrimSpace_trimmed|apply UNKNOWN_trimmed].
  - rewrite Forall_forall in Hnames.
    assert (Hsorted : forall r, In r (longest :: others) -> trimmed r).
    { intros r Hr. apply Hnames. rewrite <- Es in Hr. now apply Slice_In in Hr. }
    destruct (find _ (longest :: others)) as [name|] eqn:Ef.
    + apply find_some in Ef as [Hin _]. now apply Hsorted.
    + apply Hsorted. now left.
Qed.

(** X19. The amount of the resolver is 0, or it is the value that
    [parseAmount] gives to a piece of the text of one of the lines, a
    piece that the amount pattern matches. *)
Theorem amount_is_read_from_a_line (sched : schedule) (textLines : list TextLine) :
  fst (extractAmountFromPosition sched textLines) = 0%Q \/
  exists line s,
    In line textLines /\ occurs_in s (Text line) /\
    Lang AmountPatterns.amount s /\
    parseAmount s = Some (fst (extractAmountFromPosition sched textLines)).
Proof.
  change (fst (extractAmountFromPosition sched textLines) = 0%Q \/
          amount_of_line textLines (fst (extractAmountFromPosition sched textLines))).
  unfold extractAmountFromPosition.
  set (cur0 := if negb (streq (detectDocumentCurrency sched textLines) "")
               then detectDocumentCurrency sched textLines else EUR).
  pose proof (keyword_lines_found patterns patternsNoCurrency textLines cur0
                patterns_amount_in patternsNoCurrency_amount_in) as H1.
  destruct (keyword_lines patterns patternsNoCurrency textLines cur0) as [r|cur1];
    [now right|].
  pose proof (zone_lines_found textLines patterns patternsNoCurrency
                (Z.quot (wrap64 (max_of Y textLines * 7)) 10) textLines (0%Q, [], cur1)
                (fun l H => H) patterns_amount_in patternsNoCurrency_amount_in
                (or_introl eq_refl)) as Hz.
  destruct (zone_lines _ _ _ _ _) as [[largest cur2] cur3]. cbn [fst] in Hz.
  destruct (Qgtb largest 0); [exact Hz|].
  pose proof (anywhere_lines_found textLines cur3) as Ha.
  destruct (anywhere_lines anywhere textLines cur3) as [dec cur4]. cbn [fst] in Ha.
  destruct (Qgtb dec 0); [exact Ha|now left].
Qed.

(** X20. The invoice number is a piece of the text of one of the lines;
    otherwise it is the sentinel, and then no pattern captures two
    bytes or more, once trimmed, on any line. *)
Theorem invoice_number_is_read_from_a_line (textLines : list TextLine) :
  ((exists line,
      In line textLines /\
      occurs_in (extractInvoiceNumberFromPosition textLines) (Text line)) \/
   (extractInvoiceNumberFromPosition textLines = UNKNOWN /\
    forall line, In line textLines ->
                 first_capture InvoicePatterns.patterns (Text line) = None)).
Proof.
  unfold extractInvoiceNumberFromPosition.
  destruct (invoice_top_right _ _ textLines) as [r|] eqn:E1;
    [left; now apply invoice_top_right_line in E1|].
  destruct (invoice_keyword_lines textLines) as [r|] eqn:E2;
    [left; now apply invoice_keyword_lines_line in E2|].
  destruct (invoice_top_half _ textLines) as [r|] eqn:E3;
    [left; now apply invoice_top_half_line in E3|].
  destruct (invoice_anywhere textLines) as [r|] eqn:E4;
    [left; now apply invoice_anywhere_line in E4|].
  right. split; [reflexivity|]. now apply invoice_anywhere_none.
Qed.
